(** * Appliance pattern generator: synthesis and placement of activations

    A shallow embedding of [appliance_pattern_generator.py] and the
    properties of its curve utilities, its four generation methods and its
    two activation placers; with them, the merge of configurations that
    the callers of the generator use ([deep_merge], [merge_overrides]).

    Conventions of the embedding.

    - Numbers.  The samples, powers, weights and probabilities that Python
      holds as [float] and numpy as [float64] are rationals ([Q]); their
      arithmetic is exact.  Rounding, infinities and NaN of these values
      are not represented: where numpy would go on with [inf] or [nan] (a
      division of an array by zero) the run ends in the outcome
      [NonFinite].  Where Python itself raises ([ZeroDivisionError] on
      scalars) the run ends in [Raise].  Equality of rationals is [Qeq]
      ([==]); Python's [==] on floats is [Qeq_bool].
    - Counts.  The code truncates a float to an integer in three places.
      The two sample counts [int(duration_min * 60 / timestep)] (lines 50
      and 146) are computed in double precision, from the doubles nearest
      to the arguments ([py_steps]): rounding decides them at ordinary
      inputs (4.35 minutes at 9 seconds give 29 samples, the exact quotient
      of the double 4.35 gives 28).  The weekly quota (line 332) is the
      truncated exact product; its double precision evaluation
      ([target_activations_binary64]) is checked to agree with it.
    - Integers supplied by the caller are [Z]; lengths and list positions,
      which the code never makes negative, are [nat].
    - Exceptions.  A function that can raise returns a [result]; the
      exception classes that occur are the constructors of [exn].
    - Time.  A naive [datetime] with whole seconds is the number of seconds
      since 00:00:00 of a reference Monday ([Z]); [date], [weekday] and
      [hour] are read off that number.  Calendar fields (year, month) are
      never inspected by the code.
    - Loops.  A loop bounded by its own counter is a structural recursion
      on that counter.  The grid loop [while current <= end_date] cannot
      end when the step is not positive: it appends until Python runs out
      of memory or of calendar.  That run has the outcome [Diverges].
    - Dicts.  The hour probabilities of a schedule and the dicts of a
      configuration are the lists of their items in insertion order.  The
      statements on [deep_merge] assume of an override what every Python
      dict satisfies: distinct keys.
    - Libraries.  [scipy.interpolate.interp1d], [fastdtw], [random.sample]
      and [numpy.random.choice] are not part of the repository.  The values
      of the cubic interpolant and the warping path are Section variables;
      the two random draws are driven by an arbitrary stream of naturals
      [entropy], so that every outcome the libraries allow is covered by
      some stream. *)

From Stdlib Require Import String Ascii.
From Stdlib Require Import ZArith QArith Qround Qminmax Qabs.
From Stdlib Require Import Floats Uint63.
From Stdlib Require Import List Bool Arith Lia Lra Lqa.
From Stdlib Require Import Sorting.Permutation Sorting.Sorted.
Import ListNotations.

Local Open Scope Q_scope.

(** ** Outcomes of a call *)

Inductive exn : Type :=
| ValueError (msg : string)
| IndexError
| ZeroDivisionError
| OverflowError.

Inductive result (A : Type) : Type :=
| Ok (a : A)
| Raise (e : exn)
| NonFinite
| Diverges.

Arguments Ok {A} a.
Arguments Raise {A} e.
Arguments NonFinite {A}.
Arguments Diverges {A}.

Definition bind {A B : Type} (r : result A) (k : A -> result B) : result B :=
  match r with
  | Ok a => k a
  | Raise e => Raise e
  | NonFinite => NonFinite
  | Diverges => Diverges
  end.

Declare Scope result_scope.
Delimit Scope result_scope with result.
Notation "'do' x <- r ; k" := (bind r (fun x => k))
  (at level 10, x pattern, r at level 100, k at level 200) : result_scope.
Local Open Scope result_scope.

(** [mapM f l]: a comprehension or loop whose body may raise; the first
    failure, left to right, is the outcome. *)
Fixpoint mapM {A B : Type} (f : A -> result B) (l : list A) : result (list B) :=
  match l with
  | [] => Ok []
  | x :: r => do y <- f x; do ys <- mapM f r; Ok (y :: ys)
  end.

(** ** Python and numpy primitives *)

(** [int(x)] of the exact value [x]: truncation toward zero. *)
Definition py_int (x : Q) : Z := Z.quot (Qnum x) (Zpos (Qden x)).

(** [a / b] on Python scalars. *)
Definition py_div (a b : Q) : result Q :=
  if Qeq_bool b 0 then Raise ZeroDivisionError else Ok (a / b).

(** The builtin [max(a, b)]: [b] only when [b > a]. *)
Definition py_max (a b : Q) : Q := if Qlt_le_dec a b then b else a.

(** [l[i]] on a list, with Python's negative positions. *)
Definition py_index {A : Type} (l : list A) (i : Z) : result A :=
  let n := Z.of_nat (length l) in
  let j := if (i <? 0)%Z then (n + i)%Z else i in
  if ((0 <=? j)%Z && (j <? n)%Z)%bool
  then match nth_error l (Z.to_nat j) with
       | Some x => Ok x
       | None => Raise IndexError
       end
  else Raise IndexError.

(** [l[i]] and [l[i] = v] at a position that is a [nat]. *)
Definition get_item {A : Type} (l : list A) (i : nat) : result A :=
  match nth_error l i with
  | Some x => Ok x
  | None => Raise IndexError
  end.

Fixpoint replace_nth {A : Type} (l : list A) (i : nat) (v : A) : list A :=
  match l, i with
  | [], _ => []
  | _ :: r, O => v :: r
  | x :: r, S j => x :: replace_nth r j v
  end.

Definition set_item {A : Type} (l : list A) (i : nat) (v : A) : result (list A) :=
  if (i <? length l)%nat then Ok (replace_nth l i v) else Raise IndexError.

(** [arr.min()] and [arr.max()]: numpy refuses an empty array. *)
Definition np_min (arr : list Q) : result Q :=
  match arr with
  | [] => Raise (ValueError "zero-size array to reduction operation minimum which has no identity")
  | x :: r => Ok (fold_left Qmin r x)
  end.

Definition np_max (arr : list Q) : result Q :=
  match arr with
  | [] => Raise (ValueError "zero-size array to reduction operation maximum which has no identity")
  | x :: r => Ok (fold_left Qmax r x)
  end.

(** [np.clip(arr, 0, None)]. *)
Definition np_clip0 (arr : list Q) : list Q :=
  map (fun v => if Qlt_le_dec v 0 then 0 else v) arr.

(** [np.linspace(0, 1, n)]; a negative [n] is refused. *)
Definition np_linspace01 (n : Z) : result (list Q) :=
  if (n <? 0)%Z
  then Raise (ValueError "Number of samples must be non-negative")
  else if (n =? 1)%Z then Ok [0]
  else Ok (map (fun i => inject_Z (Z.of_nat i) / inject_Z (n - 1))
               (seq 0 (Z.to_nat n))).

(** [np.arange(n) * step]; [np.arange] of a negative count is empty. *)
Definition np_arange_times (n : Z) (step : Q) : list Q :=
  map (fun i => inject_Z (Z.of_nat i) * step) (seq 0 (Z.to_nat n)).

(** ** Binary64

    Where the code turns a float into an integer count, the float is
    computed as IEEE 754 double precision computes it. *)

Definition float_of_Z (z : Z) : float :=
  if (z <? 0)%Z then PrimFloat.opp (PrimFloat.of_uint63 (Uint63.of_Z (- z)))
  else PrimFloat.of_uint63 (Uint63.of_Z z).

(** [int(x)] on a finite double. *)
Definition float_trunc (x : float) : option Z :=
  match Prim2SF x with
  | S754_zero _ => Some 0%Z
  | S754_finite s m e =>
      let mag := if (0 <=? e)%Z then (Z.pos m * 2 ^ e)%Z
                 else (Z.pos m / 2 ^ (- e))%Z in
      Some (if s then (- mag)%Z else mag)
  | _ => None
  end.

(** The double that Python holds for the number [q]: the quotient of
    numerator and denominator, rounded once to nearest-even.  A double is
    its own image; a number beyond the largest double becomes an
    infinity, as [float('1e999')] does. *)
Definition float_of_Q (q : Q) : float :=
  let den := S754_finite false (Qden q) 0 in
  match Qnum q with
  | Z0 => 0%float
  | Zpos n => SF2Prim (SFdiv prec emax (S754_finite false n 0) den)
  | Zneg n => SF2Prim (SFdiv prec emax (S754_finite true n 0) den)
  end.

(** [int(duration_min * 60 / timestep_sec)] of lines 50 and 146: the
    product and the quotient are rounded to double precision, the result
    is truncated toward zero.  A zero time step is Python's
    [ZeroDivisionError]; [int] refuses an infinity with [OverflowError]
    and a NaN with [ValueError]. *)
Definition py_steps (duration_min timestep_sec : Q) : result Z :=
  let t := float_of_Q timestep_sec in
  if PrimFloat.eqb t 0 then Raise ZeroDivisionError
  else
    let x := (float_of_Q duration_min * 60 / t)%float in
    match float_trunc x with
    | Some n => Ok n
    | None =>
        if PrimFloat.is_nan x
        then Raise (ValueError "cannot convert float NaN to integer")
        else Raise OverflowError
    end.

(** ** Templates *)

Record template : Type := {
  power_sequence : list Q;
  max_power : Q;                (* statistical_features.max_power *)
  total_duration_seconds : Q
}.

(** ** Utilities *)

Definition normalize_pattern (seq : list Q) : result (list Q) :=
  let arr := seq in
  do mn <- np_min arr;
  do mx <- np_max arr;
  if Qeq_bool mx mn
  then Ok (map (fun _ => 1 # 2) arr)
  else Ok (map (fun v => (v - mn) / (mx - mn)) arr).

Definition scale_pattern (norm : list Q) (nominal baseline : Q) : list Q :=
  map (fun v => v * (nominal - baseline) + baseline) norm.

(** A loop that threads an accumulator through a body that may raise. *)
Fixpoint foldM {A B : Type} (f : A -> B -> result A) (l : list B) (a : A)
  : result A :=
  match l with
  | [] => Ok a
  | x :: r => do a' <- f a x; foldM f r a'
  end.

(** Elementwise arithmetic on two arrays, with numpy's broadcasting of a
    one-element operand; other length mismatches are refused. *)
Definition np_zip (f : Q -> Q -> Q) (a b : list Q) : result (list Q) :=
  if (length a =? length b)%nat then Ok (map (fun p => f (fst p) (snd p)) (combine a b))
  else match a, b with
       | [x], _ => Ok (map (f x) b)
       | _, [y] => Ok (map (fun v => f v y) a)
       | _, _ => Raise (ValueError "operands could not be broadcast together")
       end.

(** [a += b]: only [b] may be broadcast, the shape of [a] is kept. *)
Definition np_iadd (a b : list Q) : result (list Q) :=
  if (length a =? length b)%nat then Ok (map (fun p => fst p + snd p) (combine a b))
  else match b with
       | [y] => Ok (map (fun v => v + y) a)
       | _ => Raise (ValueError "operands could not be broadcast together")
       end.

(** [arr.sum()]. *)
Definition np_sum (arr : list Q) : Q := fold_left Qplus arr 0.

(** [arr /= d] for a scalar [d]: an empty array stays empty, a non-empty
    one divided by zero leaves the rationals. *)
Definition np_idiv_scalar (arr : list Q) (d : Q) : result (list Q) :=
  match arr with
  | [] => Ok []
  | _ => if Qeq_bool d 0 then NonFinite else Ok (map (fun v => v / d) arr)
  end.

(** [np.argsort(keys)].  The order among equal keys is the order of the
    positions (numpy sorts short arrays by insertion). *)
Fixpoint argsort_insert (keys : list Q) (i : nat) (sorted : list nat) : list nat :=
  match sorted with
  | [] => [i]
  | j :: r =>
      if Qlt_le_dec (nth i keys 0) (nth j keys 0)
      then i :: sorted
      else j :: argsort_insert keys i r
  end.

Definition np_argsort (keys : list Q) : list nat :=
  fold_left (fun sorted i => argsort_insert keys i sorted) (seq 0 (length keys)) [].

(** [np.mean(np.vstack(rows), axis=0)]: one mean per column. *)
Definition np_vstack_mean (rows : list (list Q)) : result (list Q) :=
  match rows with
  | [] => Raise (ValueError "need at least one array to concatenate")
  | r0 :: _ =>
      if forallb (fun r => (length r =? length r0)%nat) rows
      then Ok (map (fun j => np_sum (map (fun r => nth j r 0) rows)
                             / inject_Z (Z.of_nat (length rows)))
                   (seq 0 (length r0)))
      else Raise (ValueError "all the input array dimensions except for the concatenation axis must match exactly")
  end.

(** [np.interp(x, xp, fp)] for increasing [xp]: constant outside
    [[xp[0], xp[-1]]], the sample itself at a node, the chord between the
    two neighbouring nodes elsewhere. *)
Fixpoint leading_le (xp : list Q) (x : Q) : nat :=
  match xp with
  | [] => 0
  | v :: r => if Qle_bool v x then S (leading_le r x) else 0
  end.

Definition interp_at (xp fp : list Q) (x : Q) : Q :=
  if Qlt_le_dec (last xp 0) x then last fp 0
  else if Qlt_le_dec x (hd 0 xp) then hd 0 fp
  else
    let j := (leading_le xp x - 1)%nat in
    if (j =? length xp - 1)%nat then nth j fp 0
    else if Qeq_bool (nth j xp 0) x then nth j fp 0
    else
      let slope := (nth (S j) fp 0 - nth j fp 0) / (nth (S j) xp 0 - nth j xp 0) in
      slope * (x - nth j xp 0) + nth j fp 0.

Definition np_interp (x xp fp : list Q) : result (list Q) :=
  match xp with
  | [] => Raise (ValueError "array of sample points is empty")
  | _ =>
      if (length fp =? length xp)%nat
      then Ok (map (interp_at xp fp) x)
      else Raise (ValueError "fp and xp are not of the same length.")
  end.

Section Synthesis.

(** [cubic_spline x y t]: the value at [t] of the cubic interpolant that
    [interp1d(x, y, kind='cubic', fill_value='extrapolate')] builds. *)
Variable cubic_spline : list Q -> list Q -> Q -> Q.

(** [fastdtw x y]: the warping path of [fastdtw(x, y, dist=|.-.|)], as
    pairs (position in [x], position in [y]). *)
Variable fastdtw : list Q -> list Q -> list (nat * nat).

(** [interp1d(x0, y, kind='cubic', ...)(xt)]: scipy refuses fewer than
    four nodes with a [ValueError] (its wording depends on the scipy
    release); otherwise one value per query point. *)
Definition interp1d_cubic (x0 y xt : list Q) : result (list Q) :=
  if (length x0 <? 4)%nat
  then Raise (ValueError "x and y arrays must have at least 4 entries")
  else Ok (map (cubic_spline x0 y) xt).

Definition interp_pattern (pattern : list Q) (duration_min timestep_sec : Q)
  : result (list Q) :=
  let L := length pattern in
  do steps <- py_steps duration_min timestep_sec;
  if (steps =? Z.of_nat L)%Z then Ok pattern
  else
    do x0 <- np_linspace01 (Z.of_nat L);
    do xt <- np_linspace01 steps;
    interp1d_cubic x0 pattern xt.

(** One turn of the loop over the warping path in [align_dtw]. *)
Definition dtw_step (template : list Q) (st : list Q * list Q) (p : nat * nat)
  : result (list Q * list Q) :=
  let '(aligned, counts) := st in
  let '(i_t, i_r) := p in
  do a <- get_item aligned i_r;
  do t <- get_item template i_t;
  do aligned' <- set_item aligned i_r (a + t);
  do c <- get_item counts i_r;
  do counts' <- set_item counts i_r (c + 1);
  Ok (aligned', counts').

Definition align_dtw (template ref : list Q) : result (list Q) :=
  let path := fastdtw template ref in
  let aligned := repeat 0 (length ref) in
  let counts := repeat 0 (length ref) in
  do st <- foldM (dtw_step template) path (aligned, counts);
  let '(aligned, counts) := st in
  let counts := map (fun c => if Qeq_bool c 0 then 1 else c) counts in
  Ok (map (fun p => fst p / snd p) (combine aligned counts)).

(** The body of the first loop of [generate_weighted_average]: the weight
    and the processed curve of one template. *)
Definition weighted_entry (nominal duration_min baseline timestep_sec : Q)
           (tpl : template) : result (Q * list Q) :=
  let tpl_power := max_power tpl in
  let tpl_dur := total_duration_seconds tpl / 60 in
  do rp <- py_div (Qabs (tpl_power - nominal)) nominal;
  do pw <- py_div 1 (1 + rp);
  do rd <- py_div (Qabs (tpl_dur - duration_min)) duration_min;
  do dw <- py_div 1 (1 + rd);
  let w := pw * dw in
  do norm <- normalize_pattern (power_sequence tpl);
  let scaled := scale_pattern norm nominal baseline in
  do proc <- interp_pattern scaled duration_min timestep_sec;
  Ok (w, proc).

Definition generate_weighted_average (templates : list template)
           (nominal duration_min baseline timestep_sec : Q) : result (list Q) :=
  do entries <- mapM (weighted_entry nominal duration_min baseline timestep_sec) templates;
  let weights := map fst entries in
  let processed := map snd entries in
  do w_arr <- np_idiv_scalar weights (np_sum weights);
  do p0 <- get_item processed 0;
  let avg := map (fun _ => 0) p0 in
  do avg <- foldM (fun avg pw =>
                     let '(proc, w) := pw in
                     do proc <- (if negb (length proc =? length avg)%nat
                                 then interp_pattern proc duration_min timestep_sec
                                 else Ok proc);
                     np_iadd avg (map (fun v => v * w) proc))
                  (combine processed w_arr) avg;
  Ok (np_clip0 avg).

Definition generate_interpolation (templates : list template)
           (nominal duration_min baseline timestep_sec : Q) : result (list Q) :=
  let diffs := map (fun t => Qabs (max_power t - nominal)) templates in
  let idx := np_argsort diffs in
  match idx with
  | [i0] =>
      do tpl <- get_item templates i0;
      do seq <- normalize_pattern (power_sequence tpl);
      interp_pattern (scale_pattern seq nominal baseline) duration_min timestep_sec
  | _ =>
      do i0 <- get_item idx 0;
      do t1 <- get_item templates i0;
      do i1 <- get_item idx 1;
      do t2 <- get_item templates i1;
      do seq1 <- normalize_pattern (power_sequence t1);
      do seq2 <- normalize_pattern (power_sequence t2);
      do s1 <- interp_pattern (scale_pattern seq1 nominal baseline) duration_min timestep_sec;
      do s2 <- interp_pattern (scale_pattern seq2 nominal baseline) duration_min timestep_sec;
      let p1 := max_power t1 in
      let p2 := max_power t2 in
      let alpha := if Qeq_bool p1 p2 then 1 # 2 else (nominal - p1) / (p2 - p1) in
      let alpha := if Qlt_le_dec alpha 0 then 0
                   else if Qlt_le_dec 1 alpha then 1 else alpha in
      np_zip Qplus (map (fun v => (1 - alpha) * v) s1) (map (fun v => alpha * v) s2)
  end.

Definition generate_scaling (templates : list template)
           (nominal duration_min baseline timestep_sec : Q) (index : Z)
  : result (list Q) :=
  do tpl <- (if (index <? Z.of_nat (length templates))%Z
             then py_index templates index
             else py_index templates 0%Z);
  do seq <- normalize_pattern (power_sequence tpl);
  interp_pattern (scale_pattern seq nominal baseline) duration_min timestep_sec.

(** The [dtw] branch of [generate_single_activation_pattern]. *)
Definition generate_dtw (templates : list template)
           (nominal duration_min baseline timestep_native : Q) (ref_index : Z)
  : result (list Q) :=
  do ref_tpl <- py_index templates ref_index;
  do ref_seq <- normalize_pattern (power_sequence ref_tpl);
  let ref_scaled := scale_pattern ref_seq nominal baseline in
  do ref_interp <- interp_pattern ref_scaled duration_min timestep_native;
  do warped <- mapM (fun tpl =>
                       do seq <- normalize_pattern (power_sequence tpl);
                       let scaled := scale_pattern seq nominal baseline in
                       do interp <- interp_pattern scaled duration_min timestep_native;
                       align_dtw interp ref_interp)
                    templates;
  do mean <- np_vstack_mean warped;
  Ok (np_clip0 mean).

(** [templates] is what [load_extracted_patterns(templates_dir)] returned;
    reading the file is outside the embedding. *)
Definition generate_single_activation_pattern (templates : list template)
           (nominal duration_min : Q) (method : string)
           (baseline timestep_native output_timestep : Q) (ref_index : Z)
  : result (list Q) :=
  do pattern_native <-
     (if String.eqb method "weighted"
      then generate_weighted_average templates nominal duration_min baseline timestep_native
      else if String.eqb method "interpolate"
      then generate_interpolation templates nominal duration_min baseline timestep_native
      else if String.eqb method "scaling"
      then generate_scaling templates nominal duration_min baseline timestep_native 0%Z
      else if String.eqb method "dtw"
      then generate_dtw templates nominal duration_min baseline timestep_native ref_index
      else Raise (ValueError ("Unknown method " ++ method)));
  do num_output_steps <- py_steps duration_min output_timestep;
  let x_native := np_arange_times (Z.of_nat (length pattern_native)) timestep_native in
  let x_output := np_arange_times num_output_steps output_timestep in
  np_interp x_output x_native pattern_native.

End Synthesis.

(** ** Time *)

Definition datetime : Type := Z.

Definition seconds_per_day : Z := 86400.

(** [ts.date()], as a day number. *)
Definition date (ts : datetime) : Z := (ts / seconds_per_day)%Z.

(** [d.weekday()] of a day number: 0 is Monday. *)
Definition date_weekday (d : Z) : Z := (d mod 7)%Z.

(** [ts.weekday()] and [ts.hour]. *)
Definition weekday (ts : datetime) : Z := date_weekday (date ts).
Definition hour (ts : datetime) : Z := ((ts mod seconds_per_day) / 3600)%Z.

(** [datetime.combine(d, datetime.min.time())]. *)
Definition midnight (d : Z) : datetime := (d * seconds_per_day)%Z.

Definition is_weekend (d : Z) : bool := (5 <=? date_weekday d)%Z.

(** ** The time series *)

Definition timeseries : Type := list (datetime * Q).

(** [while current <= end_date: timeseries.append([current, 0.0]); current += step]. *)
Fixpoint grid_loop (fuel : nat) (current end_date step : Z) : timeseries :=
  match fuel with
  | O => []
  | S fuel' =>
      if (current <=? end_date)%Z
      then (current, 0) :: grid_loop fuel' (current + step)%Z end_date step
      else []
  end.

Definition make_grid (start_date end_date output_timestep : Z) : result timeseries :=
  if ((start_date <=? end_date)%Z && (output_timestep <=? 0)%Z)%bool
  then Diverges
  else Ok (grid_loop (Z.to_nat (end_date - start_date + 1)) start_date end_date
                     output_timestep).

(** [enumerate(l)]. *)
Definition enumerate {A : Type} (l : list A) : list (nat * A) :=
  combine (seq 0 (length l)) l.

(** The innermost loop of both placers: the pointwise-maximum merge of the
    activation at [absolute_idx], guarded by the length of the series. *)
Definition overlay (ts : timeseries) (absolute_idx : nat)
           (activation_pattern : list Q) : result timeseries :=
  foldM (fun ts ip =>
           let '(i, power_val) := ip in
           if (absolute_idx + i <? length ts)%nat
           then
             do cell <- get_item ts (absolute_idx + i)%nat;
             set_item ts (absolute_idx + i)%nat (fst cell, py_max (snd cell) power_val)
           else Ok ts)
        (enumerate activation_pattern) ts.

(** ** Hour ranges *)

Fixpoint split_on (sep : ascii) (s : string) : list string :=
  match s with
  | EmptyString => [EmptyString]
  | String c r =>
      if Ascii.eqb c sep then EmptyString :: split_on sep r
      else match split_on sep r with
           | [] => [String c EmptyString]
           | f :: fs => String c f :: fs
           end
  end.

(** [int(s)] on a string in base ten: surrounding white space, an optional
    sign, ASCII digits with single underscores between them.  Bytes outside
    ASCII are not read as digits or spaces. *)
Definition is_space (c : ascii) : bool :=
  let n := nat_of_ascii c in
  ((9 <=? n) && (n <=? 13) || (28 <=? n) && (n <=? 32))%nat%bool.

Definition is_digit (c : ascii) : bool :=
  let n := nat_of_ascii c in ((48 <=? n) && (n <=? 57))%nat%bool.

Fixpoint drop_spaces (l : list ascii) : list ascii :=
  match l with
  | c :: r => if is_space c then drop_spaces r else l
  | [] => []
  end.

Fixpoint parse_digits (l : list ascii) (acc : Z) (after_digit : bool) : option Z :=
  match l with
  | [] => if after_digit then Some acc else None
  | c :: r =>
      if is_digit c
      then parse_digits r (10 * acc + Z.of_nat (nat_of_ascii c - 48))%Z true
      else if (Ascii.eqb c "_" && after_digit)%bool
      then parse_digits_after_underscore r acc
      else None
  end
with parse_digits_after_underscore (l : list ascii) (acc : Z) : option Z :=
  match l with
  | [] => None
  | c :: r =>
      if is_digit c
      then parse_digits r (10 * acc + Z.of_nat (nat_of_ascii c - 48))%Z true
      else None
  end.

Definition py_int_of_string (s : string) : result Z :=
  let body := rev (drop_spaces (rev (drop_spaces (list_ascii_of_string s)))) in
  let parsed :=
    match body with
    | "-"%char :: r => option_map Z.opp (parse_digits r 0%Z false)
    | "+"%char :: r => parse_digits r 0%Z false
    | _ => parse_digits body 0%Z false
    end in
  match parsed with
  | Some z => Ok z
  | None => Raise (ValueError ("invalid literal for int() with base 10: '" ++ s ++ "'"))
  end.

Definition parse_hour_range (hour_str : string) : result (Z * Z) :=
  match split_on "-" hour_str with
  | [a; b] =>
      do start_hour <- py_int_of_string a;
      do end_hour <- py_int_of_string b;
      Ok (start_hour, end_hour)
  | _ => Raise (ValueError ("Invalid hour range format: " ++ hour_str
                             ++ ". Expected format: '6-9'"))
  end.

(** [range(a, b)]. *)
Definition py_range (a b : Z) : list Z :=
  map (fun k => (a + Z.of_nat k)%Z) (seq 0 (Z.to_nat (b - a))).

(** [hour_probabilities] is the dict in its insertion order. *)
Definition calculate_timestep_probabilities (hour_probabilities : list (string * Q))
  : result (list Q) :=
  let hour_probs := repeat 0 24 in
  foldM (fun hour_probs entry =>
           let '(hour_range, prob) := entry in
           do se <- parse_hour_range hour_range;
           let '(start_hour, end_hour) := se in
           foldM (fun hour_probs hour =>
                    if ((0 <=? hour)%Z && (hour <? 24)%Z)%bool
                    then
                      do old <- get_item hour_probs (Z.to_nat hour);
                      set_item hour_probs (Z.to_nat hour) (py_max old prob)
                    else Ok hour_probs)
                 (py_range start_hour end_hour) hour_probs)
        hour_probabilities hour_probs.

(** ** Schedule configuration *)

(** [activations_per_week] is [None] when the key is absent; an absent
    [weekday] or [weekend] entry is the empty dict. *)
Record schedule_config : Type := {
  activations_per_week : option Z;
  weekday_hour_probabilities : list (string * Q);
  weekend_hour_probabilities : list (string * Q)
}.

(** [weeks[week_key].append(item)] on the [defaultdict(list)], kept in the
    order in which keys were first seen. *)
Fixpoint weeks_append (weeks : list (Z * list (nat * datetime))) (week_key : Z)
         (item : nat * datetime) : list (Z * list (nat * datetime)) :=
  match weeks with
  | [] => [(week_key, [item])]
  | (k, l) :: r =>
      if (k =? week_key)%Z then (k, l ++ [item]) :: r
      else (k, l) :: weeks_append r week_key item
  end.

Definition group_weeks (ts : timeseries) : list (Z * list (nat * datetime)) :=
  fold_left (fun weeks it =>
               let '(idx, (t, _)) := it in
               let week_key := (date t - weekday t)%Z in
               weeks_append weeks week_key (idx, t))
            (enumerate ts) [].

(** Lines 326-332: the quota of one week. *)
Definition days_in_week (week_start_date : Z) (end_date : datetime) : Z :=
  let week_start_datetime := midnight week_start_date in
  let week_end_datetime :=
    Z.min (week_start_datetime + 7 * seconds_per_day) end_date in
  (date week_end_datetime - week_start_date + 1)%Z.

(** Line 332, on exact values; [target_activations_binary64] is the same
    expression in double precision. *)
Definition target_activations (activations_per_week : Z) (week_start_date : Z)
           (end_date : datetime) : Z :=
  py_int (inject_Z activations_per_week
          * (inject_Z (days_in_week week_start_date end_date) / 7)).

(** Lines 335-346: probabilities and positions of the samples of the week
    that leave room for a whole activation. *)
Definition week_candidates (weekday_probs weekend_probs : list Q)
           (activation_timesteps series_len : nat)
           (week_timesteps : list (nat * datetime)) : result (list Q * list nat) :=
  foldM (fun acc it =>
           let '(timestep_probs, timestep_indices) := acc in
           let '(idx, t) := it in
           let is_weekend_day := is_weekend (date t) in
           do prob <- (if is_weekend_day
                       then get_item weekend_probs (Z.to_nat (hour t))
                       else get_item weekday_probs (Z.to_nat (hour t)));
           if (idx + activation_timesteps <=? series_len)%nat
           then Ok (timestep_probs ++ [prob], timestep_indices ++ [idx])
           else Ok acc)
        week_timesteps ([], []).

(** Lines 352-357. *)
Definition normalize_probs (timestep_probs : list Q) : list Q :=
  let prob_sum := fold_left Qplus timestep_probs 0 in
  if Qlt_le_dec 0 prob_sum
  then map (fun p => p / prob_sum) timestep_probs
  else repeat (1 / inject_Z (Z.of_nat (length timestep_probs))) (length timestep_probs).

(** [abs(absolute_idx - existing_idx) < activation_timesteps] for some
    member of the set. *)
Definition overlaps (activation_timesteps : nat) (selected : list nat)
           (absolute_idx : nat) : bool :=
  existsb (fun existing_idx =>
             (Z.abs (Z.of_nat absolute_idx - Z.of_nat existing_idx)
              <? Z.of_nat activation_timesteps)%Z)
          selected.

(** [selected_indices.add(x)]; the set is the duplicate-free list of its
    members in the order of their first insertion.  Python iterates a set
    in an order of its own: the overlap test asks for any member and the
    overlays merge by maximum, so the statements below speak of membership
    only. *)
Definition set_add (x : nat) (s : list nat) : list nat :=
  if existsb (Nat.eqb x) s then s else s ++ [x].

(** [sorted(range(n), key=lambda i: probs[i], reverse=True)]: descending,
    equal keys in their original order. *)
Fixpoint desc_insert (probs : list Q) (i : nat) (sorted : list nat) : list nat :=
  match sorted with
  | [] => [i]
  | j :: r =>
      if Qlt_le_dec (nth j probs 0) (nth i probs 0)
      then i :: sorted
      else j :: desc_insert probs i r
  end.

Definition sorted_desc (probs : list Q) (n : nat) : list nat :=
  fold_left (fun sorted i => desc_insert probs i sorted) (seq 0 n) [].

(** Lines 390-403: the deterministic fill. *)
Fixpoint fallback_fill (sorted_indices : list nat) (target : Z)
         (timestep_indices : list nat) (activation_timesteps : nat)
         (selected : list nat) : result (list nat) :=
  match sorted_indices with
  | [] => Ok selected
  | sorted_idx :: rest =>
      if (target <=? Z.of_nat (length selected))%Z then Ok selected
      else
        do absolute_idx <- get_item timestep_indices sorted_idx;
        let selected :=
          if overlaps activation_timesteps selected absolute_idx then selected
          else set_add absolute_idx selected in
        fallback_fill rest target timestep_indices activation_timesteps selected
  end.

(** Removal of the element at one position. *)
Fixpoint remove_nth {A : Type} (j : nat) (l : list A) : list A :=
  match l, j with
  | [], _ => []
  | _ :: r, O => r
  | x :: r, S j' => x :: remove_nth j' r
  end.

Section Placement.

(** The random source: the [c]-th raw draw.  A call that consumes
    randomness takes the position [c] in the stream and returns the next
    one. *)
Variable entropy : nat -> nat.

(** [random.sample(range(n), k)]: [k] distinct members of [range(n)],
    taken one at a time from the members still available. *)
Fixpoint sample_pool (k : nat) (pool : list nat) (c : nat) : list nat * nat :=
  match k with
  | O => ([], c)
  | S k' =>
      let j := (entropy c mod length pool)%nat in
      let '(rest, c') := sample_pool k' (remove_nth j pool) (S c) in
      (nth j pool O :: rest, c')
  end.

Definition random_sample (n : nat) (k : Z) (c : nat) : result (list nat * nat) :=
  if ((0 <=? k)%Z && (k <=? Z.of_nat n)%Z)%bool
  then Ok (sample_pool (Z.to_nat k) (seq 0 n) c)
  else Raise (ValueError "Sample larger than population or is negative").

(** [np.random.choice(n, p=p)]: a position of positive probability. *)
Definition np_random_choice (n : nat) (p : list Q) (c : nat) : result (nat * nat) :=
  if negb (length p =? n)%nat
  then Raise (ValueError "'a' and 'p' must have same size")
  else if existsb (fun v => negb (Qle_bool 0 v)) p
  then Raise (ValueError "probabilities are not non-negative")
  else
    let support := filter (fun i => negb (Qle_bool (nth i p 0) 0)) (seq 0 n) in
    match support with
    | [] => Raise (ValueError "probabilities do not sum to 1")
    | _ => Ok (nth (entropy c mod length support)%nat support O, S c)
    end.

(** *** Uniform random daily placement *)

(** Lines 210-216: the start offsets drawn for a day with [day_len]
    samples; none when the day cannot host an activation. *)
Definition activation_starts (day_len activation_timesteps : nat)
           (activations_per_day : Z) (c : nat) : result (list nat * nat) :=
  let max_start_idx := (Z.of_nat day_len - Z.of_nat activation_timesteps)%Z in
  if (0 <? max_start_idx)%Z
  then
    let num_activations := Z.min activations_per_day max_start_idx in
    if (0 <? num_activations)%Z
    then random_sample (Z.to_nat max_start_idx) num_activations c
    else Ok ([], c)
  else Ok ([], c).

Definition day_indices (ts : timeseries) (current_day : Z) : list nat :=
  map fst (filter (fun it => (date (fst (snd it)) =? current_day)%Z) (enumerate ts)).

(** The state of a placer: the series, the position in the random
    stream, and a record of the start positions overlaid so far (the
    record is not part of the Python state; it names what the loop did). *)
Definition place_day (activation_pattern : list Q) (activations_per_day : Z)
           (st : timeseries * nat * list nat) (current_day : Z)
  : result (timeseries * nat * list nat) :=
  let '(ts, c, placed) := st in
  let day_indices := day_indices ts current_day in
  if (length day_indices =? 0)%nat then Ok st
  else
    do sc <- activation_starts (length day_indices) (length activation_pattern)
                               activations_per_day c;
    let '(starts, c') := sc in
    do tp <- foldM (fun tp start_offset =>
                      let '(ts, placed) := tp in
                      do first <- get_item day_indices 0;
                      let absolute_idx := (first + start_offset)%nat in
                      do ts' <- overlay ts absolute_idx activation_pattern;
                      Ok (ts', placed ++ [absolute_idx]))
                   starts (ts, placed);
    Ok (fst tp, c', snd tp).

(** Lines 190-226 of [generate_timeseries_with_activations], from the
    activation pattern on. *)
Definition place_uniform_daily (activation_pattern : list Q)
           (start_date end_date : datetime) (activations_per_day : Z)
           (output_timestep : Z) (c : nat)
  : result (timeseries * nat * list nat) :=
  do ts <- make_grid start_date end_date output_timestep;
  foldM (place_day activation_pattern activations_per_day)
        (py_range (date start_date) (date end_date + 1)) (ts, c, []).

(** *** Probabilistic weekly placement *)

(** Lines 364-378: at most [remaining] further attempts. *)
Fixpoint rejection_loop (remaining : nat) (target : Z)
         (timestep_probs : list Q) (timestep_indices : list nat)
         (activation_timesteps : nat) (selected : list nat) (c : nat)
  : result (list nat * nat) :=
  match remaining with
  | O => Ok (selected, c)
  | S remaining' =>
      if (Z.of_nat (length selected) <? target)%Z
      then
        do sc <- np_random_choice (length timestep_indices) timestep_probs c;
        let '(selected_idx, c') := sc in
        do absolute_idx <- get_item timestep_indices selected_idx;
        let selected :=
          if overlaps activation_timesteps selected absolute_idx then selected
          else set_add absolute_idx selected in
        rejection_loop remaining' target timestep_probs timestep_indices
                       activation_timesteps selected c'
      else Ok (selected, c)
  end.

(** Lines 360-403: the start positions accepted for one week. *)
Definition select_week (target : Z) (timestep_probs : list Q)
           (timestep_indices : list nat) (activation_timesteps : nat) (c : nat)
  : result (list nat * nat) :=
  let max_attempts := (length timestep_indices * 2)%nat in
  do sc <- rejection_loop max_attempts target timestep_probs timestep_indices
                          activation_timesteps [] c;
  let '(selected, c') := sc in
  if (Z.of_nat (length selected) <? target)%Z
  then
    let sorted_indices := sorted_desc timestep_probs (length timestep_indices) in
    do selected <- fallback_fill sorted_indices target timestep_indices
                                 activation_timesteps selected;
    Ok (selected, c')
  else Ok (selected, c').

(** One turn of the loop over the weeks.  The third component records,
    week by week, the start positions that were accepted. *)
Definition place_week (activation_pattern : list Q) (end_date : datetime)
           (weekday_probs weekend_probs : list Q) (apw : Z)
           (st : timeseries * nat * list (Z * list nat))
           (week : Z * list (nat * datetime))
  : result (timeseries * nat * list (Z * list nat)) :=
  let '(ts, c, accepted) := st in
  let '(week_start_date, week_timesteps) := week in
  let activation_timesteps := length activation_pattern in
  let target := target_activations apw week_start_date end_date in
  do cand <- week_candidates weekday_probs weekend_probs activation_timesteps
                             (length ts) week_timesteps;
  let '(timestep_probs, timestep_indices) := cand in
  if (length timestep_probs =? 0)%nat then Ok st
  else
    let timestep_probs := normalize_probs timestep_probs in
    do sc <- select_week target timestep_probs timestep_indices
                         activation_timesteps c;
    let '(selected, c') := sc in
    do ts' <- foldM (fun ts absolute_idx => overlay ts absolute_idx activation_pattern)
                    selected ts;
    Ok (ts', c', accepted ++ [(week_start_date, selected)]).

(** Lines 297-411 of [generate_timeseries_with_probabilistic_schedule],
    from the activation pattern on. *)
Definition place_probabilistic_weekly (activation_pattern : list Q)
           (start_date end_date : datetime) (schedule : schedule_config)
           (output_timestep : Z) (c : nat)
  : result (timeseries * nat * list (Z * list nat)) :=
  do ts <- make_grid start_date end_date output_timestep;
  do weekday_probs <- calculate_timestep_probabilities (weekday_hour_probabilities schedule);
  do weekend_probs <- calculate_timestep_probabilities (weekend_hour_probabilities schedule);
  let apw := match activations_per_week schedule with Some a => a | None => 7%Z end in
  let weeks := group_weeks ts in
  foldM (place_week activation_pattern end_date weekday_probs weekend_probs apw)
        weeks (ts, c, []).

End Placement.

Section Generator.

Variable cubic_spline : list Q -> list Q -> Q -> Q.
Variable fastdtw : list Q -> list Q -> list (nat * nat).
Variable entropy : nat -> nat.

(** The dates are [datetime] values (strings are parsed before anything
    else happens); the seed is the choice of [entropy]. *)
Definition generate_timeseries_with_probabilistic_schedule
           (templates : list template) (nominal duration_min : Q)
           (start_date end_date : datetime) (schedule : schedule_config)
           (method : string) (baseline timestep_native : Q)
           (output_timestep : Z) (ref_index : Z) : result timeseries :=
  do activation_pattern <-
     generate_single_activation_pattern cubic_spline fastdtw templates nominal
       duration_min method baseline timestep_native (inject_Z output_timestep)
       ref_index;
  do r <- place_probabilistic_weekly entropy activation_pattern start_date
                                     end_date schedule output_timestep 0;
  Ok (fst (fst r)).

Definition generate_timeseries_with_activations
           (templates : list template) (nominal duration_min : Q)
           (start_date end_date : datetime) (activations_per_day : Z)
           (method : string) (baseline timestep_native : Q)
           (output_timestep : Z) (ref_index : Z)
           (schedule : option schedule_config) : result timeseries :=
  match schedule with
  | Some schedule =>
      generate_timeseries_with_probabilistic_schedule templates nominal
        duration_min start_date end_date schedule method baseline
        timestep_native output_timestep ref_index
  | None =>
      do activation_pattern <-
         generate_single_activation_pattern cubic_spline fastdtw templates nominal
           duration_min method baseline timestep_native (inject_Z output_timestep)
           ref_index;
      do r <- place_uniform_daily entropy activation_pattern start_date end_date
                                  activations_per_day output_timestep 0;
      Ok (fst (fst r))
  end.

End Generator.

(** ** The weekly quota in binary64

    [int(activations_per_week * (days_in_week / 7.0))] as IEEE 754 double
    precision computes it. *)

Definition target_activations_binary64 (apw days : Z) : option Z :=
  float_trunc (PrimFloat.mul (float_of_Z apw)
                             (PrimFloat.div (float_of_Z days) (float_of_Z 7))).

(** ** Configuration values and their merge

    [deep_merge] of [utils/genererate_consumption_utils.py] and
    [merge_overrides] of [utils/partner_helpers.py]. *)

(** A configuration value as it arrives in a request body.  A dict is
    the list of its items in insertion order. *)
#[local] Unset Elimination Schemes.
Inductive json : Type :=
| JNull
| JBool (b : bool)
| JNum (q : Q)
| JStr (s : string)
| JList (l : list json)
| JDict (items : list (string * json)).
#[local] Set Elimination Schemes.

(** [d.get(k)] and [d[k] = v]: an assignment to a key of the dict keeps
    the key's position, a new key goes to the end. *)
Fixpoint dict_get (d : list (string * json)) (k : string) : option json :=
  match d with
  | [] => None
  | (k', v) :: r => if String.eqb k' k then Some v else dict_get r k
  end.

Fixpoint dict_set (d : list (string * json)) (k : string) (v : json)
  : list (string * json) :=
  match d with
  | [] => [(k, v)]
  | (k', v') :: r =>
      if String.eqb k' k then (k', v) :: r else (k', v') :: dict_set r k v
  end.

(** [isinstance(j, dict)]. *)
Definition is_dict (j : json) : bool :=
  match j with JDict _ => true | _ => false end.

(** The loop of [deep_merge] over [overrides.items()], [merge] being the
    recursive call; [result] starts as the copy [dict(base)]. *)
Definition merge_items (merge : json -> json -> json)
  : list (string * json) -> list (string * json) -> list (string * json) :=
  fix loop (items result : list (string * json)) : list (string * json) :=
    match items with
    | [] => result
    | (k, v) :: rest =>
        let new :=
          match dict_get result k with
          | Some old => if (is_dict old && is_dict v)%bool then merge old v else v
          | None => v
          end in
        loop rest (dict_set result k new)
    end.

Fixpoint deep_merge (base overrides : json) {struct overrides} : json :=
  match overrides with
  | JDict o =>
      match base with
      | JDict b => JDict (merge_items (fun old v => deep_merge old v) o b)
      | _ => overrides
      end
  | _ => overrides
  end.

(** The truth value of a dict: false when empty. *)
Definition truthy (d : list (string * json)) : bool :=
  match d with [] => false | _ => true end.

(** [base] may be [None], which is false as the empty dict is. *)
Definition merge_overrides (base : option (list (string * json)))
           (extra : list (string * json)) : json :=
  let base_items := match base with Some b => b | None => [] end in
  if (negb (truthy base_items) && negb (truthy extra))%bool then JDict []
  else if (truthy base_items && truthy extra)%bool
  then deep_merge (JDict base_items) (JDict extra)
  else JDict (if truthy base_items then base_items else extra).

(** ** Vocabulary of the statements *)

(** The template values that a warping path maps to position [r] of the
    reference, in path order. *)
Definition path_contributions (template : list Q) (path : list (nat * nat)) (r : nat)
  : list Q :=
  map (fun p => nth (fst p) template 0) (filter (fun p => (snd p =? r)%nat) path).

(** [foreign r]: whatever [r] raises, it is not the error for an unknown
    method. *)
Definition foreign {A : Type} (r : result A) : Prop :=
  forall m, r <> Raise (ValueError ("Unknown method " ++ m)).

(** Curves of closed examples are compared with their fractions reduced. *)
Definition reduced (r : result (list Q)) : option (list Q) :=
  match r with Ok l => Some (map Qred l) | _ => None end.

(** Two recorded cycles of five samples. *)
Definition triangle : template :=
  {| power_sequence := [0; 10; 20; 10; 0]; max_power := 20;
     total_duration_seconds := 35 |}.

Definition valley : template :=
  {| power_sequence := [20; 10; 0; 10; 20]; max_power := 20;
     total_duration_seconds := 35 |}.

(** What the loop of [align_dtw] maintains after the steps [done]. *)
Definition dtw_inv (template : list Q) (n : nat) (done : list (nat * nat))
           (st : list Q * list Q) : Prop :=
  length (fst st) = n /\ length (snd st) = n
  /\ forall r, (r < n)%nat ->
       nth r (fst st) 0 = np_sum (path_contributions template done r)
       /\ nth r (snd st) 0
          == inject_Z (Z.of_nat (length (path_contributions template done r))).

(** [covers a T k]: sample [k] lies under an activation of [T] samples
    that starts at [a]. *)
Definition covers (a T k : nat) : Prop := (a <= k < a + T)%nat.

(** The cell an overlay leaves at position [k]. *)
Definition merged_cell (ts : timeseries) (a : nat) (pattern : list Q) (k : nat)
  : datetime * Q :=
  let cell := nth k ts (0%Z, 0) in
  if ((a <=? k)%nat && (k <? a + length pattern)%nat && (k <? length ts)%nat)%bool
  then (fst cell, py_max (snd cell) (nth (k - a) pattern 0))
  else cell.

(** [untouched T placed k]: no activation started at a member of [placed]
    covers sample [k]. *)
Definition untouched (T : nat) (placed : list nat) (k : nat) : Prop :=
  forall a, In a placed -> ~ covers a T k.

(** What both placers maintain: length and timestamps of the grid, and
    the grid's cell wherever nothing was overlaid. *)
Definition series_inv (T : nat) (grid ts : timeseries) (placed : list nat) : Prop :=
  length ts = length grid
  /\ map fst ts = map fst grid
  /\ forall k, untouched T placed k -> nth k ts (0%Z, 0) = nth k grid (0%Z, 0).

(** [spaced T sel]: the members of [sel] are distinct and any two of them
    are at least [T] samples apart. *)
Definition spaced (T : nat) (sel : list nat) : Prop :=
  NoDup sel
  /\ forall a b, In a sel -> In b sel -> a <> b ->
       (Z.of_nat T <= Z.abs (Z.of_nat a - Z.of_nat b))%Z.

(** [within_quota target sel]: no more members than a non-negative
    [target]. *)
Definition within_quota (target : Z) (sel : list nat) : Prop :=
  (Z.of_nat (length sel) <= Z.max 0 target)%Z.

(** What the loop over the weeks maintains. *)
Definition weeks_inv (T : nat) (apw : Z) (end_date : datetime) (grid : timeseries)
           (st : timeseries * nat * list (Z * list nat)) : Prop :=
  let '(ts, _, accepted) := st in
  series_inv T grid ts (concat (map snd accepted))
  /\ forall wk sel, In (wk, sel) accepted ->
       spaced T sel /\ within_quota (target_activations apw wk end_date) sel.

(** [day_drawn grid T apd day starts]: [starts] are the offsets drawn for
    [day]: [min(apd, max_start)] of them (none when that is not positive),
    distinct and below [max_start = day_len - T]. *)
Definition day_drawn (grid : timeseries) (T : nat) (apd : Z) (day : Z)
           (starts : list nat) : Prop :=
  let day_len := length (day_indices grid day) in
  length starts = Z.to_nat (Z.min apd (Z.of_nat day_len - Z.of_nat T))
  /\ NoDup starts
  /\ forall s, In s starts -> (Z.of_nat s < Z.of_nat day_len - Z.of_nat T)%Z.

(** The start positions of a run that drew [draws] on [days]: day after
    day, the day's first sample plus each offset. *)
Definition placed_of_draws (grid : timeseries) (days : list Z)
           (draws : list (list nat)) : list nat :=
  concat (map (fun dd => map (fun s => (hd O (day_indices grid (fst dd)) + s)%nat)
                             (snd dd))
              (combine days draws)).

(** [settled r]: the call returns or raises; it neither leaves the
    rationals nor runs on for ever. *)
Definition settled {A : Type} (r : result A) : Prop :=
  match r with Ok _ | Raise _ => True | _ => False end.

(** [value_error_or P r]: [r] returns a value with [P], or raises a
    [ValueError]; no other exception, no other way not to return. *)
Definition value_error_or {A : Type} (P : A -> Prop) (r : result A) : Prop :=
  match r with
  | Ok a => P a
  | Raise (ValueError _) => True
  | _ => False
  end.

(** Occurrences of a character in a string. *)
Fixpoint count_char (c : ascii) (s : string) : nat :=
  match s with
  | EmptyString => 0
  | String c' r => ((if Ascii.eqb c' c then 1 else 0) + count_char c r)%nat
  end.

(** [covering hp h p]: some entry of the dict gives probability [p] to a
    range that contains hour [h]. *)
Definition covering (hp : list (string * Q)) (h : nat) (p : Q) : Prop :=
  exists r s e, In (r, p) hp /\ parse_hour_range r = Ok (s, e)
                /\ (s <= Z.of_nat h < e)%Z.

(** The order of the positions that [np_argsort] returns. *)
Definition key_le (keys : list Q) (i j : nat) : Prop := nth i keys 0 <= nth j keys 0.

(** [processed cubic_spline ... t s]: [s] is template [t] normalised,
    scaled and resampled. *)
Definition processed (cubic_spline : list Q -> list Q -> Q -> Q)
           (nominal duration_min baseline timestep_sec : Q)
           (t : template) (s : list Q) : Prop :=
  exists norm,
    normalize_pattern (power_sequence t) = Ok norm
    /\ interp_pattern cubic_spline (scale_pattern norm nominal baseline)
                      duration_min timestep_sec = Ok s.

(** [weighted_mix rows k]: the sum over the rows [(curve, weight)] of the
    [k]-th sample times the weight, accumulated from 0 in the order of the
    rows. *)
Definition weighted_mix (rows : list (list Q * Q)) (k : nat) : Q :=
  fold_left (fun acc pw => acc + nth k (fst pw) 0 * snd pw) rows 0.

(** [from_pattern pattern ts]: every power of [ts] is 0 or a sample of
    [pattern]. *)
Definition from_pattern (pattern : list Q) (ts : timeseries) : Prop :=
  forall k, snd (nth k ts (0%Z, 0)) = 0 \/ In (snd (nth k ts (0%Z, 0))) pattern.

(** [dominates pattern placed ts]: under every start position of [placed]
    the series is at least the activation, sample by sample. *)
Definition dominates (pattern : list Q) (placed : list nat) (ts : timeseries) : Prop :=
  forall a i, In a placed -> (i < length pattern)%nat -> (a + i < length ts)%nat ->
              nth i pattern 0 <= snd (nth (a + i) ts (0%Z, 0)).

(** [in_week ts wk a]: position [a] bears a timestamp of the series whose
    week starts on day [wk]. *)
Definition in_week (ts : timeseries) (wk : Z) (a : nat) : Prop :=
  exists t, nth_error (map fst ts) a = Some t /\ (date t - weekday t)%Z = wk.

(** [within_day ts T a]: the samples [a .. a + T] exist and bear one
    calendar date. *)
Definition within_day (ts : timeseries) (T a : nat) : Prop :=
  forall i, (i <= T)%nat ->
    (a + i < length ts)%nat
    /\ date (fst (nth (a + i) ts (0%Z, 0))) = date (fst (nth a ts (0%Z, 0))).


(** The keys of a dict are pairwise distinct, at every depth: what every
    Python dict satisfies. *)
Fixpoint distinct (l : list string) : bool :=
  match l with
  | [] => true
  | k :: r => negb (existsb (String.eqb k) r) && distinct r
  end.

Fixpoint unique_keys (j : json) : bool :=
  match j with
  | JDict items =>
      distinct (map fst items)
      && forallb (fun kv => let '(_, v) := kv in unique_keys v) items
  | JList l => forallb unique_keys l
  | _ => true
  end.

(** The value [deep_merge] stores under a key of [overrides], [old] being
    what the key held. *)
Definition merged_value (old : option json) (v : json) : json :=
  match old with Some old => deep_merge old v | None => v end.

(** ** Stand-ins for the libraries, used in closed examples only

    The piecewise-linear interpolant in place of the cubic one, the
    diagonal warping path, and a few random streams. *)

Definition chord_interpolant : list Q -> list Q -> Q -> Q := interp_at.

Definition diagonal_path (x y : list Q) : list (nat * nat) :=
  combine (seq 0 (length x)) (seq 0 (length y)).

Definition entropy_zero : nat -> nat := fun _ => O.

Definition entropy_id : nat -> nat := fun c => c.

(** The schedule of the specification's scenario. *)
Definition scenario : schedule_config :=
  {| activations_per_week := Some 7%Z;
     weekday_hour_probabilities := [("18-21"%string, 1)];
     weekend_hour_probabilities := [("10-14"%string, 1)] |}.

(** The record of accepted start positions of a run. *)
Definition accepted_log {A B C : Type} (r : result (A * B * C)) : option C :=
  match r with Ok (_, _, l) => Some l | _ => None end.


(** A configuration and a patch for it. *)
Definition base_config : list (string * json) :=
  [("name"%string, JStr "house");
   ("heating"%string, JDict [("setpoint"%string, JNum 20); ("mode"%string, JStr "auto")])].

Definition config_patch : list (string * json) :=
  [("heating"%string, JDict [("setpoint"%string, JNum 22)]);
   ("floor_area"%string, JNum 120)].

(* ================================================================== *)
(** * Properties *)
(* ================================================================== *)

(** ** Generic facts about outcomes *)

Lemma bind_Ok_inv {A B : Type} (r : result A) (k : A -> result B) (b : B) :
  bind r k = Ok b -> exists a, r = Ok a /\ k a = Ok b.
Proof. destruct r; simpl; intros H; try discriminate. eauto. Qed.

Lemma map_const_repeat {A B : Type} (b : B) (l : list A) :
  map (fun _ => b) l = repeat b (length l).
Proof. induction l; simpl; congruence. Qed.

(** ** Normalisation *)

Lemma fold_min_le_init (r : list Q) (x : Q) : fold_left Qmin r x <= x.
Proof.
  revert x; induction r as [|y r IH]; intros x; simpl.
  - apply Qle_refl.
  - eapply Qle_trans; [apply IH | apply Q.le_min_l].
Qed.

Lemma fold_min_le_in (r : list Q) (x v : Q) : In v r -> fold_left Qmin r x <= v.
Proof.
  revert x; induction r as [|y r IH]; intros x Hin; simpl in *.
  - contradiction.
  - destruct Hin as [->|Hin].
    + eapply Qle_trans; [apply fold_min_le_init | apply Q.le_min_r].
    + now apply IH.
Qed.

Lemma fold_max_ge_init (r : list Q) (x : Q) : x <= fold_left Qmax r x.
Proof.
  revert x; induction r as [|y r IH]; intros x; simpl.
  - apply Qle_refl.
  - eapply Qle_trans; [apply Q.le_max_l | apply IH].
Qed.

Lemma fold_max_ge_in (r : list Q) (x v : Q) : In v r -> v <= fold_left Qmax r x.
Proof.
  revert x; induction r as [|y r IH]; intros x Hin; simpl in *.
  - contradiction.
  - destruct Hin as [->|Hin].
    + eapply Qle_trans; [apply Q.le_max_r | apply fold_max_ge_init].
    + now apply IH.
Qed.

Lemma fold_min_ge (r : list Q) (x b : Q) :
  b <= x -> (forall v, In v r -> b <= v) -> b <= fold_left Qmin r x.
Proof.
  revert x; induction r as [|y r IH]; intros x Hx H; simpl.
  - exact Hx.
  - apply IH.
    + apply Q.min_glb; [exact Hx | apply H; now left].
    + intros v Hv; apply H; now right.
Qed.

Lemma fold_max_le (r : list Q) (x b : Q) :
  x <= b -> (forall v, In v r -> v <= b) -> fold_left Qmax r x <= b.
Proof.
  revert x; induction r as [|y r IH]; intros x Hx H; simpl.
  - exact Hx.
  - apply IH.
    + apply Q.max_lub; [exact Hx | apply H; now left].
    + intros v Hv; apply H; now right.
Qed.

(** The scenario template of the specification. *)
Example normalize_pattern_triangle :
  option_map (map Qred)
    (match normalize_pattern [0; 10; 20; 10; 0] with Ok l => Some l | _ => None end)
  = Some [0; 1 # 2; 1; 1 # 2; 0].
Proof. reflexivity. Qed.

(** C8.  For every non-empty sample sequence, [normalize_pattern] returns
    a sequence of the same length whose values all lie in [[0,1]]; when all
    input samples are equal the result is the constant 0.5 sequence of that
    length. *)
Theorem normalize_pattern_unit_range (seq : list Q) :
  seq <> [] ->
  exists out,
    normalize_pattern seq = Ok out
    /\ length out = length seq
    /\ (forall v, In v out -> 0 <= v <= 1)
    /\ ((forall a b, In a seq -> In b seq -> a == b) ->
        out = repeat (1 # 2) (length seq)).
Proof.
  destruct seq as [|x r]; [congruence|]; intros _.
  unfold normalize_pattern; cbn [np_min np_max bind].
  set (mn := fold_left Qmin r x); set (mx := fold_left Qmax r x).
  assert (Hmn : forall v, In v (x :: r) -> mn <= v).
  { intros v [<-|Hv]; [apply fold_min_le_init | now apply fold_min_le_in]. }
  assert (Hmx : forall v, In v (x :: r) -> v <= mx).
  { intros v [<-|Hv]; [apply fold_max_ge_init | now apply fold_max_ge_in]. }
  destruct (Qeq_bool mx mn) eqn:E.
  - eexists; split; [reflexivity|]. split; [now rewrite length_map|]. split.
    + intros v Hv. apply in_map_iff in Hv as (_ & <- & _). split; lra.
    + intros _. apply map_const_repeat.
  - apply Qeq_bool_neq in E.
    assert (Hlt : mn < mx).
    { assert (mn <= mx) by (eapply Qle_trans; [apply Hmn | apply Hmx]; now left).
      apply Qle_lteq in H as [H|H]; [exact H | symmetry in H; contradiction]. }
    eexists; split; [reflexivity|]. split; [now rewrite length_map|]. split.
    + intros v Hv. apply in_map_iff in Hv as (u & <- & Hu).
      specialize (Hmn u Hu); specialize (Hmx u Hu). split.
      * apply Qle_shift_div_l; lra.
      * apply Qle_shift_div_r; lra.
    + intros Hall. exfalso. apply E.
      apply Qle_antisym.
      * apply fold_max_le; [|intros v Hv].
        -- apply fold_min_ge; [apply Qle_refl|]. intros v Hv.
           apply Qle_lteq; right. apply Hall; [now left | now right].
        -- apply fold_min_ge.
           ++ apply Qle_lteq; right. apply Hall; [now right | now left].
           ++ intros w Hw. apply Qle_lteq; right. apply Hall; now right.
      * lra.
Qed.

Lemma normalize_pattern_unit_range_witness :
  exists out,
    normalize_pattern [3; 3; 3] = Ok out
    /\ length out = length [3; 3; 3]
    /\ (forall v, In v out -> 0 <= v <= 1)
    /\ ((forall a b, In a [3; 3; 3] -> In b [3; 3; 3] -> a == b) ->
        out = repeat (1 # 2) (length [3; 3; 3])).
Proof. apply (normalize_pattern_unit_range [3; 3; 3]). discriminate. Defined.

(** ** Resampling *)

Lemma np_linspace01_length (n : Z) :
  (0 <= n)%Z -> exists l, np_linspace01 n = Ok l /\ length l = Z.to_nat n.
Proof.
  intros Hn. unfold np_linspace01.
  destruct (n <? 0)%Z eqn:E; [apply Z.ltb_lt in E; lia|].
  destruct (n =? 1)%Z eqn:E1.
  - apply Z.eqb_eq in E1; subst. eexists; split; reflexivity.
  - eexists; split; [reflexivity|]. now rewrite length_map, length_seq.
Qed.

Lemma py_div_Ok (a b : Q) : ~ b == 0 -> py_div a b = Ok (a / b).
Proof.
  intros H. unfold py_div. destruct (Qeq_bool b 0) eqn:E; [|reflexivity].
  apply Qeq_bool_eq in E. contradiction.
Qed.

Lemma py_steps_exact_quotients :
  py_steps 5 60 = Ok 5%Z /\ py_steps 1 7 = Ok 8%Z /\ py_steps 1 12 = Ok 5%Z
  /\ py_steps 90 7 = Ok 771%Z.
Proof. repeat split; vm_compute; reflexivity. Qed.

(** On ratios of small integers [float_of_Q] is the division of double
    precision. *)
Lemma float_of_Q_small_ratios :
  forallb (fun n =>
             forallb (fun d =>
                        PrimFloat.Leibniz.eqb
                          (float_of_Q (Z.of_nat n # Pos.of_nat d))
                          (PrimFloat.div (float_of_Z (Z.of_nat n))
                                         (float_of_Z (Z.of_nat d))))
                     (seq 1 60))
          (seq 0 301)
  = true.
Proof. vm_compute. reflexivity. Qed.

(** For whole minutes up to five hours and whole seconds up to two
    minutes the count is the integer quotient. *)
Lemma py_steps_whole_numbers :
  forallb (fun d =>
             forallb (fun t =>
                        match py_steps (inject_Z (Z.of_nat d)) (inject_Z (Z.of_nat t)) with
                        | Ok n => (n =? Z.of_nat d * 60 / Z.of_nat t)%Z
                        | _ => false
                        end)
                     (seq 1 120))
          (seq 0 301)
  = true.
Proof. vm_compute. reflexivity. Qed.

Lemma py_steps_zero_step (d : Q) : py_steps d 0 = Raise ZeroDivisionError.
Proof. reflexivity. Qed.

(** Rounding decides the count: 4.35 * 60 and 0.7 * 60 round up to 261 and
    42, 0.3 * 60 to 18.  The exact quotients of the doubles nearest to
    4.35, 0.7 and 0.3 lie just below 29, 6 and 1. *)
Lemma py_steps_rounded_quotients :
  py_steps (435 # 100) 9 = Ok 29%Z
  /\ py_steps (7 # 10) 7 = Ok 6%Z
  /\ py_steps (3 # 10) 18 = Ok 1%Z
  /\ py_steps (4897664594765414 # 1125899906842624) 9 = Ok 29%Z
  /\ py_int ((4897664594765414 # 1125899906842624) * 60 / 9) = 28%Z.
Proof. repeat split; vm_compute; reflexivity. Qed.

Section InterpPattern.
Variable cubic_spline : list Q -> list Q -> Q -> Q.

(** C5 (amended).  Let [steps] be [int(duration_min * 60 / timestep_sec)]
    as double precision gives it.  [interp_pattern] returns its input
    unchanged if the input already has [steps] samples, and for an input
    of at least four samples (the fewest the cubic interpolant accepts)
    and a non-negative [steps] it returns exactly [steps] samples. *)
Theorem interp_pattern_length (pattern : list Q) (duration_min timestep_sec : Q)
        (steps : Z) :
  py_steps duration_min timestep_sec = Ok steps ->
  (steps = Z.of_nat (length pattern) ->
   interp_pattern cubic_spline pattern duration_min timestep_sec = Ok pattern)
  /\ ((4 <= length pattern)%nat -> (0 <= steps)%Z ->
      exists out,
        interp_pattern cubic_spline pattern duration_min timestep_sec = Ok out
        /\ Z.of_nat (length out) = steps).
Proof.
  intros Hs. unfold interp_pattern. rewrite Hs. cbn [bind]. split.
  - intros ->. now rewrite Z.eqb_refl.
  - intros HL Hsteps.
    destruct (steps =? Z.of_nat (length pattern))%Z eqn:E.
    + apply Z.eqb_eq in E. eexists; split; [reflexivity | now symmetry].
    + destruct (np_linspace01_length (Z.of_nat (length pattern))) as (x0 & -> & Hx0); [lia|].
      destruct (np_linspace01_length steps Hsteps) as (xt & -> & Hxt).
      cbn [bind]. unfold interp1d_cubic.
      rewrite Hx0, Nat2Z.id.
      destruct (length pattern <? 4)%nat eqn:E4; [apply Nat.ltb_lt in E4; lia|].
      eexists; split; [reflexivity|]. rewrite length_map, Hxt. lia.
Qed.

End InterpPattern.

Lemma interp_pattern_length_witness :
  interp_pattern chord_interpolant [0; 10; 20; 10; 0] 5 60 = Ok [0; 10; 20; 10; 0]
  /\ interp_pattern chord_interpolant (repeat 1 29%nat) (435 # 100) 9
     = Ok (repeat 1 29%nat)
  /\ exists out,
       interp_pattern chord_interpolant [0; 10; 20; 10; 0] 1 7 = Ok out
       /\ Z.of_nat (length out) = 8%Z.
Proof.
  split; [|split].
  - apply (interp_pattern_length chord_interpolant [0; 10; 20; 10; 0] 5 60 5);
      reflexivity.
  - apply (interp_pattern_length chord_interpolant (repeat 1 29%nat) (435 # 100) 9 29);
      reflexivity.
  - apply (interp_pattern_length chord_interpolant [0; 10; 20; 10; 0] 1 7 8);
      [reflexivity | simpl; lia | discriminate].
Defined.

(** C5 as stated fails on a curve of three samples: [steps] is 8, the
    cubic interpolant refuses fewer than four nodes, and the call raises. *)
Lemma interp_pattern_short_input_raises :
  [0; 10; 0] <> []
  /\ py_steps 1 7 = Ok 8%Z
  /\ forall cubic_spline,
       interp_pattern cubic_spline [0; 10; 0] 1 7
       = Raise (ValueError "x and y arrays must have at least 4 entries").
Proof. split; [discriminate|]. split; reflexivity. Qed.

(** ** Time alignment *)

Lemma get_item_nth {A : Type} (l : list A) (i : nat) (d : A) :
  (i < length l)%nat -> get_item l i = Ok (nth i l d).
Proof.
  intros H. unfold get_item.
  destruct (nth_error l i) eqn:E.
  - now rewrite (nth_error_nth _ _ d E).
  - apply nth_error_None in E. lia.
Qed.

Lemma set_item_Ok {A : Type} (l : list A) (i : nat) (v : A) :
  (i < length l)%nat -> set_item l i v = Ok (replace_nth l i v).
Proof.
  intros H. unfold set_item. destruct (i <? length l)%nat eqn:E; [reflexivity|].
  apply Nat.ltb_ge in E. lia.
Qed.

Lemma replace_nth_length {A : Type} (l : list A) (i : nat) (v : A) :
  length (replace_nth l i v) = length l.
Proof.
  revert i; induction l as [|x l IH]; intros [|i]; simpl; auto.
Qed.

Lemma nth_replace_nth {A : Type} (l : list A) (i k : nat) (v d : A) :
  (i < length l)%nat ->
  nth k (replace_nth l i v) d = if (k =? i)%nat then v else nth k l d.
Proof.
  revert i k; induction l as [|x l IH]; intros i k H; simpl in H; [lia|].
  destruct i as [|i], k as [|k]; simpl; auto.
  apply IH. lia.
Qed.

Lemma nth_map_combine {A B C : Type} (f : A * B -> C) (a : list A) (b : list B)
      (k : nat) (da : A) (db : B) (dc : C) :
  (k < length a)%nat -> (k < length b)%nat ->
  nth k (map f (combine a b)) dc = f (nth k a da, nth k b db).
Proof.
  revert b k; induction a as [|x a IH]; intros [|y b] [|k] Ha Hb; simpl in *; try lia; auto.
  apply IH; lia.
Qed.

Lemma nth_map_lt {A B : Type} (f : A -> B) (l : list A) (k : nat) (d : A) (e : B) :
  (k < length l)%nat -> nth k (map f l) e = f (nth k l d).
Proof.
  revert k; induction l as [|x l IH]; intros [|k] H; simpl in *; try lia; auto.
  apply IH; lia.
Qed.

Lemma fold_left_Qplus_snoc (l : list Q) (t : Q) :
  fold_left Qplus (l ++ [t]) 0 = fold_left Qplus l 0 + t.
Proof. now rewrite fold_left_app. Qed.

Section Alignment.
Variable fastdtw : list Q -> list Q -> list (nat * nat).

Lemma path_contributions_snoc template done i_t i_r r :
  path_contributions template (done ++ [(i_t, i_r)]) r
  = if (i_r =? r)%nat
    then path_contributions template done r ++ [nth i_t template 0]
    else path_contributions template done r.
Proof.
  unfold path_contributions. rewrite filter_app, map_app. simpl.
  destruct (i_r =? r)%nat; simpl; [reflexivity | now rewrite app_nil_r].
Qed.

Lemma dtw_step_inv template n done st i_t i_r :
  dtw_inv template n done st ->
  (i_t < length template)%nat -> (i_r < n)%nat ->
  exists st', dtw_step template st (i_t, i_r) = Ok st'
              /\ dtw_inv template n (done ++ [(i_t, i_r)]) st'.
Proof.
  destruct st as [aligned counts]. intros (Ha & Hc & Hv) Ht Hr. simpl in *.
  unfold dtw_step.
  rewrite (get_item_nth aligned i_r 0) by lia. cbn [bind].
  rewrite (get_item_nth template i_t 0) by lia. cbn [bind].
  rewrite set_item_Ok by lia. cbn [bind].
  rewrite (get_item_nth counts i_r 0) by lia. cbn [bind].
  rewrite set_item_Ok by lia. cbn [bind].
  eexists; split; [reflexivity|].
  repeat split; simpl; rewrite ?replace_nth_length; auto.
  - rewrite nth_replace_nth by lia. rewrite path_contributions_snoc.
    destruct (Hv r H) as [Hs _]. rewrite (Nat.eqb_sym r i_r).
    destruct (i_r =? r)%nat eqn:E.
    + apply Nat.eqb_eq in E; subst r. unfold np_sum in *.
      rewrite fold_left_Qplus_snoc. now rewrite Hs.
    + exact Hs.
  - rewrite nth_replace_nth by lia. rewrite path_contributions_snoc.
    destruct (Hv r H) as [_ Hn]. rewrite (Nat.eqb_sym r i_r).
    destruct (i_r =? r)%nat eqn:E.
    + apply Nat.eqb_eq in E; subst r. rewrite length_app. simpl.
      rewrite Hn. rewrite Nat2Z.inj_add, inject_Z_plus. reflexivity.
    + exact Hn.
Qed.

Lemma dtw_fold_inv template n path : forall done st,
  dtw_inv template n done st ->
  (forall i_t i_r, In (i_t, i_r) path -> (i_t < length template)%nat /\ (i_r < n)%nat) ->
  exists st', foldM (dtw_step template) path st = Ok st'
              /\ dtw_inv template n (done ++ path) st'.
Proof.
  induction path as [|[i_t i_r] path IH]; intros done st Hinv Hvalid; simpl.
  - exists st. now rewrite app_nil_r.
  - destruct (Hvalid i_t i_r (or_introl eq_refl)) as [Ht Hr].
    destruct (dtw_step_inv _ _ _ _ _ _ Hinv Ht Hr) as (st1 & -> & Hinv1). cbn [bind].
    destruct (IH _ _ Hinv1) as (st' & Hf & Hinv').
    { intros; apply Hvalid; now right. }
    exists st'. split; [exact Hf|]. now rewrite <- app_assoc in Hinv'.
Qed.

(** C9.  When the warping path stays inside both curves, [align_dtw]
    returns a curve as long as the reference; position [r] holds the mean
    of the template values the path maps to [r], and 0 when the path maps
    nothing to it. *)
Theorem align_dtw_mean (template ref : list Q) :
  (forall i_t i_r, In (i_t, i_r) (fastdtw template ref) ->
                   (i_t < length template)%nat /\ (i_r < length ref)%nat) ->
  exists aligned,
    align_dtw fastdtw template ref = Ok aligned
    /\ length aligned = length ref
    /\ forall r, (r < length ref)%nat ->
         let mapped := path_contributions template (fastdtw template ref) r in
         nth r aligned 0
         == match mapped with
            | [] => 0
            | _ => np_sum mapped / inject_Z (Z.of_nat (length mapped))
            end.
Proof.
  intros Hvalid. unfold align_dtw.
  destruct (dtw_fold_inv template (length ref) (fastdtw template ref) []
              (repeat 0 (length ref), repeat 0 (length ref))) as (st & -> & Hinv).
  - repeat split; simpl; rewrite ?repeat_length; auto.
    + now rewrite nth_repeat.
    + now rewrite nth_repeat.
  - exact Hvalid.
  - cbn [bind]. destruct st as [aligned counts].
    destruct Hinv as (Ha & Hc & Hv). simpl in *.
    eexists; split; [reflexivity|]. split.
    + rewrite length_map, length_combine, length_map. lia.
    + intros r Hr.
      set (mapped := path_contributions template (fastdtw template ref) r).
      rewrite (nth_map_combine _ _ _ _ 0 0) by (rewrite ?length_map; lia).
      cbn [fst snd].
      rewrite (nth_map_lt _ _ _ 0) by lia.
      destruct (Hv r Hr) as [Hs Hn]. fold mapped in Hs, Hn.
      rewrite Hs.
      destruct mapped as [|m ms] eqn:Em.
      * simpl in Hn. 
        destruct (Qeq_bool (nth r counts 0) 0) eqn:E.
        -- unfold np_sum; simpl. reflexivity.
        -- apply Qeq_bool_neq in E. contradiction.
      * destruct (Qeq_bool (nth r counts 0) 0) eqn:E.
        -- apply Qeq_bool_eq in E. rewrite E in Hn.
           exfalso. revert Hn. simpl length. rewrite Nat2Z.inj_succ.
           unfold Qeq; simpl. lia.
        -- now rewrite Hn.
Qed.

End Alignment.

Example align_dtw_unmapped_position :
  option_map (map Qred)
    (match align_dtw (fun _ _ => [(0, 0); (1, 0); (2, 1)])%nat [2; 4; 6] [0; 0; 0] with
     | Ok l => Some l
     | _ => None
     end)
  = Some [3; 6; 0].
Proof. reflexivity. Qed.

Lemma align_dtw_mean_witness :
  exists aligned,
    align_dtw diagonal_path [2; 4; 6] [1; 1; 1] = Ok aligned
    /\ length aligned = length [1; 1; 1]
    /\ forall r, (r < length [1; 1; 1])%nat ->
         let mapped := path_contributions [2; 4; 6] (diagonal_path [2; 4; 6] [1; 1; 1]) r in
         nth r aligned 0
         == match mapped with
            | [] => 0
            | _ => np_sum mapped / inject_Z (Z.of_nat (length mapped))
            end.
Proof.
  apply (align_dtw_mean diagonal_path [2; 4; 6] [1; 1; 1]).
  intros i_t i_r H. simpl in H.
  repeat (destruct H as [H|H]; [inversion H; subst; simpl; lia|]).
  contradiction.
Defined.

(** ** The error for an unknown method *)

Lemma foreign_bind {A B : Type} (r : result A) (k : A -> result B) :
  foreign r -> (forall a, foreign (k a)) -> foreign (bind r k).
Proof.
  intros Hr Hk m. destruct r; simpl; try discriminate.
  - apply Hk.
  - intros H. apply (Hr m). now injection H as ->.
Qed.

Lemma foreign_Ok {A : Type} (a : A) : foreign (Ok a).
Proof. intros m; discriminate. Qed.

Lemma foreign_NonFinite {A : Type} : foreign (@NonFinite A).
Proof. intros m; discriminate. Qed.

Lemma foreign_IndexError {A : Type} : foreign (@Raise A IndexError).
Proof. intros m; discriminate. Qed.

Lemma foreign_ZeroDivisionError {A : Type} : foreign (@Raise A ZeroDivisionError).
Proof. intros m; discriminate. Qed.

Lemma foreign_OverflowError {A : Type} : foreign (@Raise A OverflowError).
Proof. intros m; discriminate. Qed.

Ltac foreign_msg := intros ?m ?H; simpl in *; discriminate.

Lemma foreign_mapM {A B : Type} (f : A -> result B) (l : list A) :
  (forall a, foreign (f a)) -> foreign (mapM f l).
Proof.
  intros Hf. induction l as [|x l IH]; simpl.
  - apply foreign_Ok.
  - apply foreign_bind; [apply Hf|]. intros y.
    apply foreign_bind; [apply IH|]. intros ys. apply foreign_Ok.
Qed.

Lemma foreign_foldM {A B : Type} (f : A -> B -> result A) (l : list B) (a : A) :
  (forall a b, foreign (f a b)) -> foreign (foldM f l a).
Proof.
  intros Hf. revert a; induction l as [|x l IH]; intros a; simpl.
  - apply foreign_Ok.
  - apply foreign_bind; [apply Hf | intros; apply IH].
Qed.

Lemma foreign_py_div a b : foreign (py_div a b).
Proof. unfold py_div. destruct (Qeq_bool b 0); [apply foreign_ZeroDivisionError | apply foreign_Ok]. Qed.

Lemma foreign_py_steps d t : foreign (py_steps d t).
Proof.
  unfold py_steps. cbv zeta.
  destruct (PrimFloat.eqb _ _); [apply foreign_ZeroDivisionError|].
  destruct (float_trunc _); [apply foreign_Ok|].
  destruct (PrimFloat.is_nan _); [foreign_msg | apply foreign_OverflowError].
Qed.

Lemma foreign_get_item {A : Type} (l : list A) i : foreign (get_item l i).
Proof. unfold get_item. destruct (nth_error l i); [apply foreign_Ok | apply foreign_IndexError]. Qed.

Lemma foreign_set_item {A : Type} (l : list A) i v : foreign (set_item l i v).
Proof. unfold set_item. destruct (i <? length l)%nat; [apply foreign_Ok | apply foreign_IndexError]. Qed.

Lemma foreign_py_index {A : Type} (l : list A) i : foreign (py_index l i).
Proof.
  unfold py_index. destruct (_ && _)%bool; [|apply foreign_IndexError].
  destruct (nth_error _ _); [apply foreign_Ok | apply foreign_IndexError].
Qed.

Lemma foreign_np_min arr : foreign (np_min arr).
Proof. destruct arr; simpl; [foreign_msg | apply foreign_Ok]. Qed.

Lemma foreign_np_max arr : foreign (np_max arr).
Proof. destruct arr; simpl; [foreign_msg | apply foreign_Ok]. Qed.

Lemma foreign_np_linspace01 n : foreign (np_linspace01 n).
Proof.
  unfold np_linspace01. destruct (n <? 0)%Z; [foreign_msg|].
  destruct (n =? 1)%Z; apply foreign_Ok.
Qed.

Lemma foreign_np_zip f a b : foreign (np_zip f a b).
Proof.
  unfold np_zip. destruct (_ =? _)%nat; [apply foreign_Ok|].
  destruct a as [|x [|x' a]], b as [|y [|y' b]]; try apply foreign_Ok; foreign_msg.
Qed.

Lemma foreign_np_iadd a b : foreign (np_iadd a b).
Proof.
  unfold np_iadd. destruct (_ =? _)%nat; [apply foreign_Ok|].
  destruct b as [|y [|y' b]]; try apply foreign_Ok; foreign_msg.
Qed.

Lemma foreign_np_idiv_scalar arr d : foreign (np_idiv_scalar arr d).
Proof.
  unfold np_idiv_scalar. destruct arr; [apply foreign_Ok|].
  destruct (Qeq_bool d 0); [apply foreign_NonFinite | apply foreign_Ok].
Qed.

Lemma foreign_np_vstack_mean rows : foreign (np_vstack_mean rows).
Proof.
  unfold np_vstack_mean. destruct rows; [foreign_msg|].
  destruct (forallb _ _); [apply foreign_Ok | foreign_msg].
Qed.

Lemma foreign_np_interp x xp fp : foreign (np_interp x xp fp).
Proof.
  unfold np_interp. destruct xp; [foreign_msg|].
  destruct (_ =? _)%nat; [apply foreign_Ok | foreign_msg].
Qed.

Lemma foreign_normalize_pattern seq : foreign (normalize_pattern seq).
Proof.
  unfold normalize_pattern.
  apply foreign_bind; [apply foreign_np_min | intros mn].
  apply foreign_bind; [apply foreign_np_max | intros mx].
  destruct (Qeq_bool mx mn); apply foreign_Ok.
Qed.

Create HintDb foreign.

#[local] Hint Resolve foreign_Ok foreign_NonFinite foreign_IndexError
  foreign_ZeroDivisionError foreign_OverflowError foreign_py_div foreign_py_steps
  foreign_get_item foreign_set_item
  foreign_py_index foreign_np_min foreign_np_max foreign_np_linspace01
  foreign_np_zip foreign_np_iadd foreign_np_idiv_scalar foreign_np_vstack_mean
  foreign_np_interp foreign_normalize_pattern : foreign.

Ltac foreign_step :=
  match goal with
  | |- foreign (bind _ _) => apply foreign_bind; [| intros ?]
  | |- foreign (mapM _ _) => apply foreign_mapM; intros ?
  | |- foreign (foldM _ _ _) => apply foreign_foldM; intros ? ?
  | |- foreign (if ?b then _ else _) => destruct b
  | |- foreign (let '(_, _) := ?p in _) => destruct p
  | |- foreign (match ?l with [] => _ | _ :: _ => _ end) => destruct l
  | |- foreign _ => solve [auto with foreign]
  end.

Section UnknownMethod.
Variable cubic_spline : list Q -> list Q -> Q -> Q.
Variable fastdtw : list Q -> list Q -> list (nat * nat).

Lemma foreign_interp_pattern p d t : foreign (interp_pattern cubic_spline p d t).
Proof.
  unfold interp_pattern, interp1d_cubic. repeat foreign_step. foreign_msg.
Qed.

Lemma foreign_align_dtw t r : foreign (align_dtw fastdtw t r).
Proof.
  unfold align_dtw. repeat foreign_step.
  unfold dtw_step. repeat foreign_step.
Qed.

#[local] Hint Resolve foreign_interp_pattern foreign_align_dtw : foreign.

Lemma foreign_generate_weighted_average ts n d b t :
  foreign (generate_weighted_average cubic_spline ts n d b t).
Proof.
  unfold generate_weighted_average. repeat foreign_step.
  unfold weighted_entry. repeat foreign_step.
Qed.

Lemma foreign_generate_interpolation ts n d b t :
  foreign (generate_interpolation cubic_spline ts n d b t).
Proof.
  unfold generate_interpolation.
  destruct (np_argsort _) as [|i0 [|i1 r]]; repeat foreign_step.
Qed.

Lemma foreign_generate_scaling ts n d b t i :
  foreign (generate_scaling cubic_spline ts n d b t i).
Proof. unfold generate_scaling. repeat foreign_step. Qed.

Lemma foreign_generate_dtw ts n d b t i :
  foreign (generate_dtw cubic_spline fastdtw ts n d b t i).
Proof. unfold generate_dtw. repeat foreign_step. Qed.

(** C6.  [generate_single_activation_pattern] raises the error for an
    unknown method exactly when the method is none of the four recognised
    identifiers; with a recognised identifier that error is never the
    outcome. *)
Theorem unknown_method_iff (templates : list template) (nominal duration_min : Q)
        (method : string) (baseline timestep_native output_timestep : Q)
        (ref_index : Z) :
  generate_single_activation_pattern cubic_spline fastdtw templates nominal
    duration_min method baseline timestep_native output_timestep ref_index
  = Raise (ValueError ("Unknown method " ++ method))
  <-> ~ In method ["weighted"; "interpolate"; "scaling"; "dtw"]%string.
Proof.
  unfold generate_single_activation_pattern. split.
  - intros H Hin.
    assert (F : foreign (
      do pattern_native <-
       (if (method =? "weighted")%string
        then generate_weighted_average cubic_spline templates nominal duration_min baseline timestep_native
        else if (method =? "interpolate")%string
        then generate_interpolation cubic_spline templates nominal duration_min baseline timestep_native
        else if (method =? "scaling")%string
        then generate_scaling cubic_spline templates nominal duration_min baseline timestep_native 0
        else if (method =? "dtw")%string
        then generate_dtw cubic_spline fastdtw templates nominal duration_min baseline timestep_native ref_index
        else Raise (ValueError ("Unknown method " ++ method)));
      do num_output_steps <- py_steps duration_min output_timestep;
      np_interp (np_arange_times num_output_steps output_timestep)
                (np_arange_times (Z.of_nat (length pattern_native)) timestep_native)
                pattern_native)).
    { simpl in Hin.
      apply foreign_bind.
      - destruct Hin as [<-|[<-|[<-|[<-|[]]]]]; simpl.
        + apply foreign_generate_weighted_average.
        + apply foreign_generate_interpolation.
        + apply foreign_generate_scaling.
        + apply foreign_generate_dtw.
      - intros p. repeat foreign_step. }
    exact (F method H).
  - intros Hnot.
    destruct (String.eqb_spec method "weighted"); [exfalso; apply Hnot; simpl; auto|].
    destruct (String.eqb_spec method "interpolate"); [exfalso; apply Hnot; simpl; auto|].
    destruct (String.eqb_spec method "scaling"); [exfalso; apply Hnot; simpl; auto|].
    destruct (String.eqb_spec method "dtw"); [exfalso; apply Hnot; simpl; auto 6|].
    reflexivity.
Qed.

End UnknownMethod.

(** ** Direct scaling and the reference index *)

(** C4 (the code departs from the claim).  With two templates and
    [ref_index = 1] the [scaling] method returns the curve of template 0;
    [generate_scaling] at index 1 would return the curve of template 1.
    The [dtw] method does read [ref_index]. *)
Lemma scaling_replays_first_template :
  forall cubic_spline fastdtw,
    reduced (generate_single_activation_pattern cubic_spline fastdtw
               [triangle; valley] 2000 1 "scaling" 0 12 12 1)
    = Some [0; 1000; 2000; 1000; 0]
    /\ reduced (generate_scaling cubic_spline [triangle; valley] 2000 1 0 12 1)
       = Some [2000; 1000; 0; 1000; 2000]
    /\ reduced (generate_single_activation_pattern cubic_spline fastdtw
                  [triangle; valley] 2000 1 "dtw" 0 12 12 5)
       = None.
Proof. intros. repeat split; vm_compute; reflexivity. Qed.


(** ** Non-negative curves *)

Lemma np_clip0_nonneg (arr : list Q) : Forall (fun v => 0 <= v) (np_clip0 arr).
Proof.
  unfold np_clip0. apply Forall_forall. intros v Hv.
  apply in_map_iff in Hv as (u & <- & _).
  destruct (Qlt_le_dec u 0); [apply Qle_refl | assumption].
Qed.

Lemma leading_le_bound xp x : (leading_le xp x <= length xp)%nat.
Proof. induction xp as [|v r IH]; simpl; [lia|]. destruct (Qle_bool v x); lia. Qed.

Lemma leading_le_below xp x i :
  (i < leading_le xp x)%nat -> nth i xp 0 <= x.
Proof.
  revert i; induction xp as [|v r IH]; intros i H; simpl in *; [lia|].
  destruct (Qle_bool v x) eqn:E; [|lia].
  destruct i as [|i]; [now apply Qle_bool_iff | apply IH; lia].
Qed.

Lemma leading_le_above xp x :
  (leading_le xp x < length xp)%nat -> x < nth (leading_le xp x) xp 0.
Proof.
  induction xp as [|v r IH]; intros H; simpl in *; [lia|].
  destruct (Qle_bool v x) eqn:E.
  - apply IH; lia.
  - apply Qnot_le_lt. intros Hle. apply Qle_bool_iff in Hle. congruence.
Qed.

Lemma leading_le_pos xp x :
  xp <> [] -> hd 0 xp <= x -> (1 <= leading_le xp x)%nat.
Proof.
  destruct xp as [|v r]; [congruence|]. intros _ H; simpl in *.
  apply Qle_bool_iff in H. rewrite H. lia.
Qed.

Lemma Forall_nth_nonneg (fp : list Q) (k : nat) :
  Forall (fun v => 0 <= v) fp -> 0 <= nth k fp 0.
Proof.
  intros H. destruct (Nat.lt_ge_cases k (length fp)) as [Hk|Hk].
  - rewrite Forall_forall in H. apply H. now apply nth_In.
  - rewrite nth_overflow by lia. apply Qle_refl.
Qed.

Lemma last_In {A : Type} (l : list A) (d : A) : l <> [] -> In (last l d) l.
Proof.
  induction l as [|a l IH]; [congruence|]. intros _.
  destruct l as [|b l]; [now left|]. right. apply IH. discriminate.
Qed.

Lemma Forall_last_nonneg (fp : list Q) :
  Forall (fun v => 0 <= v) fp -> 0 <= last fp 0.
Proof.
  intros H. destruct fp as [|a fp]; [apply Qle_refl|].
  rewrite Forall_forall in H. apply H. apply last_In. discriminate.
Qed.

Lemma chord_nonneg (x0 x1 f0 f1 x : Q) :
  x0 <= x -> x < x1 -> 0 <= f0 -> 0 <= f1 ->
  0 <= (f1 - f0) / (x1 - x0) * (x - x0) + f0.
Proof.
  intros H0 H1 Hf0 Hf1.
  assert (Hd : 0 < x1 - x0) by lra.
  setoid_replace ((f1 - f0) / (x1 - x0) * (x - x0) + f0)
    with ((f1 * (x - x0) + f0 * (x1 - x)) / (x1 - x0)).
  - apply Qle_shift_div_l; [exact Hd|]. nra.
  - field. lra.
Qed.

Lemma interp_at_nonneg (xp fp : list Q) (x : Q) :
  xp <> [] -> length fp = length xp ->
  Forall (fun v => 0 <= v) fp -> 0 <= interp_at xp fp x.
Proof.
  intros Hne Hlen Hfp. unfold interp_at.
  destruct (Qlt_le_dec (last xp 0) x) as [_|Hlast]; [now apply Forall_last_nonneg|].
  destruct (Qlt_le_dec x (hd 0 xp)) as [_|Hhd].
  { destruct fp; simpl; [apply Qle_refl | now inversion Hfp]. }
  set (n := leading_le xp x).
  assert (Hn1 : (1 <= n)%nat) by now apply leading_le_pos.
  assert (Hn2 : (n <= length xp)%nat) by apply leading_le_bound.
  destruct (n - 1 =? length xp - 1)%nat eqn:E; [now apply Forall_nth_nonneg|].
  apply Nat.eqb_neq in E.
  destruct (Qeq_bool (nth (n - 1) xp 0) x); [now apply Forall_nth_nonneg|].
  apply chord_nonneg.
  - apply leading_le_below. fold n. lia.
  - replace (S (n - 1)) with n by lia. apply leading_le_above. fold n. lia.
  - now apply Forall_nth_nonneg.
  - now apply Forall_nth_nonneg.
Qed.

Lemma np_interp_nonneg (x xp fp out : list Q) :
  Forall (fun v => 0 <= v) fp ->
  np_interp x xp fp = Ok out -> Forall (fun v => 0 <= v) out.
Proof.
  intros Hfp. unfold np_interp. destruct xp as [|a xp]; [discriminate|].
  destruct (length fp =? length (a :: xp))%nat eqn:E; [|discriminate].
  apply Nat.eqb_eq in E. intros [= <-].
  apply Forall_forall. intros v Hv. apply in_map_iff in Hv as (u & <- & _).
  apply interp_at_nonneg; [discriminate | exact E | exact Hfp].
Qed.

Section Clamped.
Variable cubic_spline : list Q -> list Q -> Q -> Q.
Variable fastdtw : list Q -> list Q -> list (nat * nat).

Lemma generate_weighted_average_nonneg ts n d b t out :
  generate_weighted_average cubic_spline ts n d b t = Ok out ->
  Forall (fun v => 0 <= v) out.
Proof.
  unfold generate_weighted_average. intros H.
  repeat (apply bind_Ok_inv in H as (? & _ & H)).
  injection H as <-. apply np_clip0_nonneg.
Qed.

Lemma generate_dtw_nonneg ts n d b t i out :
  generate_dtw cubic_spline fastdtw ts n d b t i = Ok out ->
  Forall (fun v => 0 <= v) out.
Proof.
  unfold generate_dtw. intros H.
  repeat (apply bind_Ok_inv in H as (? & _ & H)).
  injection H as <-. apply np_clip0_nonneg.
Qed.

(** The two methods that clamp, [weighted] and [dtw], keep what the claim
    on non-negative curves asks for: with a positive native time step (for
    which [np_interp] is the interpolation numpy computes), every sample
    of the returned curve is non-negative. *)
Theorem clamped_methods_nonneg (templates : list template) (nominal duration_min : Q)
        (method : string) (baseline timestep_native output_timestep : Q)
        (ref_index : Z) (curve : list Q) :
  method = "weighted"%string \/ method = "dtw"%string ->
  0 < timestep_native ->
  generate_single_activation_pattern cubic_spline fastdtw templates nominal
    duration_min method baseline timestep_native output_timestep ref_index
  = Ok curve ->
  Forall (fun v => 0 <= v) curve.
Proof.
  intros Hm _ H. unfold generate_single_activation_pattern in H.
  apply bind_Ok_inv in H as (pattern_native & Hp & H).
  apply bind_Ok_inv in H as (q & _ & H).
  apply (np_interp_nonneg _ _ _ _ ) in H; [exact H|].
  destruct Hm as [-> | ->]; simpl in Hp.
  - now apply generate_weighted_average_nonneg in Hp.
  - now apply generate_dtw_nonneg in Hp.
Qed.

End Clamped.

Lemma clamped_methods_nonneg_witness :
  match generate_single_activation_pattern chord_interpolant diagonal_path
          [triangle; valley] 2000 1 "dtw" (-100) 12 12 0 with
  | Ok curve => Forall (fun v => 0 <= v) curve
  | _ => False
  end.
Proof.
  destruct (generate_single_activation_pattern chord_interpolant diagonal_path
              [triangle; valley] 2000 1 "dtw" (-100) 12 12 0) as [curve| | |] eqn:E.
  - apply (clamped_methods_nonneg chord_interpolant diagonal_path
             [triangle; valley] 2000 1 "dtw" (-100) 12 12 0 curve);
      [now right | reflexivity | exact E].
  - vm_compute in E. discriminate.
  - vm_compute in E. discriminate.
  - vm_compute in E. discriminate.
Defined.

(** C3 (the code departs from the claim).  The [scaling] method does not
    clamp as [weighted] and [dtw] do: with a baseline of -100 the returned
    curve starts and ends at -100. *)
Lemma scaling_negative_sample :
  -100 < 0
  /\ forall cubic_spline fastdtw,
       reduced (generate_single_activation_pattern cubic_spline fastdtw
                  [triangle] 2000 1 "scaling" (-100) 12 12 0)
       = Some [-100; 950; 2000; 950; -100].
Proof. split; [reflexivity | intros; vm_compute; reflexivity]. Qed.

(** ** Overlaying an activation *)

Lemma overlay_from (a : nat) (pattern : list Q) : forall (s : nat) (ts : timeseries),
  exists ts',
    foldM (fun ts ip =>
             let '(i, power_val) := ip in
             if (a + i <? length ts)%nat
             then
               do cell <- get_item ts (a + i)%nat;
               set_item ts (a + i)%nat (fst cell, py_max (snd cell) power_val)
             else Ok ts)
          (combine (seq s (length pattern)) pattern) ts = Ok ts'
    /\ length ts' = length ts
    /\ forall k,
         nth k ts' (0%Z, 0)
         = if ((a + s <=? k)%nat && (k <? a + s + length pattern)%nat
               && (k <? length ts)%nat)%bool
           then (fst (nth k ts (0%Z, 0)),
                 py_max (snd (nth k ts (0%Z, 0))) (nth (k - a - s) pattern 0))
           else nth k ts (0%Z, 0).
Proof.
  induction pattern as [|v pattern IH]; intros s ts; simpl.
  - exists ts. repeat split. intros k.
    destruct (a + s <=? k)%nat eqn:E1, (k <? a + s + 0)%nat eqn:E2; simpl; auto.
    apply Nat.leb_le in E1. apply Nat.ltb_lt in E2. lia.
  - destruct (a + s <? length ts)%nat eqn:E.
    + apply Nat.ltb_lt in E.
      rewrite (get_item_nth ts (a + s) (0%Z, 0)) by exact E. cbn [bind].
      rewrite set_item_Ok by exact E. cbn [bind].
      set (ts1 := replace_nth ts (a + s) _).
      destruct (IH (S s) ts1) as (ts' & Hf & Hl & Hn).
      exists ts'. split; [exact Hf|].
      assert (Hl1 : length ts1 = length ts) by apply replace_nth_length.
      split; [congruence|]. intros k. rewrite Hn, Hl1.
      unfold ts1. rewrite !nth_replace_nth by exact E.
      destruct (k =? a + s)%nat eqn:Ek.
      * apply Nat.eqb_eq in Ek. subst k.
        replace (a + S s <=? a + s)%nat with false by (symmetry; apply Nat.leb_gt; lia).
        rewrite Nat.leb_refl.
        replace (a + s <? a + s + S (length pattern))%nat with true
          by (symmetry; apply Nat.ltb_lt; lia).
        replace (a + s <? length ts)%nat with true by (symmetry; apply Nat.ltb_lt; lia).
        simpl. replace (a + s - a - s)%nat with O by lia. reflexivity.
      * apply Nat.eqb_neq in Ek.
        destruct (k <? length ts)%nat eqn:E3; [|now rewrite !andb_false_r].
        rewrite !andb_true_r.
        destruct (a + S s <=? k)%nat eqn:E1.
        -- apply Nat.leb_le in E1.
           replace (a + s <=? k)%nat with true by (symmetry; apply Nat.leb_le; lia).
           replace (k <? a + s + S (length pattern))%nat
             with (k <? a + S s + length pattern)%nat
             by (f_equal; lia).
           destruct (k <? a + S s + length pattern)%nat; simpl; [|reflexivity].
           replace (k - a - s)%nat with (S (k - a - S s)) by lia. reflexivity.
        -- apply Nat.leb_gt in E1.
           replace (a + s <=? k)%nat with false by (symmetry; apply Nat.leb_gt; lia).
           reflexivity.
    + apply Nat.ltb_ge in E.
      destruct (IH (S s) ts) as (ts' & Hf & Hl & Hn).
      exists ts'. split; [exact Hf|]. split; [exact Hl|]. intros k. rewrite Hn.
      destruct (k <? length ts)%nat eqn:E3; [|now rewrite !andb_false_r].
      apply Nat.ltb_lt in E3.
      replace (a + S s <=? k)%nat with false by (symmetry; apply Nat.leb_gt; lia).
      replace (a + s <=? k)%nat with false by (symmetry; apply Nat.leb_gt; lia).
      reflexivity.
Qed.

Lemma overlay_spec (ts : timeseries) (a : nat) (pattern : list Q) :
  exists ts',
    overlay ts a pattern = Ok ts'
    /\ length ts' = length ts
    /\ forall k, nth k ts' (0%Z, 0) = merged_cell ts a pattern k.
Proof.
  destruct (overlay_from a pattern 0 ts) as (ts' & Hf & Hl & Hn).
  exists ts'. split; [exact Hf|]. split; [exact Hl|].
  intros k. rewrite Hn. unfold merged_cell.
  rewrite !Nat.add_0_r, Nat.sub_0_r. reflexivity.
Qed.

Example overlay_past_the_end :
  overlay [(0%Z, 0); (60%Z, 0); (120%Z, 3)] 1 [5; 2; 7]
  = Ok [(0%Z, 0); (60%Z, 5); (120%Z, 3)].
Proof. reflexivity. Qed.

(** ** Drawing start offsets *)

Lemma remove_nth_length {A : Type} (j : nat) (l : list A) :
  (j < length l)%nat -> length (remove_nth j l) = (length l - 1)%nat.
Proof.
  revert j; induction l as [|x l IH]; intros [|j] H; simpl in *; try lia.
  rewrite IH by lia. lia.
Qed.

Lemma remove_nth_In {A : Type} (j : nat) (l : list A) (x : A) :
  In x (remove_nth j l) -> In x l.
Proof.
  revert j; induction l as [|y l IH]; intros [|j] H; simpl in *; auto.
  destruct H as [H|H]; [now left | right; eauto].
Qed.

Lemma remove_nth_NoDup {A : Type} (j : nat) (l : list A) :
  NoDup l -> NoDup (remove_nth j l).
Proof.
  revert j; induction l as [|y l IH]; intros [|j] H; simpl; auto.
  - now inversion H.
  - inversion H; subst. constructor; [|now apply IH].
    intros Hin. apply remove_nth_In in Hin. contradiction.
Qed.

Lemma remove_nth_not_In {A : Type} (j : nat) (l : list A) (d : A) :
  NoDup l -> (j < length l)%nat -> ~ In (nth j l d) (remove_nth j l).
Proof.
  revert j; induction l as [|y l IH]; intros [|j] Hnd Hj; simpl in *; try lia.
  - now inversion Hnd.
  - inversion Hnd; subst. intros [H|H].
    + apply H1. rewrite H. apply nth_In. lia.
    + revert H. apply IH; [assumption | lia].
Qed.

Section Draws.
Variable entropy : nat -> nat.

Lemma sample_pool_spec (k : nat) : forall (pool : list nat) (c : nat),
  (k <= length pool)%nat -> NoDup pool ->
  let starts := fst (sample_pool entropy k pool c) in
  length starts = k /\ NoDup starts /\ forall s, In s starts -> In s pool.
Proof.
  induction k as [|k IH]; intros pool c Hk Hnd; simpl.
  - repeat split; [constructor | contradiction].
  - set (j := (entropy c mod length pool)%nat).
    assert (Hj : (j < length pool)%nat) by (apply Nat.mod_upper_bound; lia).
    specialize (IH (remove_nth j pool) (S c)).
    destruct (sample_pool entropy k (remove_nth j pool) (S c)) as [rest c'].
    simpl in *.
    destruct IH as (Hl & Hn & Hin).
    { rewrite remove_nth_length by exact Hj. lia. }
    { now apply remove_nth_NoDup. }
    repeat split.
    + now rewrite Hl.
    + constructor; [|exact Hn]. intros H. apply Hin in H.
      revert H. now apply remove_nth_not_In.
    + intros s [<-|Hs]; [now apply nth_In | eapply remove_nth_In; eauto].
Qed.

Lemma activation_starts_spec (day_len T : nat) (apd : Z) (c : nat) :
  exists starts c',
    activation_starts entropy day_len T apd c = Ok (starts, c')
    /\ length starts = Z.to_nat (Z.min apd (Z.of_nat day_len - Z.of_nat T))
    /\ NoDup starts
    /\ forall s, In s starts -> (Z.of_nat s < Z.of_nat day_len - Z.of_nat T)%Z.
Proof.
  unfold activation_starts.
  set (max_start_idx := (Z.of_nat day_len - Z.of_nat T)%Z).
  destruct (0 <? max_start_idx)%Z eqn:E.
  - apply Z.ltb_lt in E.
    destruct (0 <? Z.min apd max_start_idx)%Z eqn:E2.
    + apply Z.ltb_lt in E2. unfold random_sample.
      replace ((0 <=? Z.min apd max_start_idx)%Z
               && (Z.min apd max_start_idx <=? Z.of_nat (Z.to_nat max_start_idx))%Z)%bool
        with true by (symmetry; apply andb_true_iff; split; apply Z.leb_le; lia).
      destruct (sample_pool_spec (Z.to_nat (Z.min apd max_start_idx))
                  (seq 0 (Z.to_nat max_start_idx)) c) as (Hl & Hn & Hin).
      { rewrite length_seq. lia. }
      { apply seq_NoDup. }
      destruct (sample_pool entropy _ _ c) as [starts c'] eqn:Es. simpl in *.
      exists starts, c'. repeat split; auto.
      intros s Hs. apply Hin, in_seq in Hs. lia.
    + apply Z.ltb_ge in E2. exists [], c.
      split; [reflexivity|]. split; [simpl; lia|]. split; [constructor|].
      intros s [].
  - apply Z.ltb_ge in E. exists [], c.
    split; [reflexivity|]. split; [simpl; lia|]. split; [constructor|].
    intros s [].
Qed.

End Draws.

(** ** Uniform random daily placement *)

Lemma foldM_total {A B : Type} (P : A -> Prop) (f : A -> B -> result A) (l : list B) :
  (forall a b, P a -> exists a', f a b = Ok a' /\ P a') ->
  forall a, P a -> exists r, foldM f l a = Ok r /\ P r.
Proof.
  intros Hf. induction l as [|x l IH]; intros a Ha; simpl.
  - now exists a.
  - destruct (Hf a x Ha) as (a' & -> & Ha'). cbn [bind]. now apply IH.
Qed.

Lemma foldM_preserves {A B : Type} (P : A -> Prop) (f : A -> B -> result A) (l : list B) :
  (forall a b a', P a -> f a b = Ok a' -> P a') ->
  forall a r, P a -> foldM f l a = Ok r -> P r.
Proof.
  intros Hf. induction l as [|x l IH]; intros a r Ha H; simpl in H.
  - now injection H as <-.
  - apply bind_Ok_inv in H as (a' & Hfa & H). eapply IH; [|exact H]. eauto.
Qed.

Lemma bind_Ok_eq {A B : Type} (r : result A) (a : A) (k : A -> result B) :
  r = Ok a -> bind r k = k a.
Proof. now intros ->. Qed.

Lemma series_inv_refl T grid : series_inv T grid grid [].
Proof. repeat split. Qed.

Lemma merged_cell_fst ts a pattern k :
  fst (merged_cell ts a pattern k) = fst (nth k ts (0%Z, 0)).
Proof. unfold merged_cell. now destruct (_ && _)%bool. Qed.

Lemma merged_cell_outside ts a pattern k :
  ~ covers a (length pattern) k -> merged_cell ts a pattern k = nth k ts (0%Z, 0).
Proof.
  intros H. unfold merged_cell, covers in *.
  destruct (a <=? k)%nat eqn:E1; [|reflexivity].
  destruct (k <? a + length pattern)%nat eqn:E2; [|reflexivity].
  apply Nat.leb_le in E1. apply Nat.ltb_lt in E2. lia.
Qed.

Lemma series_inv_overlay grid ts placed a pattern ts' :
  series_inv (length pattern) grid ts placed ->
  overlay ts a pattern = Ok ts' ->
  series_inv (length pattern) grid ts' (placed ++ [a]).
Proof.
  intros (Hl & Hf & Hu) Ho.
  destruct (overlay_spec ts a pattern) as (ts'' & Ho' & Hl' & Hn).
  rewrite Ho in Ho'. injection Ho' as <-.
  split; [congruence|]. split.
  - rewrite <- Hf. apply (nth_ext _ _ 0%Z 0%Z); [now rewrite !length_map|].
    intros k _. change 0%Z with (fst (0%Z, 0)).
    rewrite !map_nth, Hn. apply merged_cell_fst.
  - intros k Hk. rewrite Hn, merged_cell_outside.
    + apply Hu. intros b Hb. apply Hk, in_or_app. now left.
    + apply Hk, in_or_app. right. now left.
Qed.

Lemma grid_loop_zero fuel current end_date step k :
  snd (nth k (grid_loop fuel current end_date step) (0%Z, 0)) = 0.
Proof.
  revert current k; induction fuel as [|fuel IH]; intros current k; simpl.
  - now destruct k.
  - destruct (current <=? end_date)%Z; [|now destruct k].
    destruct k; [reflexivity | apply IH].
Qed.

Lemma make_grid_cases start_date end_date step :
  (exists grid, make_grid start_date end_date step = Ok grid
                /\ forall k, snd (nth k grid (0%Z, 0)) = 0)
  \/ (make_grid start_date end_date step = Diverges
      /\ (start_date <= end_date)%Z /\ (step <= 0)%Z).
Proof.
  unfold make_grid.
  destruct (start_date <=? end_date)%Z eqn:E1; simpl.
  - destruct (step <=? 0)%Z eqn:E2.
    + right. split; [reflexivity|]. split; [now apply Z.leb_le | now apply Z.leb_le].
    + left. eexists; split; [reflexivity|]. intros; apply grid_loop_zero.
  - left. eexists; split; [reflexivity|]. intros; apply grid_loop_zero.
Qed.

Section UniformDaily.
Variable entropy : nat -> nat.

Lemma place_starts_spec (pattern : list Q) (di : list nat) (first : nat) :
  get_item di 0 = Ok first ->
  forall (starts : list nat) (ts : timeseries) (placed : list nat),
  exists ts',
    foldM (fun tp start_offset =>
             let '(ts, placed) := tp in
             do first <- get_item di 0;
             let absolute_idx := (first + start_offset)%nat in
             do ts' <- overlay ts absolute_idx pattern;
             Ok (ts', placed ++ [absolute_idx]))
          starts (ts, placed)
    = Ok (ts', placed ++ map (fun s => (first + s)%nat) starts)
    /\ forall grid, series_inv (length pattern) grid ts placed ->
                    series_inv (length pattern) grid ts'
                               (placed ++ map (fun s => (first + s)%nat) starts).
Proof.
  intros Hfirst. induction starts as [|s starts IH]; intros ts placed; cbn [foldM map].
  - exists ts. rewrite app_nil_r. auto.
  - rewrite (bind_Ok_eq _ _ _ Hfirst).
    destruct (overlay_spec ts (first + s) pattern) as (ts1 & Ho & _).
    rewrite Ho. cbn [bind].
    destruct (IH ts1 (placed ++ [(first + s)%nat])) as (ts' & Hf & Hinv).
    exists ts'. rewrite <- app_assoc in Hf, Hinv. simpl in Hf, Hinv.
    split; [exact Hf|]. intros grid Hg. apply Hinv.
    eapply series_inv_overlay; eauto.
Qed.

Lemma place_day_spec (pattern : list Q) (apd : Z) (ts : timeseries) (c : nat)
      (placed : list nat) (day : Z) :
  exists starts c' ts',
    activation_starts entropy (length (day_indices ts day)) (length pattern) apd c
    = Ok (starts, c')
    /\ place_day entropy pattern apd (ts, c, placed) day
       = Ok (ts', c',
             placed ++ map (fun s => (hd O (day_indices ts day) + s)%nat) starts)
    /\ forall grid, series_inv (length pattern) grid ts placed ->
                    series_inv (length pattern) grid ts'
                      (placed ++ map (fun s => (hd O (day_indices ts day) + s)%nat) starts).
Proof.
  unfold place_day. cbv zeta.
  destruct (length (day_indices ts day) =? 0)%nat eqn:E.
  - apply Nat.eqb_eq in E. rewrite E.
    exists [], c, ts. simpl. rewrite app_nil_r.
    split; [|split; auto].
    unfold activation_starts.
    replace (0 <? Z.of_nat 0 - Z.of_nat (length pattern))%Z with false
      by (symmetry; apply Z.ltb_ge; lia).
    reflexivity.
  - apply Nat.eqb_neq in E.
    destruct (activation_starts_spec entropy (length (day_indices ts day))
                (length pattern) apd c) as (starts & c' & Ha & _).
    rewrite Ha. cbn [bind].
    destruct (day_indices ts day) as [|first di] eqn:Ed; [simpl in E; lia|].
    destruct (place_starts_spec pattern (first :: di) first eq_refl starts ts placed)
      as (ts' & Hf & Hinv).
    exists starts, c', ts'. split; [reflexivity|].
    cbv zeta in Hf. rewrite Hf. cbn [bind fst snd hd]. split; [reflexivity | exact Hinv].
Qed.

Lemma place_uniform_daily_spec (pattern : list Q) (start_date end_date : datetime)
      (apd : Z) (step : Z) (c : nat) :
  match place_uniform_daily entropy pattern start_date end_date apd step c with
  | Ok (ts, _, placed) =>
      exists grid,
        make_grid start_date end_date step = Ok grid
        /\ length ts = length grid
        /\ map fst ts = map fst grid
        /\ forall k, untouched (length pattern) placed k ->
                     snd (nth k ts (0%Z, 0)) = 0
  | Raise _ => False
  | NonFinite => False
  | Diverges => (start_date <= end_date)%Z /\ (step <= 0)%Z
  end.
Proof.
  unfold place_uniform_daily.
  destruct (make_grid_cases start_date end_date step) as [(grid & Hg & Hz)|(Hg & H)].
  - rewrite Hg. cbn [bind].
    destruct (foldM_total
                (fun st : timeseries * nat * list nat =>
                   series_inv (length pattern) grid (fst (fst st)) (snd st))
                (place_day entropy pattern apd)
                (py_range (date start_date) (date end_date + 1)))
      with (a := (grid, c, @nil nat)) as (r & -> & Hr).
    + intros [[ts c0] placed] day Hinv. simpl in Hinv.
      destruct (place_day_spec pattern apd ts c0 placed day)
        as (starts & c' & ts' & _ & Hp & Hs).
      eexists; split; [exact Hp|]. simpl. now apply Hs.
    + apply series_inv_refl.
    + destruct r as [[ts c'] placed]. simpl in Hr.
      destruct Hr as (Hl & Hf & Hu).
      exists grid. repeat split; auto.
      intros k Hk. rewrite (Hu k Hk). apply Hz.
  - rewrite Hg. exact H.
Qed.

End UniformDaily.

(** ** Probabilistic weekly placement *)

Lemma overlaps_false (T : nat) (sel : list nat) (a : nat) :
  overlaps T sel a = false ->
  forall e, In e sel -> (Z.of_nat T <= Z.abs (Z.of_nat a - Z.of_nat e))%Z.
Proof.
  unfold overlaps. intros H e He.
  destruct (Z.abs (Z.of_nat a - Z.of_nat e) <? Z.of_nat T)%Z eqn:E.
  - assert (existsb (fun x => (Z.abs (Z.of_nat a - Z.of_nat x) <? Z.of_nat T)%Z) sel = true)
      by (apply existsb_exists; eauto).
    congruence.
  - now apply Z.ltb_ge in E.
Qed.

Lemma set_add_In (x y : nat) (s : list nat) :
  In y (set_add x s) <-> y = x \/ In y s.
Proof.
  unfold set_add. destruct (existsb (Nat.eqb x) s) eqn:E.
  - apply existsb_exists in E as (z & Hz & Ez). apply Nat.eqb_eq in Ez. subst z.
    split; [now right | intros [->|H]; assumption].
  - rewrite in_app_iff. simpl. intuition.
Qed.

Lemma set_add_NoDup (x : nat) (s : list nat) : NoDup s -> NoDup (set_add x s).
Proof.
  intros H. unfold set_add. destruct (existsb (Nat.eqb x) s) eqn:E; [exact H|].
  apply NoDup_app; [exact H | repeat constructor; intros [] |].
  intros y Hy [<-|[]].
  assert (existsb (Nat.eqb x) s = true)
    by (apply existsb_exists; exists x; split; [exact Hy | apply Nat.eqb_refl]).
  congruence.
Qed.

Lemma set_add_length (x : nat) (s : list nat) :
  (length (set_add x s) <= S (length s))%nat.
Proof.
  unfold set_add. destruct (existsb (Nat.eqb x) s); [lia|].
  rewrite length_app. simpl. lia.
Qed.

(** One accept-or-reject step of either selection loop. *)
Lemma accept_step (T : nat) (target : Z) (sel : list nat) (a : nat) :
  spaced T sel -> within_quota target sel ->
  (Z.of_nat (length sel) < target)%Z ->
  let sel' := if overlaps T sel a then sel else set_add a sel in
  spaced T sel' /\ within_quota target sel'.
Proof.
  intros [Hnd Hsp] Hq Hlt. simpl.
  destruct (overlaps T sel a) eqn:E; [now split|].
  pose proof (overlaps_false T sel a E) as Hfar.
  split; [split|].
  - now apply set_add_NoDup.
  - intros x y Hx Hy Hxy.
    apply set_add_In in Hx. apply set_add_In in Hy.
    destruct Hx as [->|Hx], Hy as [->|Hy].
    + congruence.
    + now apply Hfar.
    + rewrite <- Z.abs_opp. replace (- (Z.of_nat x - Z.of_nat a))%Z
        with (Z.of_nat a - Z.of_nat x)%Z by lia. now apply Hfar.
    + now apply Hsp.
  - unfold within_quota in *. pose proof (set_add_length a sel). lia.
Qed.

Lemma fallback_fill_inv (T : nat) (target : Z) (indices : list nat)
      (sorted : list nat) : forall sel out,
  spaced T sel -> within_quota target sel ->
  fallback_fill sorted target indices T sel = Ok out ->
  spaced T out /\ within_quota target out.
Proof.
  induction sorted as [|s sorted IH]; intros sel out Hs Hq H; simpl in H.
  - injection H as <-. now split.
  - destruct (target <=? Z.of_nat (length sel))%Z eqn:E.
    + injection H as <-. now split.
    + apply Z.leb_gt in E.
      apply bind_Ok_inv in H as (a & _ & H).
      destruct (accept_step T target sel a Hs Hq E) as [Hs' Hq'].
      eapply IH; eauto.
Qed.

Section Weekly.
Variable entropy : nat -> nat.

Lemma rejection_loop_inv (T : nat) (target : Z) (probs : list Q) (indices : list nat)
      (remaining : nat) : forall sel c out c',
  spaced T sel -> within_quota target sel ->
  rejection_loop entropy remaining target probs indices T sel c = Ok (out, c') ->
  spaced T out /\ within_quota target out.
Proof.
  induction remaining as [|remaining IH]; intros sel c out c' Hs Hq H; simpl in H.
  - injection H as <- <-. now split.
  - destruct (Z.of_nat (length sel) <? target)%Z eqn:E.
    + apply Z.ltb_lt in E.
      apply bind_Ok_inv in H as ([i c1] & _ & H).
      apply bind_Ok_inv in H as (a & _ & H).
      destruct (accept_step T target sel a Hs Hq E) as [Hs' Hq'].
      eapply IH; eauto.
    + injection H as <- <-. now split.
Qed.

Lemma select_week_inv (T : nat) (target : Z) (probs : list Q) (indices : list nat)
      (c : nat) (out : list nat) (c' : nat) :
  select_week entropy target probs indices T c = Ok (out, c') ->
  spaced T out /\ within_quota target out.
Proof.
  unfold select_week. intros H.
  apply bind_Ok_inv in H as ([sel c1] & Hr & H).
  apply rejection_loop_inv in Hr as [Hs Hq].
  - destruct (Z.of_nat (length sel) <? target)%Z.
    + apply bind_Ok_inv in H as (sel' & Hf & H). injection H as <- <-.
      eapply fallback_fill_inv; eauto.
    + injection H as <- <-. now split.
  - split; [constructor | intros a b []].
  - unfold within_quota. simpl. lia.
Qed.

Lemma overlay_all_inv (pattern : list Q) (grid : timeseries) (sel : list nat) :
  forall ts placed ts',
    series_inv (length pattern) grid ts placed ->
    foldM (fun ts absolute_idx => overlay ts absolute_idx pattern) sel ts = Ok ts' ->
    series_inv (length pattern) grid ts' (placed ++ sel).
Proof.
  induction sel as [|a sel IH]; intros ts placed ts' Hinv H; simpl in H.
  - injection H as <-. now rewrite app_nil_r.
  - apply bind_Ok_inv in H as (ts1 & Ho & H).
    replace (placed ++ a :: sel) with ((placed ++ [a]) ++ sel)
      by now rewrite <- app_assoc.
    eapply IH; [|exact H]. eapply series_inv_overlay; eauto.
Qed.

Lemma place_week_inv (pattern : list Q) (end_date : datetime)
      (weekday_probs weekend_probs : list Q) (apw : Z) (grid : timeseries)
      (st st' : timeseries * nat * list (Z * list nat))
      (week : Z * list (nat * datetime)) :
  weeks_inv (length pattern) apw end_date grid st ->
  place_week entropy pattern end_date weekday_probs weekend_probs apw st week = Ok st' ->
  weeks_inv (length pattern) apw end_date grid st'.
Proof.
  destruct st as [[ts c] accepted], week as [wk items].
  intros [Hser Hacc] H. unfold place_week in H. cbv zeta in H.
  apply bind_Ok_inv in H as ([probs indices] & _ & H).
  destruct (length probs =? 0)%nat.
  - injection H as <-. now split.
  - apply bind_Ok_inv in H as ([sel c'] & Hsel & H).
    apply bind_Ok_inv in H as (ts' & Ho & H). injection H as <-.
    apply select_week_inv in Hsel.
    split.
    + rewrite map_app, concat_app. simpl. rewrite app_nil_r.
      eapply overlay_all_inv; eauto.
    + intros wk' sel' Hin. apply in_app_or in Hin as [Hin|[Hin|[]]].
      * now apply Hacc.
      * injection Hin as <- <-. exact Hsel.
Qed.

Lemma place_probabilistic_weekly_inv (pattern : list Q) (start_date end_date : datetime)
      (schedule : schedule_config) (step : Z) (c : nat)
      (st : timeseries * nat * list (Z * list nat)) :
  place_probabilistic_weekly entropy pattern start_date end_date schedule step c = Ok st ->
  exists grid,
    make_grid start_date end_date step = Ok grid
    /\ (forall k, snd (nth k grid (0%Z, 0)) = 0)
    /\ weeks_inv (length pattern)
         (match activations_per_week schedule with Some a => a | None => 7%Z end)
         end_date grid st.
Proof.
  unfold place_probabilistic_weekly. intros H.
  apply bind_Ok_inv in H as (grid & Hg & H).
  apply bind_Ok_inv in H as (wd & _ & H).
  apply bind_Ok_inv in H as (we & _ & H).
  exists grid. split; [exact Hg|]. split.
  - destruct (make_grid_cases start_date end_date step) as [(g & Hg' & Hz)|(Hg' & _)];
      congruence.
  - revert H. apply foldM_preserves.
    + intros a b a'. apply place_week_inv.
    + split; [apply series_inv_refl | intros wk sel []].
Qed.

End Weekly.

(** ** The grid *)

(** The fuel of [make_grid] is enough: with a positive step the loop stops
    because [current] has passed [end_date], and the grid holds the
    timestamps [start_date + k * step] up to [end_date], all with power 0. *)
Lemma grid_loop_enough (step end_date : Z) (fuel : nat) : forall current,
  (0 < step)%Z ->
  (Z.to_nat (end_date - current + 1) <= fuel)%nat ->
  grid_loop fuel current end_date step
  = map (fun k => ((current + Z.of_nat k * step)%Z, 0))
        (seq 0 (Z.to_nat ((end_date - current) / step + 1))).
Proof.
  induction fuel as [|fuel IH]; intros current Hstep Hfuel.
  - assert (end_date < current)%Z by lia.
    assert ((end_date - current) / step < 0)%Z by (apply Z.div_lt_upper_bound; lia).
    replace (Z.to_nat ((end_date - current) / step + 1)) with O by lia.
    reflexivity.
  - cbn [grid_loop]. destruct (current <=? end_date)%Z eqn:E.
    + apply Z.leb_le in E.
      rewrite IH by lia.
      replace ((end_date - current) / step)%Z
        with ((end_date - (current + step)) / step + 1)%Z.
      2:{ replace (end_date - current)%Z with (end_date - (current + step) + 1 * step)%Z by lia.
          rewrite Z.div_add by lia. reflexivity. }
      assert (-1 <= (end_date - (current + step)) / step)%Z.
      { apply Z.div_le_lower_bound; lia. }
      replace (Z.to_nat ((end_date - (current + step)) / step + 1 + 1))
        with (S (Z.to_nat ((end_date - (current + step)) / step + 1))) by lia.
      cbn [seq map]. f_equal.
      * f_equal. lia.
      * rewrite <- seq_shift, map_map. apply map_ext. intros k. f_equal. lia.
    + apply Z.leb_gt in E.
      assert ((end_date - current) / step < 0)%Z by (apply Z.div_lt_upper_bound; lia).
      replace (Z.to_nat ((end_date - current) / step + 1)) with O by lia.
      reflexivity.
Qed.

Lemma make_grid_positive_step (start_date end_date step : Z) :
  (0 < step)%Z ->
  make_grid start_date end_date step
  = Ok (map (fun k => ((start_date + Z.of_nat k * step)%Z, 0))
            (seq 0 (Z.to_nat ((end_date - start_date) / step + 1)))).
Proof.
  intros H. unfold make_grid.
  replace (step <=? 0)%Z with false by (symmetry; apply Z.leb_gt; lia).
  rewrite andb_false_r. f_equal. apply grid_loop_enough; lia.
Qed.

(** ** Outcomes of the weekly placer *)

Lemma value_error_or_bind {A B : Type} (P : A -> Prop) (Q : B -> Prop)
      (r : result A) (k : A -> result B) :
  value_error_or P r -> (forall a, P a -> value_error_or Q (k a)) ->
  value_error_or Q (bind r k).
Proof. destruct r as [a|[]| |]; simpl; auto; contradiction. Qed.

Lemma value_error_or_foldM {A B : Type} (P : A -> Prop) (f : A -> B -> result A)
      (l : list B) :
  (forall a b, P a -> value_error_or P (f a b)) ->
  forall a, P a -> value_error_or P (foldM f l a).
Proof.
  intros Hf. induction l as [|x l IH]; intros a Ha; simpl; [exact Ha|].
  eapply value_error_or_bind; [apply Hf, Ha | exact IH].
Qed.

Lemma value_error_or_weaken {A : Type} (P Q : A -> Prop) (r : result A) :
  (forall a, P a -> Q a) -> value_error_or P r -> value_error_or Q r.
Proof. destruct r as [a|[]| |]; simpl; auto. Qed.

Lemma value_error_or_and {A : Type} (P Q : A -> Prop) (r : result A) :
  value_error_or P r -> (forall a, r = Ok a -> Q a) ->
  value_error_or (fun a => P a /\ Q a) r.
Proof. destruct r as [a|[]| |]; simpl; auto. Qed.

Lemma py_int_of_string_outcome s : value_error_or (fun _ => True) (py_int_of_string s).
Proof. unfold py_int_of_string. now destruct (match _ with [] => _ | _ => _ end). Qed.

Lemma parse_hour_range_outcome s : value_error_or (fun _ => True) (parse_hour_range s).
Proof.
  unfold parse_hour_range.
  destruct (split_on "-" s) as [|a [|b [|c l]]]; simpl; auto.
  eapply value_error_or_bind; [apply py_int_of_string_outcome|]. intros x _.
  eapply value_error_or_bind; [apply py_int_of_string_outcome|]. intros y _.
  exact I.
Qed.

Lemma calculate_timestep_probabilities_outcome (hp : list (string * Q)) :
  value_error_or (fun l => length l = 24%nat) (calculate_timestep_probabilities hp).
Proof.
  unfold calculate_timestep_probabilities.
  apply value_error_or_foldM; [|reflexivity].
  intros probs [hour_range prob] Hl.
  eapply value_error_or_bind; [apply parse_hour_range_outcome|].
  intros [start_hour end_hour] _.
  apply value_error_or_foldM; [|exact Hl].
  clear probs Hl. intros probs h Hl.
  destruct ((0 <=? h)%Z && (h <? 24)%Z)%bool eqn:E; [|exact Hl].
  apply andb_true_iff in E as [E1 E2].
  apply Z.leb_le in E1. apply Z.ltb_lt in E2.
  rewrite (get_item_nth probs _ 0) by lia. cbn [bind].
  rewrite set_item_Ok by lia. simpl. now rewrite replace_nth_length.
Qed.

Lemma hour_in_day (t : datetime) : (Z.to_nat (hour t) < 24)%nat.
Proof.
  unfold hour, seconds_per_day.
  pose proof (Z.mod_pos_bound t 86400 ltac:(lia)).
  assert (0 <= (t mod 86400) / 3600 < 24)%Z.
  { split; [apply Z.div_pos; lia | apply Z.div_lt_upper_bound; lia]. }
  lia.
Qed.

Lemma week_candidates_total (wd we : list Q) (T n : nat) (items : list (nat * datetime)) :
  length wd = 24%nat -> length we = 24%nat ->
  exists probs indices,
    week_candidates wd we T n items = Ok (probs, indices)
    /\ length probs = length indices.
Proof.
  intros Hwd Hwe. unfold week_candidates.
  destruct (foldM_total (fun acc : list Q * list nat => length (fst acc) = length (snd acc))
              (fun acc it =>
                 let '(timestep_probs, timestep_indices) := acc in
                 let '(idx, t) := it in
                 let is_weekend_day := is_weekend (date t) in
                 do prob <- (if is_weekend_day
                             then get_item we (Z.to_nat (hour t))
                             else get_item wd (Z.to_nat (hour t)));
                 if (idx + T <=? n)%nat
                 then Ok (timestep_probs ++ [prob], timestep_indices ++ [idx])
                 else Ok acc) items) with (a := (@nil Q, @nil nat))
    as ([probs indices] & Hf & Hl).
  - intros [p i] [idx t] Hl. simpl in Hl. cbv zeta.
    pose proof (hour_in_day t).
    assert (Hg : exists prob,
               (if is_weekend (date t) then get_item we (Z.to_nat (hour t))
                else get_item wd (Z.to_nat (hour t))) = Ok prob).
    { destruct (is_weekend (date t)); eexists; apply (get_item_nth _ _ 0); lia. }
    destruct Hg as (prob & ->). cbn [bind].
    destruct (idx + T <=? n)%nat; eexists; split; try reflexivity; simpl; auto.
    rewrite !length_app. simpl. lia.
  - reflexivity.
  - exists probs, indices. split; [exact Hf | exact Hl].
Qed.

Lemma normalize_probs_length (p : list Q) : length (normalize_probs p) = length p.
Proof.
  unfold normalize_probs. destruct (Qlt_le_dec 0 _);
    [apply length_map | apply repeat_length].
Qed.

Lemma desc_insert_In probs i l x :
  In x (desc_insert probs i l) <-> x = i \/ In x l.
Proof.
  induction l as [|j l IH]; simpl; [intuition|].
  destruct (Qlt_le_dec _ _); simpl; [intuition|]. rewrite IH. intuition.
Qed.

Lemma sorted_desc_In probs n x : In x (sorted_desc probs n) -> (x < n)%nat.
Proof.
  unfold sorted_desc.
  assert (G : forall l acc,
             (forall y, In y l -> (y < n)%nat) -> (forall y, In y acc -> (y < n)%nat) ->
             In x (fold_left (fun sorted i => desc_insert probs i sorted) l acc) ->
             (x < n)%nat).
  { induction l as [|i l IH]; intros acc Hl Hacc; simpl; [apply Hacc|].
    apply IH.
    - intros y Hy. apply Hl. now right.
    - intros y Hy. apply desc_insert_In in Hy as [->|Hy]; [apply Hl; now left | now apply Hacc]. }
  apply G.
  - intros y Hy. apply in_seq in Hy. lia.
  - intros y [].
Qed.

Lemma fallback_fill_total (T : nat) (target : Z) (indices : list nat) (sorted : list nat) :
  (forall x, In x sorted -> (x < length indices)%nat) ->
  forall sel, exists out, fallback_fill sorted target indices T sel = Ok out.
Proof.
  induction sorted as [|s sorted IH]; intros Hs sel; simpl.
  - eauto.
  - destruct (target <=? Z.of_nat (length sel))%Z; [eauto|].
    rewrite (get_item_nth indices s O) by (apply Hs; now left). cbn [bind].
    apply IH. intros x Hx. apply Hs. now right.
Qed.

Section Outcomes.
Variable entropy : nat -> nat.

Lemma np_random_choice_outcome (n : nat) (p : list Q) (c : nat) :
  value_error_or (fun ic => (fst ic < n)%nat) (np_random_choice entropy n p c).
Proof.
  unfold np_random_choice.
  destruct (negb (length p =? n)%nat); [exact I|].
  destruct (existsb _ p); [exact I|].
  set (support := filter _ (seq 0 n)).
  assert (Hs : forall x, In x support -> (x < n)%nat).
  { intros x Hx. apply filter_In in Hx as [Hx _]. apply in_seq in Hx. lia. }
  destruct support as [|s0 rest]; [exact I|]. simpl fst.
  apply Hs. apply nth_In. apply Nat.mod_upper_bound. discriminate.
Qed.

Lemma rejection_loop_outcome (T : nat) (target : Z) (probs : list Q) (indices : list nat)
      (remaining : nat) : forall sel c,
  value_error_or (fun _ => True)
    (rejection_loop entropy remaining target probs indices T sel c).
Proof.
  induction remaining as [|remaining IH]; intros sel c; simpl; [exact I|].
  destruct (Z.of_nat (length sel) <? target)%Z; [|exact I].
  eapply value_error_or_bind; [apply np_random_choice_outcome|].
  intros [i c'] Hi. simpl in Hi.
  rewrite (get_item_nth indices i O) by exact Hi. cbn [bind]. apply IH.
Qed.

Lemma select_week_outcome (T : nat) (target : Z) (probs : list Q) (indices : list nat)
      (c : nat) :
  value_error_or (fun _ => True) (select_week entropy target probs indices T c).
Proof.
  unfold select_week.
  eapply value_error_or_bind; [apply rejection_loop_outcome|].
  intros [sel c'] _.
  destruct (Z.of_nat (length sel) <? target)%Z; [|exact I].
  destruct (fallback_fill_total T target indices
              (sorted_desc probs (length indices))
              (fun x => sorted_desc_In probs (length indices) x) sel) as (out & ->).
  exact I.
Qed.

Lemma overlay_all_total (pattern : list Q) (sel : list nat) :
  forall ts, exists ts',
    foldM (fun ts absolute_idx => overlay ts absolute_idx pattern) sel ts = Ok ts'.
Proof.
  induction sel as [|a sel IH]; intros ts; simpl; [eauto|].
  destruct (overlay_spec ts a pattern) as (ts1 & -> & _). cbn [bind]. apply IH.
Qed.

Lemma place_week_outcome (pattern : list Q) (end_date : datetime)
      (wd we : list Q) (apw : Z) (st : timeseries * nat * list (Z * list nat))
      (week : Z * list (nat * datetime)) :
  length wd = 24%nat -> length we = 24%nat ->
  value_error_or (fun _ => True) (place_week entropy pattern end_date wd we apw st week).
Proof.
  intros Hwd Hwe. destruct st as [[ts c] accepted], week as [wk items].
  unfold place_week. cbv zeta.
  destruct (week_candidates_total wd we (length pattern) (length ts) items Hwd Hwe)
    as (probs & indices & -> & Hl).
  cbn [bind]. destruct (length probs =? 0)%nat; [exact I|].
  eapply value_error_or_bind; [apply select_week_outcome|].
  intros [sel c'] _.
  destruct (overlay_all_total pattern sel ts) as (ts' & ->). exact I.
Qed.

Lemma place_probabilistic_weekly_outcome (pattern : list Q)
      (start_date end_date : datetime) (schedule : schedule_config) (step : Z) (c : nat) :
  match place_probabilistic_weekly entropy pattern start_date end_date schedule step c with
  | Ok _ => True
  | Raise (ValueError _) => True
  | Raise _ => False
  | NonFinite => False
  | Diverges => (start_date <= end_date)%Z /\ (step <= 0)%Z
  end.
Proof.
  unfold place_probabilistic_weekly.
  destruct (make_grid_cases start_date end_date step) as [(grid & -> & _)|(-> & H)];
    [|exact H].
  cbn [bind].
  assert (V : value_error_or (fun _ => True)
                (do weekday_probs <- calculate_timestep_probabilities
                                       (weekday_hour_probabilities schedule);
                 do weekend_probs <- calculate_timestep_probabilities
                                       (weekend_hour_probabilities schedule);
                 foldM (place_week entropy pattern end_date weekday_probs weekend_probs
                          match activations_per_week schedule with
                          | Some a => a
                          | None => 7%Z
                          end)
                       (group_weeks grid) (grid, c, []))).
  { eapply value_error_or_bind; [apply calculate_timestep_probabilities_outcome|].
    intros wd Hwd.
    eapply value_error_or_bind; [apply calculate_timestep_probabilities_outcome|].
    intros we Hwe.
    apply value_error_or_foldM; [|exact I].
    intros st week _. now apply place_week_outcome. }
  revert V. unfold value_error_or.
  destruct (bind _ _) as [?|[]| |]; auto; contradiction.
Qed.

End Outcomes.

(** ** The weekly quota and the claims on the placers *)

Lemma target_activations_quot (apw wk : Z) (end_date : datetime) :
  target_activations apw wk end_date
  = Z.quot (apw * days_in_week wk end_date) 7.
Proof.
  unfold target_activations, py_int.
  generalize (days_in_week wk end_date) as d. intros d.
  unfold Qdiv, Qmult, Qinv, inject_Z. simpl.
  now rewrite Z.mul_1_r.
Qed.


Lemma date_lt_midnight (t d : Z) : (date t < d)%Z -> (t < midnight d)%Z.
Proof.
  unfold date, midnight, seconds_per_day. intros H.
  pose proof (Z.mul_div_le t 86400 ltac:(lia)).
  pose proof (Z.mod_pos_bound t 86400 ltac:(lia)).
  pose proof (Z.div_mod t 86400 ltac:(lia)). nia.
Qed.

Section Claims.
Variable entropy : nat -> nat.

(** C2 (amended).  In every run of the probabilistic weekly placer, the
    start positions accepted within one calendar week are distinct and any
    two of them are at least [T] samples apart, [T] being the length of
    the activation. *)
Theorem accepted_positions_spaced (pattern : list Q) (start_date end_date : datetime)
        (schedule : schedule_config) (step : Z) (c : nat)
        (ts : timeseries) (c' : nat) (accepted : list (Z * list nat)) :
  place_probabilistic_weekly entropy pattern start_date end_date schedule step c
  = Ok (ts, c', accepted) ->
  forall wk sel, In (wk, sel) accepted -> spaced (length pattern) sel.
Proof.
  intros H wk sel Hin.
  apply place_probabilistic_weekly_inv in H as (grid & _ & _ & _ & Hacc).
  now destruct (Hacc wk sel Hin).
Qed.

(** C10.  An overlay never raises and keeps the length of the series; it
    merges by maximum the samples of the activation that fall inside the
    series and leaves every other cell as it was.  In the series returned
    by either placer, length and timestamps are those of the grid and every
    sample not covered by an overlaid activation has power 0.  The uniform
    placer never raises; the weekly placer raises nothing but the
    [ValueError] of a malformed schedule; a run fails to return only when
    the grid loop cannot end. *)
Theorem overlay_stays_in_grid :
  (forall (ts : timeseries) (a : nat) (pattern : list Q),
     exists ts',
       overlay ts a pattern = Ok ts'
       /\ length ts' = length ts
       /\ forall k, nth k ts' (0%Z, 0) = merged_cell ts a pattern k)
  /\ (forall (pattern : list Q) (start_date end_date : datetime) (apd step : Z) (c : nat),
        match place_uniform_daily entropy pattern start_date end_date apd step c with
        | Ok (ts, _, placed) =>
            exists grid,
              make_grid start_date end_date step = Ok grid
              /\ length ts = length grid
              /\ map fst ts = map fst grid
              /\ forall k, untouched (length pattern) placed k ->
                           snd (nth k ts (0%Z, 0)) = 0
        | Raise _ => False
        | NonFinite => False
        | Diverges => (start_date <= end_date)%Z /\ (step <= 0)%Z
        end)
  /\ (forall (pattern : list Q) (start_date end_date : datetime)
             (schedule : schedule_config) (step : Z) (c : nat),
        match place_probabilistic_weekly entropy pattern start_date end_date
                schedule step c with
        | Ok (ts, _, accepted) =>
            exists grid,
              make_grid start_date end_date step = Ok grid
              /\ length ts = length grid
              /\ map fst ts = map fst grid
              /\ forall k, untouched (length pattern) (concat (map snd accepted)) k ->
                           snd (nth k ts (0%Z, 0)) = 0
        | Raise (ValueError _) => True
        | Raise _ => False
        | NonFinite => False
        | Diverges => (start_date <= end_date)%Z /\ (step <= 0)%Z
        end).
Proof.
  split; [|split].
  - apply overlay_spec.
  - intros. pose proof (place_uniform_daily_spec entropy pattern start_date end_date
                          apd step c) as H.
    destruct (place_uniform_daily _ _ _ _ _ _ _) as [[[? ?] ?]| | |]; auto.
  - intros.
    pose proof (place_probabilistic_weekly_outcome entropy pattern start_date end_date
                  schedule step c) as O.
    destruct (place_probabilistic_weekly _ _ _ _ _ _ _) as [[[ts c'] accepted]| | |] eqn:E;
      auto.
    apply place_probabilistic_weekly_inv in E as (grid & Hg & Hz & (Hl & Hf & Hu) & _).
    exists grid. repeat split; auto.
    intros k Hk. rewrite (Hu k Hk). apply Hz.
Qed.

End Claims.

Lemma accepted_positions_spaced_witness :
  spaced 2 [18; 20; 42; 44; 66; 68; 90]%nat.
Proof.
  assert (R : exists ts c',
             place_probabilistic_weekly entropy_zero [1; 1] 0%Z (7 * 86400 - 3600)%Z
               scenario 3600%Z 0%nat
             = Ok (ts, c', [(0%Z, [18; 20; 42; 44; 66; 68; 90]%nat)]))
    by (eexists; eexists; vm_compute; reflexivity).
  destruct R as (ts & c' & R).
  exact (accepted_positions_spaced entropy_zero _ _ _ _ _ _ _ _ _ R 0%Z
           [18; 20; 42; 44; 66; 68; 90]%nat (or_introl eq_refl)).
Defined.


(** C2 as stated fails across weeks: with one sample per day and an
    activation of two samples, Sunday of the first week (position 6) and
    Monday of the second (position 7) are both accepted. *)
Lemma cross_week_overlap :
  accepted_log (place_probabilistic_weekly
                  (fun c => match c with O => 6 | _ => 0 end)%nat [1; 1] 0%Z
                  (13 * 86400)%Z
                  {| activations_per_week := Some 1%Z;
                     weekday_hour_probabilities := [];
                     weekend_hour_probabilities := [] |} 86400%Z 0%nat)
  = Some [(0%Z, [6%nat]); (7%Z, [7%nat])]
  /\ (Z.abs (Z.of_nat 6 - Z.of_nat 7) < Z.of_nat (length [1; 1]))%Z.
Proof. split; vm_compute; reflexivity. Qed.

(** ** The quota in binary64 and in the rationals *)

Lemma binary64_quota_table :
  forallb (fun apw =>
             forallb (fun days =>
                        match target_activations_binary64 (Z.of_nat apw) (Z.of_nat days) with
                        | Some t => (t =? Z.quot (Z.of_nat apw * Z.of_nat days) 7)%Z
                        | None => false
                        end)
                     (seq 1 8))
          (seq 0 2001)
  = true.
Proof. vm_compute. reflexivity. Qed.

(** For up to 2000 activations per week and 1 to 8 days, the double
    precision evaluation of line 332 and the rational model agree. *)
Lemma target_activations_binary64_agrees (apw wk : Z) (end_date : datetime) :
  (0 <= apw <= 2000)%Z -> (1 <= days_in_week wk end_date <= 8)%Z ->
  target_activations_binary64 apw (days_in_week wk end_date)
  = Some (target_activations apw wk end_date).
Proof.
  intros Ha Hd. rewrite target_activations_quot.
  generalize dependent (days_in_week wk end_date). intros d Hd.
  pose proof binary64_quota_table as T.
  rewrite forallb_forall in T.
  specialize (T (Z.to_nat apw)). rewrite forallb_forall in T.
  specialize (T ltac:(apply in_seq; lia) (Z.to_nat d) ltac:(apply in_seq; lia)).
  rewrite !Z2Nat.id in T by lia.
  destruct (target_activations_binary64 apw d) as [t|]; [|discriminate].
  apply Z.eqb_eq in T. now subst.
Qed.

(** A week that does not end the window is counted with 8 days (line 328
    adds seven days, line 331 one more). *)
Example days_in_week_inner_week : days_in_week 0 (13 * 86400)%Z = 8%Z.
Proof. reflexivity. Qed.

(** ** Complete runs *)

(** A flat recorded cycle: two samples of equal power. *)
Example flat_activation :
  forall cubic_spline fastdtw,
    reduced (generate_single_activation_pattern cubic_spline fastdtw
               [{| power_sequence := [3; 3]; max_power := 3;
                   total_duration_seconds := 172800 |}]
               2 2880 "scaling" 0 86400 86400 0)
    = Some [1; 1].
Proof. intros. vm_compute. reflexivity. Qed.

(** Two weeks at one sample per day, one activation per week: the series
    the generator returns for the run of [cross_week_overlap]. *)
Example two_weeks_daily_series :
  forall cubic_spline fastdtw,
    match generate_timeseries_with_activations cubic_spline fastdtw
            (fun c => match c with O => 6 | _ => 0 end)%nat
            [{| power_sequence := [3; 3]; max_power := 3;
                total_duration_seconds := 172800 |}]
            2 2880 0%Z (13 * 86400)%Z 1%Z "scaling" 0 86400 86400%Z 0%Z
            (Some {| activations_per_week := Some 1%Z;
                     weekday_hour_probabilities := [];
                     weekend_hour_probabilities := [] |}) with
    | Ok ts => Some (map (fun cell => Qred (snd cell)) ts)
    | _ => None
    end
    = Some [0; 0; 0; 0; 0; 0; 1; 1; 1; 0; 0; 0; 0; 0].
Proof. intros. vm_compute. reflexivity. Qed.

(** Three days at four samples per day, an activation of three samples and
    200 activations per day requested: one start per day fits. *)
Example uniform_daily_run :
  place_uniform_daily entropy_id [1; 1; 1] 0%Z (3 * 86400 - 3600)%Z 200%Z (6 * 3600)%Z 0%nat
  = Ok ([(0%Z, 1); (21600%Z, 1); (43200%Z, 1); (64800%Z, 0);
         (86400%Z, 1); (108000%Z, 1); (129600%Z, 1); (151200%Z, 0);
         (172800%Z, 1); (194400%Z, 1); (216000%Z, 1); (237600%Z, 0)],
        3%nat, [0; 4; 8]%nat).
Proof. vm_compute. reflexivity. Qed.

(** A malformed hour range stops the weekly placer. *)
Example malformed_hour_range :
  place_probabilistic_weekly entropy_zero [1] 0%Z 86400%Z
    {| activations_per_week := None;
       weekday_hour_probabilities := [("6"%string, 1)];
       weekend_hour_probabilities := [] |} 3600%Z 0%nat
  = Raise (ValueError "Invalid hour range format: 6. Expected format: '6-9'").
Proof. vm_compute. reflexivity. Qed.

(** ** Normalise, then scale *)

Lemma fold_min_In (r : list Q) (x : Q) : In (fold_left Qmin r x) (x :: r).
Proof.
  revert x; induction r as [|y r IH]; intros x; simpl; [now left|].
  destruct (IH (Qmin x y)) as [H|H].
  - rewrite <- H. unfold Qmin, GenericMinMax.gmin.
    destruct (x ?= y); auto.
  - right. now right.
Qed.

Lemma fold_max_In (r : list Q) (x : Q) : In (fold_left Qmax r x) (x :: r).
Proof.
  revert x; induction r as [|y r IH]; intros x; simpl; [now left|].
  destruct (IH (Qmax x y)) as [H|H].
  - rewrite <- H. unfold Qmax, GenericMinMax.gmax.
    destruct (x ?= y); auto.
  - right. now right.
Qed.

(** The two ways [normalize_pattern] returns: a constant sequence, or the
    affine image between the smallest and the largest sample. *)
Lemma normalize_pattern_cases (seq : list Q) :
  seq <> [] ->
  exists mn mx,
    In mn seq /\ In mx seq
    /\ (forall v, In v seq -> mn <= v <= mx)
    /\ ((mx == mn /\ normalize_pattern seq = Ok (map (fun _ => 1 # 2) seq))
        \/ (mn < mx
            /\ normalize_pattern seq = Ok (map (fun v => (v - mn) / (mx - mn)) seq))).
Proof.
  destruct seq as [|x r]; [congruence|]. intros _.
  exists (fold_left Qmin r x), (fold_left Qmax r x).
  set (mn := fold_left Qmin r x). set (mx := fold_left Qmax r x).
  assert (Hb : forall v, In v (x :: r) -> mn <= v <= mx).
  { intros v [<-|Hv]; split.
    - apply fold_min_le_init.
    - apply fold_max_ge_init.
    - now apply fold_min_le_in.
    - now apply fold_max_ge_in. }
  split; [apply fold_min_In|]. split; [apply fold_max_In|]. split; [exact Hb|].
  unfold normalize_pattern. cbn [np_min np_max bind]. fold mn mx.
  destruct (Qeq_bool mx mn) eqn:E.
  - left. split; [now apply Qeq_bool_eq | reflexivity].
  - right. split; [|reflexivity].
    apply Qeq_bool_neq in E. destruct (Hb x (or_introl eq_refl)).
    assert (mn <= mx) by (eapply Qle_trans; eauto).
    apply Qle_lteq in H1 as [H1|H1]; [exact H1 | symmetry in H1; contradiction].
Qed.

(** X1.  Normalising a non-empty sequence and scaling it with
    [baseline <= nominal] gives values between [baseline] and [nominal];
    a sequence that is not constant reaches both bounds, a constant one
    sits at their midpoint. *)
Theorem scale_normalize_range (seq : list Q) (nominal baseline : Q) :
  seq <> [] -> baseline <= nominal ->
  exists norm,
    normalize_pattern seq = Ok norm
    /\ (forall v, In v (scale_pattern norm nominal baseline) ->
                  baseline <= v <= nominal)
    /\ ((exists a b, In a seq /\ In b seq /\ ~ a == b) ->
        (exists v, In v (scale_pattern norm nominal baseline) /\ v == baseline)
        /\ (exists v, In v (scale_pattern norm nominal baseline) /\ v == nominal))
    /\ ((forall a b, In a seq -> In b seq -> a == b) ->
        forall v, In v (scale_pattern norm nominal baseline) ->
                  v == (nominal + baseline) / 2).
Proof.
  intros Hne Hbn.
  destruct (normalize_pattern_cases seq Hne)
    as (mn & mx & Hmn & Hmx & Hb & [[Heq ->]|[Hlt ->]]).
  - eexists; split; [reflexivity|]. unfold scale_pattern. rewrite map_map.
    split; [|split].
    + intros v Hv. apply in_map_iff in Hv as (_ & <- & _). split; lra.
    + intros (a & b & Ha & Hb' & Hab). exfalso. apply Hab.
      destruct (Hb a Ha), (Hb b Hb'). lra.
    + intros _ v Hv. apply in_map_iff in Hv as (_ & <- & _). field.
  - eexists; split; [reflexivity|]. unfold scale_pattern. rewrite map_map.
    assert (Hu : forall u, In u seq -> 0 <= (u - mn) / (mx - mn) <= 1).
    { intros u Hu. destruct (Hb u Hu). split.
      - apply Qle_shift_div_l; lra.
      - apply Qle_shift_div_r; lra. }
    split; [|split].
    + intros v Hv. apply in_map_iff in Hv as (u & <- & Hu').
      destruct (Hu u Hu'). split; nra.
    + intros _. split.
      * exists ((mn - mn) / (mx - mn) * (nominal - baseline) + baseline). split.
        -- apply in_map_iff. now exists mn.
        -- field. lra.
      * exists ((mx - mn) / (mx - mn) * (nominal - baseline) + baseline). split.
        -- apply in_map_iff. now exists mx.
        -- field. lra.
    + intros Hall. exfalso. specialize (Hall mn mx Hmn Hmx). lra.
Qed.

Lemma scale_normalize_range_witness :
  exists norm,
    normalize_pattern [0; 10; 20; 10; 0] = Ok norm
    /\ (forall v, In v (scale_pattern norm 2000 100) -> 100 <= v <= 2000)
    /\ (exists v, In v (scale_pattern norm 2000 100) /\ v == 100)
    /\ (exists v, In v (scale_pattern norm 2000 100) /\ v == 2000).
Proof.
  destruct (scale_normalize_range [0; 10; 20; 10; 0] 2000 100) as (norm & H1 & H2 & H3 & _);
    [discriminate | lra |].
  exists norm. split; [exact H1|]. split; [exact H2|].
  apply H3. exists 0, 10. repeat split; simpl; auto. intros H; discriminate H.
Defined.

(** ** Lengths of the synthesised curves *)

Lemma mapM_Ok_inv {A B : Type} (f : A -> result B) (l : list A) (ys : list B) :
  mapM f l = Ok ys -> Forall2 (fun x y => f x = Ok y) l ys.
Proof.
  revert ys; induction l as [|x l IH]; intros ys H; simpl in H.
  - injection H as <-. constructor.
  - apply bind_Ok_inv in H as (y & Hy & H).
    apply bind_Ok_inv in H as (ys' & Hys & H). injection H as <-.
    constructor; auto.
Qed.

Lemma py_div_Ok_inv (a b q : Q) : py_div a b = Ok q -> q = a / b /\ ~ b == 0.
Proof.
  unfold py_div. destruct (Qeq_bool b 0) eqn:E; [discriminate|].
  intros [= <-]. split; [reflexivity | now apply Qeq_bool_neq].
Qed.

Lemma np_linspace01_Ok_length (n : Z) (l : list Q) :
  np_linspace01 n = Ok l -> Z.of_nat (length l) = n.
Proof.
  unfold np_linspace01. destruct (n <? 0)%Z eqn:E; [discriminate|].
  apply Z.ltb_ge in E. destruct (n =? 1)%Z eqn:E1.
  - apply Z.eqb_eq in E1. intros [= <-]. simpl. lia.
  - intros [= <-]. rewrite length_map, length_seq. lia.
Qed.

Lemma np_iadd_length (a b out : list Q) :
  np_iadd a b = Ok out -> length out = length a.
Proof.
  unfold np_iadd. destruct (length a =? length b)%nat eqn:E.
  - apply Nat.eqb_eq in E. intros [= <-].
    rewrite length_map, length_combine. lia.
  - destruct b as [|y [|y' b]]; try discriminate. intros [= <-]. apply length_map.
Qed.

Lemma np_zip_same_length (f : Q -> Q -> Q) (a b out : list Q) :
  length a = length b -> np_zip f a b = Ok out -> length out = length a.
Proof.
  intros H. unfold np_zip. rewrite H, Nat.eqb_refl. intros [= <-].
  rewrite length_map, length_combine. lia.
Qed.

Lemma np_clip0_length (arr : list Q) : length (np_clip0 arr) = length arr.
Proof. apply length_map. Qed.

Lemma scale_pattern_length (norm : list Q) (n b : Q) :
  length (scale_pattern norm n b) = length norm.
Proof. apply length_map. Qed.

Lemma dtw_step_lengths (template : list Q) (st st' : list Q * list Q) (p : nat * nat) :
  dtw_step template st p = Ok st' ->
  length (fst st') = length (fst st) /\ length (snd st') = length (snd st).
Proof.
  destruct st as [aligned counts], p as [i_t i_r]. unfold dtw_step. intros H.
  apply bind_Ok_inv in H as (a & _ & H).
  apply bind_Ok_inv in H as (t & _ & H).
  apply bind_Ok_inv in H as (aligned' & Ha & H).
  apply bind_Ok_inv in H as (c & _ & H).
  apply bind_Ok_inv in H as (counts' & Hc & H). injection H as <-.
  unfold set_item in Ha, Hc.
  destruct (i_r <? length aligned)%nat; [|discriminate].
  destruct (i_r <? length counts)%nat; [|discriminate].
  injection Ha as <-. injection Hc as <-. simpl.
  now rewrite !replace_nth_length.
Qed.

Lemma np_vstack_mean_length (rows : list (list Q)) (out : list Q) :
  np_vstack_mean rows = Ok out ->
  exists r0 rest, rows = r0 :: rest /\ length out = length r0.
Proof.
  unfold np_vstack_mean. destruct rows as [|r0 rest]; [discriminate|].
  destruct (forallb _ _); [|discriminate]. intros [= <-].
  exists r0, rest. split; [reflexivity|]. now rewrite length_map, length_seq.
Qed.

Section Lengths.
Variable cubic_spline : list Q -> list Q -> Q -> Q.
Variable fastdtw : list Q -> list Q -> list (nat * nat).

Lemma interp_pattern_Ok_length (pattern : list Q) (d t : Q) (out : list Q) :
  interp_pattern cubic_spline pattern d t = Ok out ->
  py_steps d t = Ok (Z.of_nat (length out)).
Proof.
  unfold interp_pattern. intros H.
  apply bind_Ok_inv in H as (steps & Hq & H). rewrite Hq. f_equal.
  destruct (steps =? Z.of_nat (length pattern))%Z eqn:E.
  - apply Z.eqb_eq in E. injection H as <-. exact E.
  - apply bind_Ok_inv in H as (x0 & _ & H).
    apply bind_Ok_inv in H as (xt & Hxt & H).
    apply np_linspace01_Ok_length in Hxt.
    unfold interp1d_cubic in H. destruct (length x0 <? 4)%nat; [discriminate|].
    injection H as <-. rewrite length_map. now symmetry.
Qed.

Lemma py_steps_same_length (d t : Q) (a b : nat) :
  py_steps d t = Ok (Z.of_nat a) -> py_steps d t = Ok (Z.of_nat b) -> a = b.
Proof. intros Ha Hb. rewrite Ha in Hb. injection Hb as Hb. lia. Qed.

Lemma align_dtw_Ok_length (template ref out : list Q) :
  align_dtw fastdtw template ref = Ok out -> length out = length ref.
Proof.
  unfold align_dtw. intros H.
  apply bind_Ok_inv in H as ([aligned counts] & Hf & H). injection H as <-.
  assert (L : length aligned = length ref /\ length counts = length ref).
  { revert Hf.
    apply (foldM_preserves
             (fun st : list Q * list Q =>
                length (fst st) = length ref /\ length (snd st) = length ref)).
    - intros st p st' [H1 H2] Hs. apply dtw_step_lengths in Hs as [-> ->]. now split.
    - simpl. now rewrite !repeat_length. }
  destruct L as [La Lc].
  rewrite length_map, length_combine, length_map. lia.
Qed.

Lemma weighted_entry_length (n d b t : Q) (tpl : template) (w : Q) (proc : list Q) :
  weighted_entry cubic_spline n d b t tpl = Ok (w, proc) ->
  py_steps d t = Ok (Z.of_nat (length proc)).
Proof.
  unfold weighted_entry. intros H.
  do 5 (apply bind_Ok_inv in H as (? & _ & H)).
  apply bind_Ok_inv in H as (p & Hp & H). injection H as _ <-.
  now apply interp_pattern_Ok_length in Hp.
Qed.

Lemma generate_weighted_average_length (ts : list template) (n d b t : Q) (out : list Q) :
  generate_weighted_average cubic_spline ts n d b t = Ok out ->
  py_steps d t = Ok (Z.of_nat (length out)).
Proof.
  unfold generate_weighted_average. intros H.
  apply bind_Ok_inv in H as (entries & He & H).
  apply bind_Ok_inv in H as (w_arr & _ & H).
  apply bind_Ok_inv in H as (p0 & Hp0 & H).
  apply bind_Ok_inv in H as (avg & Hf & H). injection H as <-.
  rewrite np_clip0_length.
  assert (L0 : py_steps d t = Ok (Z.of_nat (length p0))).
  { apply mapM_Ok_inv in He.
    destruct He as [|tpl [w proc] ts' entries' Hw _]; [discriminate|].
    simpl in Hp0. injection Hp0 as <-. eapply weighted_entry_length; eauto. }
  assert (La : length avg = length p0).
  { revert Hf.
    apply (foldM_preserves (fun a : list Q => length a = length p0)).
    - intros a [proc w] a' Ha Hs.
      apply bind_Ok_inv in Hs as (proc' & _ & Hs).
      apply np_iadd_length in Hs. congruence.
    - apply length_map. }
  now rewrite La.
Qed.

Lemma generate_scaling_length (ts : list template) (n d b t : Q) (i : Z) (out : list Q) :
  generate_scaling cubic_spline ts n d b t i = Ok out ->
  py_steps d t = Ok (Z.of_nat (length out)).
Proof.
  unfold generate_scaling. intros H.
  apply bind_Ok_inv in H as (tpl & _ & H).
  apply bind_Ok_inv in H as (seq & _ & H).
  now apply interp_pattern_Ok_length in H.
Qed.

Lemma generate_interpolation_length (ts : list template) (n d b t : Q) (out : list Q) :
  generate_interpolation cubic_spline ts n d b t = Ok out ->
  py_steps d t = Ok (Z.of_nat (length out)).
Proof.
  unfold generate_interpolation. intros H.
  assert (Two : forall idx,
            (do i0 <- get_item idx 0%nat;
             do t1 <- get_item ts i0;
             do i1 <- get_item idx 1%nat;
             do t2 <- get_item ts i1;
             do seq1 <- normalize_pattern (power_sequence t1);
             do seq2 <- normalize_pattern (power_sequence t2);
             do s1 <- interp_pattern cubic_spline (scale_pattern seq1 n b) d t;
             do s2 <- interp_pattern cubic_spline (scale_pattern seq2 n b) d t;
             let p1 := max_power t1 in
             let p2 := max_power t2 in
             let alpha := if Qeq_bool p1 p2 then 1 # 2 else (n - p1) / (p2 - p1) in
             let alpha := if Qlt_le_dec alpha 0 then 0
                          else if Qlt_le_dec 1 alpha then 1 else alpha in
             np_zip Qplus (map (fun v => (1 - alpha) * v) s1)
                          (map (fun v => alpha * v) s2)) = Ok out ->
            py_steps d t = Ok (Z.of_nat (length out))).
  { intros idx G.
    do 6 (apply bind_Ok_inv in G as (? & _ & G)).
    apply bind_Ok_inv in G as (s1 & Hs1 & G).
    apply bind_Ok_inv in G as (s2 & Hs2 & G).
    apply interp_pattern_Ok_length in Hs1. apply interp_pattern_Ok_length in Hs2.
    cbv zeta in G. apply np_zip_same_length in G.
    - rewrite G, length_map. exact Hs1.
    - rewrite !length_map. eapply py_steps_same_length; eauto. }
  destruct (np_argsort _) as [|i0 [|i1 r]].
  - now apply Two in H.
  - apply bind_Ok_inv in H as (tpl & _ & H).
    apply bind_Ok_inv in H as (seq & _ & H).
    now apply interp_pattern_Ok_length in H.
  - now apply Two in H.
Qed.

Lemma generate_dtw_length (ts : list template) (n d b t : Q) (i : Z) (out : list Q) :
  generate_dtw cubic_spline fastdtw ts n d b t i = Ok out ->
  py_steps d t = Ok (Z.of_nat (length out)).
Proof.
  unfold generate_dtw. intros H.
  apply bind_Ok_inv in H as (ref_tpl & _ & H).
  apply bind_Ok_inv in H as (ref_seq & _ & H).
  apply bind_Ok_inv in H as (ref_interp & Hr & H).
  apply bind_Ok_inv in H as (warped & Hw & H).
  apply bind_Ok_inv in H as (mean & Hm & H). injection H as <-.
  rewrite np_clip0_length.
  apply np_vstack_mean_length in Hm as (r0 & rest & -> & ->).
  apply mapM_Ok_inv in Hw. inversion Hw as [|tpl x l l' Hx _]; subst.
  apply bind_Ok_inv in Hx as (seq & _ & Hx).
  apply bind_Ok_inv in Hx as (interp & _ & Hx).
  apply align_dtw_Ok_length in Hx. rewrite Hx.
  now apply interp_pattern_Ok_length in Hr.
Qed.

(** X2.  Whichever of the four methods returns, the native curve has
    [int(duration_min * 60 / timestep_sec)] samples, the count that double
    precision gives. *)
Theorem native_curve_length (templates : list template)
        (nominal duration_min baseline timestep_sec : Q) (index : Z) (out : list Q) :
  generate_weighted_average cubic_spline templates nominal duration_min baseline
    timestep_sec = Ok out
  \/ generate_interpolation cubic_spline templates nominal duration_min baseline
       timestep_sec = Ok out
  \/ generate_scaling cubic_spline templates nominal duration_min baseline
       timestep_sec index = Ok out
  \/ generate_dtw cubic_spline fastdtw templates nominal duration_min baseline
       timestep_sec index = Ok out ->
  py_steps duration_min timestep_sec = Ok (Z.of_nat (length out)).
Proof.
  intros [H|[H|[H|H]]].
  - eapply generate_weighted_average_length; eauto.
  - eapply generate_interpolation_length; eauto.
  - eapply generate_scaling_length; eauto.
  - eapply generate_dtw_length; eauto.
Qed.

End Lengths.

Lemma native_curve_length_witness :
  exists out,
    generate_dtw chord_interpolant diagonal_path [triangle; valley] 2000 1 0 12 1 = Ok out
    /\ py_steps 1 12 = Ok (Z.of_nat (length out)).
Proof.
  destruct (generate_dtw chord_interpolant diagonal_path [triangle; valley] 2000 1 0 12 1)
    as [out| | |] eqn:E; try (vm_compute in E; discriminate).
  exists out. split; [reflexivity|].
  apply (native_curve_length chord_interpolant diagonal_path [triangle; valley]
           2000 1 0 12 1 out).
  now right; right; right.
Defined.

(** A duration of 0 gives the count 0, whatever the time step. *)
Lemma float_trunc_zero_quotient (t : float) (z : Z) :
  float_trunc (0 * 60 / t)%float = Some z -> z = 0%Z.
Proof.
  unfold float_trunc.
  change (0 * 60)%float with 0%float.
  rewrite FloatAxioms.div_spec.
  change (Prim2SF 0) with (S754_zero false).
  destruct (Prim2SF t) as [s|s| |s m e]; simpl; congruence.
Qed.

Lemma py_steps_zero (d t : Q) (z : Z) : d == 0 -> py_steps d t = Ok z -> z = 0%Z.
Proof.
  intros Hd. destruct d as [n den]. unfold Qeq in Hd. simpl in Hd.
  assert (n = 0%Z) by lia. subst n.
  unfold py_steps. cbv zeta. change (float_of_Q (0 # den)) with 0%float.
  destruct (PrimFloat.eqb _ _); [discriminate|].
  destruct (float_trunc (0 * 60 / float_of_Q t)%float) as [n|] eqn:E.
  - intros [= <-]. eapply float_trunc_zero_quotient; eauto.
  - destruct (PrimFloat.is_nan _); discriminate.
Qed.

(** *** Calls that return or raise *)

Lemma settled_bind {A B : Type} (r : result A) (k : A -> result B) :
  settled r -> (forall a, settled (k a)) -> settled (bind r k).
Proof. destruct r; simpl; auto. Qed.

Lemma settled_Ok {A : Type} (a : A) : settled (Ok a).
Proof. exact I. Qed.

Lemma settled_Raise {A : Type} (e : exn) : settled (@Raise A e).
Proof. exact I. Qed.

Lemma settled_mapM {A B : Type} (f : A -> result B) (l : list A) :
  (forall a, settled (f a)) -> settled (mapM f l).
Proof.
  intros Hf. induction l as [|x l IH]; simpl; [exact I|].
  apply settled_bind; [apply Hf|]. intros y.
  apply settled_bind; [apply IH|]. intros ys. exact I.
Qed.

Lemma settled_foldM {A B : Type} (f : A -> B -> result A) (l : list B) (a : A) :
  (forall a b, settled (f a b)) -> settled (foldM f l a).
Proof.
  intros Hf. revert a; induction l as [|x l IH]; intros a; simpl; [exact I|].
  apply settled_bind; [apply Hf | intros; apply IH].
Qed.

Lemma settled_py_div a b : settled (py_div a b).
Proof. unfold py_div. now destruct (Qeq_bool b 0). Qed.

Lemma settled_py_steps d t : settled (py_steps d t).
Proof.
  unfold py_steps. cbv zeta. destruct (PrimFloat.eqb _ _); [exact I|].
  destruct (float_trunc _); [exact I|]. now destruct (PrimFloat.is_nan _).
Qed.

Lemma settled_get_item {A : Type} (l : list A) i : settled (get_item l i).
Proof. unfold get_item. now destruct (nth_error l i). Qed.

Lemma settled_set_item {A : Type} (l : list A) i v : settled (set_item l i v).
Proof. unfold set_item. now destruct (i <? length l)%nat. Qed.

Lemma settled_py_index {A : Type} (l : list A) i : settled (py_index l i).
Proof.
  unfold py_index. destruct (_ && _)%bool; [|exact I]. now destruct (nth_error _ _).
Qed.

Lemma settled_np_linspace01 n : settled (np_linspace01 n).
Proof. unfold np_linspace01. destruct (n <? 0)%Z; [exact I|]. now destruct (n =? 1)%Z. Qed.

Lemma settled_np_zip f a b : settled (np_zip f a b).
Proof.
  unfold np_zip. destruct (_ =? _)%nat; [exact I|].
  destruct a as [|x [|x' a]], b as [|y [|y' b]]; exact I.
Qed.

Lemma settled_np_vstack_mean rows : settled (np_vstack_mean rows).
Proof. unfold np_vstack_mean. destruct rows; [exact I|]. now destruct (forallb _ _). Qed.

Lemma settled_np_interp x xp fp : settled (np_interp x xp fp).
Proof. unfold np_interp. destruct xp; [exact I|]. now destruct (_ =? _)%nat. Qed.

Lemma settled_normalize_pattern seq : settled (normalize_pattern seq).
Proof. destruct seq; [exact I|]. unfold normalize_pattern. simpl. now destruct (Qeq_bool _ _). Qed.

Create HintDb settled.

#[local] Hint Resolve settled_Ok settled_Raise settled_py_div settled_py_steps
  settled_get_item settled_set_item settled_py_index settled_np_linspace01
  settled_np_zip settled_np_vstack_mean settled_np_interp settled_normalize_pattern
  : settled.

Ltac settled_step :=
  match goal with
  | |- settled (bind _ _) => apply settled_bind; [| intros ?]
  | |- settled (mapM _ _) => apply settled_mapM; intros ?
  | |- settled (foldM _ _ _) => apply settled_foldM; intros ? ?
  | |- settled (if ?b then _ else _) => destruct b
  | |- settled (let '(_, _) := ?p in _) => destruct p
  | |- settled (match ?l with [] => _ | _ :: _ => _ end) => destruct l
  | |- settled _ => solve [auto with settled]
  end.

Section Curve.
Variable cubic_spline : list Q -> list Q -> Q -> Q.
Variable fastdtw : list Q -> list Q -> list (nat * nat).

Lemma settled_interp_pattern p d t : settled (interp_pattern cubic_spline p d t).
Proof. unfold interp_pattern, interp1d_cubic. repeat settled_step. Qed.

Lemma settled_align_dtw t r : settled (align_dtw fastdtw t r).
Proof.
  unfold align_dtw. repeat settled_step.
  unfold dtw_step. repeat settled_step.
Qed.

#[local] Hint Resolve settled_interp_pattern settled_align_dtw : settled.

Lemma settled_generate_interpolation ts n d b t :
  settled (generate_interpolation cubic_spline ts n d b t).
Proof.
  unfold generate_interpolation.
  destruct (np_argsort _) as [|i0 [|i1 r]]; repeat settled_step.
Qed.

Lemma settled_generate_scaling ts n d b t i :
  settled (generate_scaling cubic_spline ts n d b t i).
Proof. unfold generate_scaling. repeat settled_step. Qed.

Lemma settled_generate_dtw ts n d b t i :
  settled (generate_dtw cubic_spline fastdtw ts n d b t i).
Proof. unfold generate_dtw. repeat settled_step. Qed.

(** With a duration of 0 the weighted average stops at the first
    template, on the division by the duration; with no template it stops
    at [processed[0]]. *)
Lemma weighted_average_zero_duration (ts : list template) (n d b t : Q) :
  d == 0 -> exists e, generate_weighted_average cubic_spline ts n d b t = Raise e.
Proof.
  intros Hd. unfold generate_weighted_average.
  destruct ts as [|tpl ts]; [exists IndexError; reflexivity|].
  assert (E : exists e, weighted_entry cubic_spline n d b t tpl = Raise e).
  { unfold weighted_entry. cbv zeta.
    destruct (py_div (Qabs (max_power tpl - n)) n) as [rp|e| |] eqn:E1;
      try (unfold py_div in E1; destruct (Qeq_bool n 0); discriminate);
      [|eexists; reflexivity].
    cbn [bind].
    destruct (py_div 1 (1 + rp)) as [pw|e| |] eqn:E2;
      try (unfold py_div in E2; destruct (Qeq_bool (1 + rp) 0); discriminate);
      [|eexists; reflexivity].
    cbn [bind]. unfold py_div at 1.
    replace (Qeq_bool d 0) with true by (symmetry; apply Qeq_bool_iff; exact Hd).
    eexists; reflexivity. }
  destruct E as (e & E). exists e. cbn [mapM]. rewrite E. reflexivity.
Qed.

(** The native curve behind a returned activation. *)
Lemma generate_single_activation_pattern_inv (templates : list template)
      (nominal duration_min : Q) (method : string)
      (baseline timestep_native output_timestep : Q) (ref_index : Z) (curve : list Q) :
  generate_single_activation_pattern cubic_spline fastdtw templates nominal
    duration_min method baseline timestep_native output_timestep ref_index = Ok curve ->
  exists native n_out,
    native <> []
    /\ py_steps duration_min timestep_native = Ok (Z.of_nat (length native))
    /\ py_steps duration_min output_timestep = Ok n_out
    /\ curve = map (interp_at (np_arange_times (Z.of_nat (length native)) timestep_native)
                              native)
                   (np_arange_times n_out output_timestep).
Proof.
  unfold generate_single_activation_pattern. intros H.
  apply bind_Ok_inv in H as (native & Hn & H).
  apply bind_Ok_inv in H as (n_out & Hq & H).
  exists native, n_out.
  assert (L : py_steps duration_min timestep_native = Ok (Z.of_nat (length native))).
  { destruct (String.eqb method "weighted");
      [eapply generate_weighted_average_length; eauto|].
    destruct (String.eqb method "interpolate");
      [eapply generate_interpolation_length; eauto|].
    destruct (String.eqb method "scaling");
      [eapply generate_scaling_length; eauto|].
    destruct (String.eqb method "dtw");
      [eapply generate_dtw_length; eauto | discriminate]. }
  unfold np_interp in H.
  destruct (np_arange_times (Z.of_nat (length native)) timestep_native) as [|x0 xs] eqn:Ex;
    [discriminate|].
  destruct (length native =? length (x0 :: xs))%nat; [|discriminate].
  injection H as <-.
  repeat split; auto.
  intros ->. discriminate Ex.
Qed.

(** X3.  A returned activation has [int(duration_min * 60 /
    output_timestep)] samples (none when that number is negative), and it
    is returned only when the native curve has at least one sample:
    [int(duration_min * 60 / timestep_native)] is positive.  Both counts
    are those of double precision. *)
Theorem activation_curve_length (templates : list template)
        (nominal duration_min : Q) (method : string)
        (baseline timestep_native output_timestep : Q) (ref_index : Z) (curve : list Q) :
  generate_single_activation_pattern cubic_spline fastdtw templates nominal
    duration_min method baseline timestep_native output_timestep ref_index = Ok curve ->
  exists n_native n_out,
    py_steps duration_min timestep_native = Ok n_native
    /\ (0 < n_native)%Z
    /\ py_steps duration_min output_timestep = Ok n_out
    /\ length curve = Z.to_nat n_out.
Proof.
  intros H. apply generate_single_activation_pattern_inv in H
    as (native & n_out & Hne & L & Lo & ->).
  exists (Z.of_nat (length native)), n_out.
  split; [exact L|]. split; [destruct native; [congruence | simpl; lia]|].
  split; [exact Lo|].
  unfold np_arange_times. now rewrite !length_map, length_seq.
Qed.

Lemma zero_duration_no_curve (templates : list template)
      (nominal duration_min : Q) (method : string)
      (baseline timestep_native output_timestep : Q) (ref_index : Z) (curve : list Q) :
  duration_min == 0 ->
  generate_single_activation_pattern cubic_spline fastdtw templates nominal
    duration_min method baseline timestep_native output_timestep ref_index <> Ok curve.
Proof.
  intros Hd H. apply generate_single_activation_pattern_inv in H
    as (native & n_out & Hne & L & _).
  apply (py_steps_zero _ _ _ Hd) in L.
  destruct native; [congruence | discriminate L].
Qed.

(** X4.  With a duration of 0 minutes every call ends in an exception,
    whatever the method, the templates and the time steps. *)
Theorem zero_duration_raises (templates : list template)
        (nominal duration_min : Q) (method : string)
        (baseline timestep_native output_timestep : Q) (ref_index : Z) :
  duration_min == 0 ->
  exists e,
    generate_single_activation_pattern cubic_spline fastdtw templates nominal
      duration_min method baseline timestep_native output_timestep ref_index
    = Raise e.
Proof.
  intros Hd.
  destruct (String.eqb method "weighted") eqn:Ew.
  - unfold generate_single_activation_pattern. rewrite Ew.
    destruct (weighted_average_zero_duration templates nominal duration_min baseline
                timestep_native Hd) as (e & ->).
    exists e. reflexivity.
  - assert (S : settled (generate_single_activation_pattern cubic_spline fastdtw
                           templates nominal duration_min method baseline
                           timestep_native output_timestep ref_index)).
    { unfold generate_single_activation_pattern. rewrite Ew.
      apply settled_bind.
      - destruct (String.eqb method "interpolate");
          [apply settled_generate_interpolation|].
        destruct (String.eqb method "scaling"); [apply settled_generate_scaling|].
        destruct (String.eqb method "dtw"); [apply settled_generate_dtw | exact I].
      - intros native. repeat settled_step. }
    pose proof (zero_duration_no_curve templates nominal duration_min method baseline
                  timestep_native output_timestep ref_index) as N.
    destruct (generate_single_activation_pattern _ _ _ _ _ _ _ _ _ _)
      as [curve|e| |]; try contradiction.
    + exfalso. now apply (N curve Hd).
    + now exists e.
Qed.

(** X5.  With no template at all, each of the four methods ends in an
    [IndexError]. *)
Theorem no_templates_IndexError (nominal duration_min : Q)
        (baseline timestep_native output_timestep : Q) (ref_index : Z) (method : string) :
  In method ["weighted"; "interpolate"; "scaling"; "dtw"]%string ->
  generate_single_activation_pattern cubic_spline fastdtw [] nominal
    duration_min method baseline timestep_native output_timestep ref_index
  = Raise IndexError.
Proof.
  intros [<-|[<-|[<-|[<-|[]]]]]; unfold generate_single_activation_pattern; simpl.
  - reflexivity.
  - reflexivity.
  - reflexivity.
  - unfold generate_dtw, py_index. simpl.
    destruct (ref_index <? 0)%Z eqn:E.
    + destruct (0 <=? ref_index)%Z eqn:E1; [|reflexivity].
      apply Z.ltb_lt in E. apply Z.leb_le in E1. lia.
    + destruct ((0 <=? ref_index)%Z && (ref_index <? 0)%Z)%bool eqn:E1; [|reflexivity].
      apply andb_true_iff in E1 as [_ E1]. congruence.
Qed.

End Curve.

Lemma activation_curve_length_witness :
  (exists curve,
      generate_single_activation_pattern chord_interpolant diagonal_path [triangle]
        2000 1 "scaling" 0 12 20 0 = Ok curve
      /\ length curve = 3%nat)
  /\ exists curve,
      generate_single_activation_pattern chord_interpolant diagonal_path
        [{| power_sequence := repeat 1 29%nat; max_power := 1;
            total_duration_seconds := 261 |}]
        2000 (435 # 100) "scaling" 0 9 9 0 = Ok curve
      /\ length curve = 29%nat.
Proof.
  split.
  - destruct (generate_single_activation_pattern chord_interpolant diagonal_path [triangle]
                2000 1 "scaling" 0 12 20 0) as [curve| | |] eqn:E;
      try (vm_compute in E; discriminate).
    exists curve. split; [reflexivity|].
    destruct (activation_curve_length chord_interpolant diagonal_path _ _ _ _ _ _ _ _ _ E)
      as (n_native & n_out & _ & _ & Ho & ->).
    vm_compute in Ho. now injection Ho as <-.
  - destruct (generate_single_activation_pattern chord_interpolant diagonal_path
                [{| power_sequence := repeat 1 29%nat; max_power := 1;
                    total_duration_seconds := 261 |}]
                2000 (435 # 100) "scaling" 0 9 9 0) as [curve| | |] eqn:E;
      try (vm_compute in E; discriminate).
    exists curve. split; [reflexivity|].
    destruct (activation_curve_length chord_interpolant diagonal_path _ _ _ _ _ _ _ _ _ E)
      as (n_native & n_out & _ & _ & Ho & ->).
    vm_compute in Ho. now injection Ho as <-.
Defined.

Lemma zero_duration_raises_witness :
  exists e,
    generate_single_activation_pattern chord_interpolant diagonal_path [triangle]
      2000 0 "scaling" 0 12 60 0 = Raise e.
Proof.
  apply (zero_duration_raises chord_interpolant diagonal_path [triangle]
           2000 0 "scaling" 0 12 60 0).
  reflexivity.
Defined.

Lemma no_templates_IndexError_witness :
  generate_single_activation_pattern chord_interpolant diagonal_path []
    2000 1 "dtw" 0 12 60 0 = Raise IndexError.
Proof.
  apply (no_templates_IndexError chord_interpolant diagonal_path 2000 1 0 12 60 0 "dtw").
  simpl. auto.
Defined.

(** ** The two nearest templates *)

Lemma argsort_insert_perm keys i l : Permutation (argsort_insert keys i l) (i :: l).
Proof.
  induction l as [|j l IH]; simpl; [reflexivity|].
  destruct (Qlt_le_dec _ _); [reflexivity|].
  rewrite IH. apply perm_swap.
Qed.

Lemma argsort_insert_sorted keys i l :
  StronglySorted (key_le keys) l -> StronglySorted (key_le keys) (argsort_insert keys i l).
Proof.
  induction l as [|j l IH]; intros Hs; simpl.
  - repeat constructor.
  - inversion Hs as [|? ? Hl Hj]; subst.
    destruct (Qlt_le_dec (nth i keys 0) (nth j keys 0)) as [Hlt|Hle].
    + constructor; [exact Hs|]. constructor.
      * unfold key_le. now apply Qlt_le_weak.
      * rewrite Forall_forall in *. intros x Hx. unfold key_le in *.
        specialize (Hj x Hx). apply Qlt_le_weak in Hlt. eapply Qle_trans; eauto.
    + constructor; [now apply IH|].
      rewrite Forall_forall in *. intros x Hx.
      apply (Permutation_in _ (argsort_insert_perm keys i l)) in Hx as [<-|Hx].
      * exact Hle.
      * now apply Hj.
Qed.

Lemma np_argsort_spec (keys : list Q) :
  Permutation (np_argsort keys) (seq 0 (length keys))
  /\ StronglySorted (key_le keys) (np_argsort keys).
Proof.
  unfold np_argsort.
  assert (G : forall l acc,
             StronglySorted (key_le keys) acc ->
             Permutation (fold_left (fun sorted i => argsort_insert keys i sorted) l acc)
                         (acc ++ l)
             /\ StronglySorted (key_le keys)
                  (fold_left (fun sorted i => argsort_insert keys i sorted) l acc)).
  { induction l as [|i l IH]; intros acc Hs; simpl.
    - rewrite app_nil_r. now split.
    - destruct (IH (argsort_insert keys i acc) (argsort_insert_sorted keys i acc Hs))
        as [Hp Hsorted].
      split; [|exact Hsorted].
      rewrite Hp, argsort_insert_perm. apply Permutation_middle. }
  destruct (G (seq 0 (length keys)) [] (SSorted_nil _)) as [Hp Hs]. now split.
Qed.

(** With two keys or more, [np_argsort] starts with a position of the
    smallest key, followed by a position of the smallest key among the
    others. *)
Lemma np_argsort_first_two (keys : list Q) :
  (2 <= length keys)%nat ->
  exists i0 i1 rest,
    np_argsort keys = i0 :: i1 :: rest
    /\ (i0 < length keys)%nat /\ (i1 < length keys)%nat /\ i0 <> i1
    /\ (forall j, (j < length keys)%nat -> nth i0 keys 0 <= nth j keys 0)
    /\ (forall j, (j < length keys)%nat -> j <> i0 -> nth i1 keys 0 <= nth j keys 0).
Proof.
  intros Hn. destruct (np_argsort_spec keys) as [Hp Hs].
  pose proof (Permutation_length Hp) as Hl. rewrite length_seq in Hl.
  destruct (np_argsort keys) as [|i0 [|i1 rest]] eqn:E; simpl in Hl; try lia.
  exists i0, i1, rest. split; [reflexivity|].
  assert (Hin : forall j, In j (i0 :: i1 :: rest) <-> (j < length keys)%nat).
  { intros j. split; intros H.
    - apply (Permutation_in _ Hp) in H. apply in_seq in H. lia.
    - apply (Permutation_in _ (Permutation_sym Hp)). apply in_seq. lia. }
  assert (Hnd : NoDup (i0 :: i1 :: rest)).
  { apply (Permutation_NoDup (Permutation_sym Hp)). apply seq_NoDup. }
  inversion Hs as [|? ? Hs1 Hf0]; subst. inversion Hs1 as [|? ? _ Hf1]; subst.
  rewrite Forall_forall in Hf0, Hf1.
  split; [apply Hin; now left|]. split; [apply Hin; right; now left|].
  split.
  { inversion Hnd as [|? ? Hni _]; subst. intros ->. apply Hni. now left. }
  split.
  - intros j Hj. apply Hin in Hj as [<-|Hj]; [apply Qle_refl | now apply Hf0].
  - intros j Hj Hne. apply Hin in Hj as [Hj|[<-|Hj]];
      [congruence | apply Qle_refl | now apply Hf1].
Qed.

Lemma clip01_range (a : Q) :
  0 <= (if Qlt_le_dec a 0 then 0 else if Qlt_le_dec 1 a then 1 else a) <= 1.
Proof.
  destruct (Qlt_le_dec a 0); [split; lra|]. destruct (Qlt_le_dec 1 a); split; lra.
Qed.

Lemma clip01_zero (a : Q) :
  a == 0 -> (if Qlt_le_dec a 0 then 0 else if Qlt_le_dec 1 a then 1 else a) == 0.
Proof.
  intros H. destruct (Qlt_le_dec a 0); [reflexivity|].
  destruct (Qlt_le_dec 1 a); lra.
Qed.

Section NearestTwo.
Variable cubic_spline : list Q -> list Q -> Q -> Q.

(** X6.  With two templates or more, [generate_interpolation] blends the
    processed curves of the template whose [max_power] is nearest to
    [nominal] and of the nearest among the others, sample by sample, as
    [(1 - alpha) * s1 + alpha * s2] with [alpha] in [[0, 1]]: [1/2] when
    their powers are equal, [0] when the nearest one has exactly the
    nominal power. *)
Theorem generate_interpolation_nearest_two (templates : list template)
        (nominal duration_min baseline timestep_sec : Q) (out : list Q) :
  (2 <= length templates)%nat ->
  generate_interpolation cubic_spline templates nominal duration_min baseline
    timestep_sec = Ok out ->
  exists i0 i1 t1 t2 s1 s2 alpha,
    nth_error templates i0 = Some t1 /\ nth_error templates i1 = Some t2
    /\ i0 <> i1
    /\ (forall t, In t templates ->
          Qabs (max_power t1 - nominal) <= Qabs (max_power t - nominal))
    /\ (forall j t, j <> i0 -> nth_error templates j = Some t ->
          Qabs (max_power t2 - nominal) <= Qabs (max_power t - nominal))
    /\ processed cubic_spline nominal duration_min baseline timestep_sec t1 s1
    /\ processed cubic_spline nominal duration_min baseline timestep_sec t2 s2
    /\ 0 <= alpha <= 1
    /\ (max_power t1 == max_power t2 -> alpha == 1 # 2)
    /\ (~ max_power t1 == max_power t2 -> max_power t1 == nominal -> alpha == 0)
    /\ length out = length s1 /\ length s2 = length s1
    /\ forall k, (k < length out)%nat ->
         nth k out 0 = (1 - alpha) * nth k s1 0 + alpha * nth k s2 0.
Proof.
  intros Hn H. unfold generate_interpolation in H.
  set (diffs := map (fun t => Qabs (max_power t - nominal)) templates) in *.
  assert (Hld : length diffs = length templates) by apply length_map.
  destruct (np_argsort_first_two diffs ltac:(lia))
    as (i0 & i1 & rest & E & H0 & H1 & Hne & Hmin0 & Hmin1).
  rewrite E in H. cbn [get_item nth_error bind] in H.
  apply bind_Ok_inv in H as (t1 & Ht1 & H).
  apply bind_Ok_inv in H as (t2 & Ht2 & H).
  apply bind_Ok_inv in H as (seq1 & Hq1 & H).
  apply bind_Ok_inv in H as (seq2 & Hq2 & H).
  apply bind_Ok_inv in H as (s1 & Hs1 & H).
  apply bind_Ok_inv in H as (s2 & Hs2 & H).
  cbv zeta in H.
  set (alpha0 := if Qeq_bool (max_power t1) (max_power t2) then 1 # 2
                 else (nominal - max_power t1) / (max_power t2 - max_power t1)) in *.
  set (alpha := if Qlt_le_dec alpha0 0 then 0
                else if Qlt_le_dec 1 alpha0 then 1 else alpha0) in *.
  unfold get_item in Ht1, Ht2.
  destruct (nth_error templates i0) as [t1'|] eqn:N0; [|discriminate].
  destruct (nth_error templates i1) as [t2'|] eqn:N1; [|discriminate].
  injection Ht1 as ->. injection Ht2 as ->.
  assert (Hkey : forall j t, nth_error templates j = Some t ->
                             nth j diffs 0 = Qabs (max_power t - nominal)).
  { intros j t Hj. unfold diffs.
    rewrite (nth_map_lt _ _ _ t) by (apply nth_error_Some; congruence).
    now rewrite (nth_error_nth _ _ t Hj). }
  assert (L1 := interp_pattern_Ok_length _ _ _ _ _ Hs1).
  assert (L2 := interp_pattern_Ok_length _ _ _ _ _ Hs2).
  assert (Ls : length s2 = length s1) by (eapply py_steps_same_length; eauto).
  assert (Lo : length out = length s1).
  { apply np_zip_same_length in H; rewrite !length_map in *; lia. }
  exists i0, i1, t1, t2, s1, s2, alpha.
  split; [exact N0|]. split; [exact N1|]. split; [exact Hne|]. split.
  { intros t Ht. apply In_nth_error in Ht as (j & Hj).
    rewrite <- (Hkey i0 t1 N0), <- (Hkey j t Hj). apply Hmin0.
    rewrite Hld. apply nth_error_Some. congruence. }
  split.
  { intros j t Hj Hjt.
    rewrite <- (Hkey i1 t2 N1), <- (Hkey j t Hjt). apply Hmin1; [|exact Hj].
    rewrite Hld. apply nth_error_Some. congruence. }
  split; [now exists seq1|]. split; [now exists seq2|].
  split.
  { unfold alpha. apply clip01_range. }
  split.
  { intros Heq. unfold alpha, alpha0.
    apply Qeq_bool_iff in Heq. rewrite Heq. simpl. reflexivity. }
  split.
  { intros Hneq Hnom. unfold alpha, alpha0.
    destruct (Qeq_bool (max_power t1) (max_power t2)) eqn:Eb;
      [apply Qeq_bool_eq in Eb; contradiction|].
    assert (Hz : (nominal - max_power t1) / (max_power t2 - max_power t1) == 0).
    { rewrite Hnom. field. intros Hc. apply Hneq. lra. }
    now apply clip01_zero. }
  split; [exact Lo|]. split; [exact Ls|].
  intros k Hk. unfold np_zip in H. rewrite !length_map in H.
  replace (length s1 =? length s2)%nat with true in H
    by (symmetry; apply Nat.eqb_eq; lia).
  injection H as <-.
  rewrite (nth_map_combine _ _ _ _ 0 0) by (rewrite length_map; lia).
  cbn [fst snd]. rewrite !(nth_map_lt _ _ _ 0) by lia. reflexivity.
Qed.

(** With a single template the method is direct scaling of that
    template. *)
Lemma generate_interpolation_single (t : template)
        (nominal duration_min baseline timestep_sec : Q) :
  generate_interpolation cubic_spline [t] nominal duration_min baseline timestep_sec
  = generate_scaling cubic_spline [t] nominal duration_min baseline timestep_sec 0.
Proof. reflexivity. Qed.

End NearestTwo.

Lemma generate_interpolation_nearest_two_witness :
  exists out s1 s2 alpha,
    generate_interpolation chord_interpolant [triangle; valley] 2000 1 0 12 = Ok out
    /\ alpha == 1 # 2
    /\ length out = length s1
    /\ forall k, (k < length out)%nat ->
         nth k out 0 = (1 - alpha) * nth k s1 0 + alpha * nth k s2 0.
Proof.
  destruct (generate_interpolation chord_interpolant [triangle; valley] 2000 1 0 12)
    as [out| | |] eqn:E; try (vm_compute in E; discriminate).
  destruct (generate_interpolation_nearest_two chord_interpolant [triangle; valley]
              2000 1 0 12 out (le_n 2) E)
    as (i0 & i1 & t1 & t2 & s1 & s2 & alpha & N0 & N1 & _ & _ & _ & _ & _ & _
        & Heq & _ & Lo & _ & Hk).
  exists out, s1, s2, alpha. split; [reflexivity|]. split; [|split; assumption].
  apply Heq.
  destruct i0 as [|[|i0]], i1 as [|[|i1]]; simpl in N0, N1;
    try (injection N0 as <-); try (injection N1 as <-); try reflexivity;
    try (destruct i0; discriminate); destruct i1; discriminate.
Defined.

(** ** The weighted average is a convex combination *)

Lemma fold_left_Qplus_acc (l : list Q) (a : Q) :
  fold_left Qplus l a == a + fold_left Qplus l 0.
Proof.
  revert a; induction l as [|x l IH]; intros a; simpl; [ring|].
  rewrite (IH (a + x)), (IH (0 + x)). ring.
Qed.

Lemma np_sum_cons (x : Q) (l : list Q) : np_sum (x :: l) == x + np_sum l.
Proof. unfold np_sum. simpl. rewrite fold_left_Qplus_acc. ring. Qed.

Lemma np_sum_pos (l : list Q) :
  l <> [] -> (forall x, In x l -> 0 < x) -> 0 < np_sum l.
Proof.
  induction l as [|x l IH]; intros Hne Hp; [congruence|].
  rewrite np_sum_cons.
  assert (0 < x) by (apply Hp; now left).
  destruct l as [|y l]; [unfold np_sum; simpl; lra|].
  assert (0 < np_sum (y :: l)) by (apply IH; [discriminate | intros; apply Hp; now right]).
  lra.
Qed.

Lemma np_sum_scaled (l : list Q) (d : Q) :
  np_sum (map (fun w => w / d) l) == np_sum l / d.
Proof.
  induction l as [|x l IH]; [unfold np_sum; simpl; unfold Qdiv; ring|].
  cbn [map]. rewrite !np_sum_cons, IH. unfold Qdiv. ring.
Qed.

Lemma unit_weight (x n : Q) : 0 < n -> ~ 1 + Qabs x / n == 0 -> 0 < 1 / (1 + Qabs x / n) <= 1.
Proof.
  intros Hn _.
  assert (0 <= Qabs x / n).
  { apply Qle_shift_div_l; [exact Hn|]. rewrite Qmult_0_l. apply Qabs_nonneg. }
  split.
  - apply Qlt_shift_div_l; lra.
  - apply Qle_shift_div_r; lra.
Qed.

Section WeightedAverage.
Variable cubic_spline : list Q -> list Q -> Q -> Q.

Lemma weighted_entry_weight (nominal duration_min baseline timestep_sec : Q)
      (tpl : template) (w : Q) (proc : list Q) :
  0 < nominal -> 0 < duration_min ->
  weighted_entry cubic_spline nominal duration_min baseline timestep_sec tpl = Ok (w, proc) ->
  0 < w <= 1.
Proof.
  intros Hn Hd H. unfold weighted_entry in H. cbv zeta in H.
  apply bind_Ok_inv in H as (rp & Hrp & H). apply py_div_Ok_inv in Hrp as [Erp _].
  apply bind_Ok_inv in H as (pw & Hpw & H). apply py_div_Ok_inv in Hpw as [Epw Zp].
  apply bind_Ok_inv in H as (rd & Hrd & H). apply py_div_Ok_inv in Hrd as [Erd _].
  apply bind_Ok_inv in H as (dw & Hdw & H). apply py_div_Ok_inv in Hdw as [Edw Zd].
  apply bind_Ok_inv in H as (norm & _ & H).
  apply bind_Ok_inv in H as (p & _ & H). injection H as <- _.
  assert (P : 0 < pw <= 1) by (rewrite Epw, Erp in *; now apply unit_weight).
  assert (D : 0 < dw <= 1) by (rewrite Edw, Erd in *; now apply unit_weight).
  destruct P as [P1 P2], D as [D1 D2]. split.
  - apply Qmult_lt_0_compat; assumption.
  - assert (pw * dw <= 1 * dw) by (apply Qmult_le_compat_r; lra). lra.
Qed.

Lemma iadd_rows (n : nat) (duration_min timestep_sec : Q) (rows : list (list Q * Q)) :
  forall avg avg',
    (forall proc w, In (proc, w) rows -> length proc = n) ->
    length avg = n ->
    foldM (fun avg pw =>
             let '(proc, w) := pw in
             do proc <- (if negb (length proc =? length avg)%nat
                         then interp_pattern cubic_spline proc duration_min timestep_sec
                         else Ok proc);
             np_iadd avg (map (fun v => v * w) proc))
          rows avg = Ok avg' ->
    length avg' = n
    /\ forall k, (k < n)%nat ->
         nth k avg' 0
         = fold_left (fun acc pw => acc + nth k (fst pw) 0 * snd pw) rows (nth k avg 0).
Proof.
  induction rows as [|[proc w] rows IH]; intros avg avg' Hl La H; cbn [foldM] in H.
  - injection H as <-. now split.
  - apply bind_Ok_inv in H as (avg1 & Hs & H).
    assert (Lp : length proc = n) by (apply (Hl proc w); now left).
    rewrite Lp, La, Nat.eqb_refl in Hs. cbn [negb bind] in Hs.
    unfold np_iadd in Hs. rewrite length_map, La, Lp, Nat.eqb_refl in Hs.
    injection Hs as <-.
    apply IH in H as [L1 H1].
    + split; [exact L1|]. intros k Hk. rewrite (H1 k Hk). cbn [fold_left fst snd].
      f_equal.
      rewrite (nth_map_combine _ _ _ _ 0 0) by (rewrite ?length_map; lia).
      cbn [fst snd]. now rewrite (nth_map_lt _ _ _ 0) by lia.
    + intros p' w' Hin. apply (Hl p' w'). now right.
    + rewrite length_map, length_combine, length_map. lia.
Qed.

(** X7.  For a positive nominal power and a positive duration, a returned
    weighted average is the clamped convex combination of the processed
    curves: every weight lies in (0, 1], the normalised weights sum to 1,
    and each sample is the weighted sum of the curves' samples, replaced by
    0 when negative. *)
Theorem weighted_average_convex (templates : list template)
        (nominal duration_min baseline timestep_sec : Q) (out : list Q) :
  0 < nominal -> 0 < duration_min ->
  generate_weighted_average cubic_spline templates nominal duration_min baseline
    timestep_sec = Ok out ->
  exists entries,
    mapM (weighted_entry cubic_spline nominal duration_min baseline timestep_sec) templates
    = Ok entries
    /\ length entries = length templates
    /\ 0 < np_sum (map fst entries)
    /\ (forall w proc, In (w, proc) entries -> 0 < w <= 1 /\ length proc = length out)
    /\ np_sum (map (fun e => fst e / np_sum (map fst entries)) entries) == 1
    /\ forall k, (k < length out)%nat ->
         let s := weighted_mix
                    (map (fun e => (snd e, fst e / np_sum (map fst entries))) entries) k in
         nth k out 0 = if Qlt_le_dec s 0 then 0 else s.
Proof.
  intros Hn Hd H. unfold generate_weighted_average in H. cbv zeta in H.
  apply bind_Ok_inv in H as (entries & He & H).
  apply bind_Ok_inv in H as (w_arr & Hw & H).
  apply bind_Ok_inv in H as (p0 & Hp0 & H).
  apply bind_Ok_inv in H as (avg & Hf & H). injection H as <-.
  exists entries. split; [exact He|].
  pose proof (mapM_Ok_inv _ _ _ He) as F2.
  assert (Lq : forall w proc, In (w, proc) entries ->
                              py_steps duration_min timestep_sec
                              = Ok (Z.of_nat (length proc))).
  { intros w proc Hin. clear -F2 Hin. induction F2 as [|t e ts es Ht _ IH]; [destruct Hin|].
    destruct Hin as [->|Hin]; [eapply weighted_entry_length; eauto | auto]. }
  assert (Lw : forall w proc, In (w, proc) entries -> 0 < w <= 1).
  { intros w proc Hin. clear -F2 Hin Hn Hd. induction F2 as [|t e ts es Ht _ IH]; [destruct Hin|].
    destruct Hin as [->|Hin]; [|auto].
    exact (weighted_entry_weight _ _ _ _ _ _ _ Hn Hd Ht). }
  assert (Hne : entries <> []) by (intros ->; discriminate Hp0).
  assert (HW : 0 < np_sum (map fst entries)).
  { apply np_sum_pos.
    - destruct entries; [congruence | discriminate].
    - intros x Hx. apply in_map_iff in Hx as ([w proc] & <- & Hin).
      exact (proj1 (Lw w proc Hin)). }
  assert (Ew : w_arr = map (fun w => w / np_sum (map fst entries)) (map fst entries)).
  { unfold np_idiv_scalar in Hw. destruct (map fst entries) as [|w0 ws] eqn:Em.
    - destruct entries; [congruence | discriminate].
    - destruct (Qeq_bool (np_sum (w0 :: ws)) 0) eqn:E; [|now injection Hw as <-].
      apply Qeq_bool_eq in E. exfalso. rewrite E in HW. now apply (Qlt_irrefl 0). }
  assert (L0 : py_steps duration_min timestep_sec = Ok (Z.of_nat (length p0))).
  { destruct entries as [|[w proc] es]; [congruence|]. simpl in Hp0.
    injection Hp0 as <-. apply (Lq w proc). now left. }
  assert (Er : combine (map snd entries) w_arr
               = map (fun e => (snd e, fst e / np_sum (map fst entries))) entries).
  { rewrite Ew. generalize (np_sum (map fst entries)) as W. intros W.
    clear. induction entries as [|e es IH]; simpl; congruence. }
  apply (iadd_rows (length p0)) in Hf as [La Hk].
  2:{ rewrite Er. intros proc w Hin. apply in_map_iff in Hin as ([w' proc'] & E & Hin).
      injection E as <- _. specialize (Lq _ _ Hin).
      eapply py_steps_same_length; eauto. }
  2:{ apply length_map. }
  rewrite np_clip0_length, La.
  split; [exact (eq_sym (Forall2_length F2))|].
  split; [exact HW|]. split.
  { intros w proc Hin. split; [eauto|]. specialize (Lq _ _ Hin).
    eapply py_steps_same_length; eauto. }
  split.
  { rewrite <- (map_map fst (fun w => w / np_sum (map fst entries))).
    rewrite np_sum_scaled. field. lra. }
  intros k Hlt s. unfold np_clip0.
  rewrite (nth_map_lt _ _ _ 0) by lia. rewrite (Hk k Hlt).
  rewrite (nth_map_lt _ _ _ 0) by lia.
  subst s. unfold weighted_mix. rewrite <- Er. reflexivity.
Qed.

End WeightedAverage.

Lemma weighted_average_convex_witness :
  exists out,
    generate_weighted_average chord_interpolant [triangle; valley] 2000 1 0 12 = Ok out
    /\ exists entries,
        mapM (weighted_entry chord_interpolant 2000 1 0 12) [triangle; valley] = Ok entries
        /\ length entries = 2%nat
        /\ np_sum (map (fun e => fst e / np_sum (map fst entries)) entries) == 1.
Proof.
  destruct (generate_weighted_average chord_interpolant [triangle; valley] 2000 1 0 12)
    as [out| | |] eqn:E; try (vm_compute in E; discriminate).
  exists out. split; [reflexivity|].
  destruct (weighted_average_convex chord_interpolant [triangle; valley] 2000 1 0 12 out)
    as (entries & H1 & H2 & _ & _ & H5 & _); [reflexivity | reflexivity | exact E |].
  exists entries. auto.
Defined.

(** ** Hour ranges *)

Lemma split_on_length (sep : ascii) (s : string) :
  length (split_on sep s) = S (count_char sep s).
Proof.
  induction s as [|c r IH]; simpl; [reflexivity|].
  destruct (Ascii.eqb c sep); simpl; [now rewrite IH|].
  destruct (split_on sep r); simpl in *; lia.
Qed.

Lemma split_on_no_sep (sep : ascii) (s : string) :
  Forall (fun f => ~ In sep (list_ascii_of_string f)) (split_on sep s).
Proof.
  induction s as [|c r IH]; simpl; [repeat constructor; intros []|].
  destruct (Ascii.eqb_spec c sep) as [->|E]; [constructor; [intros [] | exact IH]|].
  destruct (split_on sep r) as [|f fs].
  - repeat constructor. simpl. intuition.
  - inversion IH; subst. constructor; [|assumption]. simpl. intuition.
Qed.

Lemma parse_digits_nonneg (l : list ascii) :
  (forall acc b z, (0 <= acc)%Z -> parse_digits l acc b = Some z -> (0 <= z)%Z)
  /\ (forall acc z, (0 <= acc)%Z ->
                    parse_digits_after_underscore l acc = Some z -> (0 <= z)%Z).
Proof.
  induction l as [|c r [IH1 IH2]]; split; intros;
    cbn [parse_digits parse_digits_after_underscore] in *.
  - destruct b; [|discriminate]. injection H0 as <-. exact H.
  - discriminate.
  - destruct (is_digit c).
    + eapply IH1; [|eassumption]. lia.
    + destruct (Ascii.eqb c "_" && b)%bool; [|discriminate]. eauto.
  - destruct (is_digit c); [|discriminate]. eapply IH1; [|eassumption]. lia.
Qed.

Lemma drop_spaces_incl (l : list ascii) (c : ascii) :
  In c (drop_spaces l) -> In c l.
Proof.
  induction l as [|d l IH]; simpl; [auto|].
  destruct (is_space d); simpl; auto.
Qed.

Lemma py_int_of_string_nonneg (s : string) (z : Z) :
  ~ In "-"%char (list_ascii_of_string s) ->
  py_int_of_string s = Ok z -> (0 <= z)%Z.
Proof.
  intros Hno. unfold py_int_of_string.
  set (body := rev (drop_spaces (rev (drop_spaces (list_ascii_of_string s))))).
  assert (Hb : ~ In "-"%char body).
  { intros H. apply Hno. unfold body in H.
    apply in_rev in H. apply drop_spaces_incl in H. apply in_rev in H.
    now apply drop_spaces_incl in H. }
  assert (P : forall l, parse_digits l 0%Z false = Some z -> (0 <= z)%Z).
  { intros l. apply (proj1 (parse_digits_nonneg l)). lia. }
  destruct body as [|c r] eqn:E.
  - simpl. discriminate.
  - destruct (Ascii.eqb_spec c "-") as [->|Hc]; [exfalso; apply Hb; now left|].
    destruct (Ascii.eqb_spec c "+") as [->|Hp].
    + destruct (parse_digits r 0%Z false) eqn:Ep; [|discriminate].
      intros [= <-]. now apply (P r).
    + assert (G : match c :: r with
                  | "-"%char :: r0 => option_map Z.opp (parse_digits r0 0%Z false)
                  | "+"%char :: r0 => parse_digits r0 0%Z false
                  | _ => parse_digits (c :: r) 0%Z false
                  end = parse_digits (c :: r) 0%Z false).
      { destruct c as [[] [] [] [] [] [] [] []]; try reflexivity; congruence. }
      rewrite G. destruct (parse_digits (c :: r) 0%Z false) eqn:Ep; [|discriminate].
      intros [= <-]. now apply (P (c :: r)).
Qed.

(** X8.  [parse_hour_range] returns only for a string with exactly one
    [-], and then two hours that are not negative; any other number of [-]
    is the format error, and nothing but a [ValueError] is ever raised. *)
Theorem parse_hour_range_shape (hour_str : string) :
  (count_char "-" hour_str <> 1%nat ->
   parse_hour_range hour_str
   = Raise (ValueError ("Invalid hour range format: " ++ hour_str
                        ++ ". Expected format: '6-9'")))
  /\ (forall a b, parse_hour_range hour_str = Ok (a, b) ->
                  count_char "-" hour_str = 1%nat /\ (0 <= a)%Z /\ (0 <= b)%Z)
  /\ value_error_or (fun _ => True) (parse_hour_range hour_str).
Proof.
  pose proof (split_on_length "-" hour_str) as L.
  pose proof (split_on_no_sep "-" hour_str) as N.
  unfold parse_hour_range.
  destruct (split_on "-" hour_str) as [|x [|y [|z r]]] eqn:E; simpl in L.
  - lia.
  - split; [reflexivity|]. split; [discriminate | exact I].
  - inversion N as [|? ? Nx N']; subst. inversion N' as [|? ? Ny _]; subst.
    split; [intros H; lia|]. split.
    + intros a b H.
      apply bind_Ok_inv in H as (a' & Ha & H).
      apply bind_Ok_inv in H as (b' & Hb & H). injection H as <- <-.
      cbv beta in Nx, Ny.
      split; [lia|]. split;
        [exact (py_int_of_string_nonneg x a' Nx Ha)
        |exact (py_int_of_string_nonneg y b' Ny Hb)].
    + pose proof (parse_hour_range_outcome hour_str) as O.
      unfold parse_hour_range in O. now rewrite E in O.
  - split; [reflexivity|]. split; [discriminate | exact I].
Qed.

(** ** Hour probabilities *)

Lemma py_range_In (a b h : Z) : In h (py_range a b) <-> (a <= h < b)%Z.
Proof.
  unfold py_range. rewrite in_map_iff. split.
  - intros (k & <- & Hk). apply in_seq in Hk. lia.
  - intros H. exists (Z.to_nat (h - a)). split; [lia | apply in_seq; lia].
Qed.

Lemma py_max_cases (a b : Q) :
  a <= py_max a b /\ b <= py_max a b /\ (py_max a b = a \/ py_max a b = b).
Proof.
  unfold py_max. destruct (Qlt_le_dec a b) as [H|H].
  - split; [now apply Qlt_le_weak|]. split; [apply Qle_refl | now right].
  - split; [apply Qle_refl|]. split; [exact H | now left].
Qed.

(** The inner loop of [calculate_timestep_probabilities]: the hours of
    [hs] are raised to at least [prob], the others are left alone. *)
Lemma raise_hours (prob : Q) (hs : list Z) : forall (old : list Q),
  length old = 24%nat ->
  exists new,
    foldM (fun hour_probs hour =>
             if ((0 <=? hour)%Z && (hour <? 24)%Z)%bool
             then
               do o <- get_item hour_probs (Z.to_nat hour);
               set_item hour_probs (Z.to_nat hour) (py_max o prob)
             else Ok hour_probs) hs old = Ok new
    /\ length new = 24%nat
    /\ forall h, (h < 24)%nat ->
         nth h old 0 <= nth h new 0
         /\ (In (Z.of_nat h) hs -> prob <= nth h new 0)
         /\ (nth h new 0 = nth h old 0
             \/ (In (Z.of_nat h) hs /\ nth h new 0 = prob)).
Proof.
  induction hs as [|x hs IH]; intros old Hl; simpl.
  - exists old. split; [reflexivity|]. split; [exact Hl|].
    intros h Hh. split; [apply Qle_refl|]. split; [intros [] | now left].
  - destruct ((0 <=? x)%Z && (x <? 24)%Z)%bool eqn:E.
    + apply andb_true_iff in E as [E1 E2].
      apply Z.leb_le in E1. apply Z.ltb_lt in E2.
      rewrite (get_item_nth old _ 0) by lia. cbn [bind].
      rewrite set_item_Ok by lia.
      set (mid := replace_nth old (Z.to_nat x) _).
      assert (Hm : length mid = 24%nat) by (unfold mid; now rewrite replace_nth_length).
      destruct (IH mid Hm) as (new & Hf & Hn & Hs).
      exists new. split; [exact Hf|]. split; [exact Hn|].
      intros h Hh. destruct (Hs h Hh) as (H1 & H2 & H3).
      assert (Hmid : nth h mid 0
                     = if (h =? Z.to_nat x)%nat
                       then py_max (nth (Z.to_nat x) old 0) prob else nth h old 0).
      { unfold mid. apply nth_replace_nth. lia. }
      destruct (py_max_cases (nth (Z.to_nat x) old 0) prob) as (M1 & M2 & M3).
      destruct (h =? Z.to_nat x)%nat eqn:Eh.
      * apply Nat.eqb_eq in Eh. subst h. rewrite Hmid in *.
        split; [eapply Qle_trans; eauto|].
        split; [intros _; eapply Qle_trans; eauto|].
        destruct H3 as [H3|[H3 H4]].
        -- destruct M3 as [M3|M3]; rewrite H3, M3; [now left|].
           right. split; [left; lia | reflexivity].
        -- right. split; [now right | exact H4].
      * apply Nat.eqb_neq in Eh. rewrite Hmid in *.
        split; [exact H1|]. split.
        -- intros [Hx|Hx]; [lia | now apply H2].
        -- destruct H3 as [H3|[H3 H4]]; [now left | right; split; [now right | exact H4]].
    + destruct (IH old Hl) as (new & Hf & Hn & Hs).
      exists new. split; [exact Hf|]. split; [exact Hn|].
      intros h Hh. destruct (Hs h Hh) as (H1 & H2 & H3).
      split; [exact H1|]. split.
      * intros [Hx|Hx]; [|now apply H2].
        apply andb_false_iff in E as [E|E];
          [apply Z.leb_gt in E | apply Z.ltb_ge in E]; lia.
      * destruct H3 as [H3|[H3 H4]]; [now left | right; split; [now right | exact H4]].
Qed.

(** X9.  A returned table of hour probabilities has 24 entries, every
    range of the dict parses, and the entry of hour [h] is the largest
    probability among the ranges that contain [h], never below 0 (0 when
    no range contains it). *)
Theorem hour_probabilities_are_maxima (hp : list (string * Q)) (probs : list Q) :
  calculate_timestep_probabilities hp = Ok probs ->
  length probs = 24%nat
  /\ (forall r p, In (r, p) hp -> exists s e, parse_hour_range r = Ok (s, e))
  /\ forall h, (h < 24)%nat ->
       0 <= nth h probs 0
       /\ (forall p, covering hp h p -> p <= nth h probs 0)
       /\ (nth h probs 0 = 0 \/ covering hp h (nth h probs 0)).
Proof.
  unfold calculate_timestep_probabilities.
  assert (G : forall todo done0 old new,
             length old = 24%nat ->
             (forall r p, In (r, p) done0 -> exists s e, parse_hour_range r = Ok (s, e)) ->
             (forall h, (h < 24)%nat ->
                0 <= nth h old 0
                /\ (forall p, covering done0 h p -> p <= nth h old 0)
                /\ (nth h old 0 = 0 \/ covering done0 h (nth h old 0))) ->
             foldM (fun hour_probs entry =>
                      let '(hour_range, prob) := entry in
                      do se <- parse_hour_range hour_range;
                      let '(start_hour, end_hour) := se in
                      foldM (fun hour_probs hour =>
                               if ((0 <=? hour)%Z && (hour <? 24)%Z)%bool
                               then
                                 do o <- get_item hour_probs (Z.to_nat hour);
                                 set_item hour_probs (Z.to_nat hour) (py_max o prob)
                               else Ok hour_probs)
                            (py_range start_hour end_hour) hour_probs)
                   todo old = Ok new ->
             length new = 24%nat
             /\ (forall r p, In (r, p) (done0 ++ todo) ->
                             exists s e, parse_hour_range r = Ok (s, e))
             /\ forall h, (h < 24)%nat ->
                  0 <= nth h new 0
                  /\ (forall p, covering (done0 ++ todo) h p -> p <= nth h new 0)
                  /\ (nth h new 0 = 0 \/ covering (done0 ++ todo) h (nth h new 0))).
  { induction todo as [|[r p] todo IH]; intros done0 old new Hl Hparse Hinv H; simpl in H.
    - injection H as <-. rewrite app_nil_r. auto.
    - apply bind_Ok_inv in H as (mid & Hstep & H).
      apply bind_Ok_inv in Hstep as ([s e] & Hp & Hstep).
      destruct (raise_hours p (py_range s e) old Hl) as (mid' & Hf & Hm & Hs).
      rewrite Hf in Hstep. injection Hstep as <-.
      replace (done0 ++ (r, p) :: todo) with ((done0 ++ [(r, p)]) ++ todo)
        by now rewrite <- app_assoc.
      apply (IH (done0 ++ [(r, p)]) mid' new Hm); [| |exact H].
      + intros r' p' Hin. apply in_app_or in Hin as [Hin|[Hin|[]]]; [eauto|].
        injection Hin as <- <-. eauto.
      + intros h Hh. destruct (Hinv h Hh) as (I1 & I2 & I3).
        destruct (Hs h Hh) as (S1 & S2 & S3).
        split; [eapply Qle_trans; eauto|]. split.
        * intros q (r' & s' & e' & Hin & Hp' & Hr').
          apply in_app_or in Hin as [Hin|[Hin|[]]].
          -- eapply Qle_trans; [|exact S1]. apply I2. exists r', s', e'. auto.
          -- injection Hin as <- <-. rewrite Hp in Hp'. injection Hp' as <- <-.
             apply S2. now apply py_range_In.
        * destruct S3 as [S3|[S3 S4]].
          -- rewrite S3. destruct I3 as [I3|(r' & s' & e' & Hin & Hp' & Hr')];
               [now left|].
             right. exists r', s', e'. split; [apply in_or_app; now left | auto].
          -- right. rewrite S4. exists r, s, e.
             split; [apply in_or_app; right; now left|].
             split; [exact Hp | now apply py_range_In]. }
  intros H. apply (G hp [] (repeat 0 24) probs) in H; [exact H|reflexivity|intros ? ? []|].
  intros h Hh. rewrite nth_repeat. split; [apply Qle_refl|]. split.
  - intros p (r & s & e & [] & _).
  - now left.
Qed.

Lemma hour_probabilities_are_maxima_witness :
  exists probs,
    calculate_timestep_probabilities [("18-21"%string, 1); ("20-23"%string, 1 # 2)]
    = Ok probs
    /\ length probs = 24%nat
    /\ forall h, (h < 24)%nat -> 0 <= nth h probs 0.
Proof.
  destruct (calculate_timestep_probabilities
              [("18-21"%string, 1); ("20-23"%string, 1 # 2)]) as [probs| | |] eqn:E;
    try (vm_compute in E; discriminate).
  exists probs. split; [reflexivity|].
  destruct (hour_probabilities_are_maxima _ _ E) as (L & _ & Hh).
  split; [exact L|]. intros h Hlt. exact (proj1 (Hh h Hlt)).
Defined.

(** ** What the placers do to the series: overlays, nothing else *)

Lemma foldM_app {A B : Type} (f : A -> B -> result A) (l1 l2 : list B) (a : A) :
  foldM f (l1 ++ l2) a = (do a' <- foldM f l1 a; foldM f l2 a').
Proof.
  revert a; induction l1 as [|x l1 IH]; intros a; simpl; [reflexivity|].
  destruct (f a x); simpl; auto.
Qed.

Section OverlaysOnly.
Variable entropy : nat -> nat.
Variable pattern : list Q.

(** [Inv placed ts]: a property of the series [ts] after the overlays at
    [placed], in that order; [Pos a]: what is known of a start position. *)
Variable Inv : list nat -> timeseries -> Prop.
Variable Pos : nat -> Prop.
Hypothesis Inv_overlay : forall placed ts a ts',
  Inv placed ts -> Pos a -> overlay ts a pattern = Ok ts' -> Inv (placed ++ [a]) ts'.

Lemma overlay_all_ind (sel : list nat) : forall placed ts ts',
  Inv placed ts -> (forall a, In a sel -> Pos a) ->
  foldM (fun ts absolute_idx => overlay ts absolute_idx pattern) sel ts = Ok ts' ->
  Inv (placed ++ sel) ts'.
Proof.
  induction sel as [|a sel IH]; intros placed ts ts' HP HS H; simpl in H.
  - injection H as <-. now rewrite app_nil_r.
  - apply bind_Ok_inv in H as (ts1 & Ho & H).
    replace (placed ++ a :: sel) with ((placed ++ [a]) ++ sel)
      by now rewrite <- app_assoc.
    eapply IH; [| |exact H].
    + eapply Inv_overlay; eauto. apply HS. now left.
    + intros b Hb. apply HS. now right.
Qed.

Lemma place_starts_ind (di : list nat) (first : nat) (starts : list nat) :
  get_item di 0 = Ok first ->
  forall placed ts ts' placed',
  Inv placed ts -> (forall s, In s starts -> Pos (first + s)%nat) ->
  foldM (fun tp start_offset =>
           let '(ts, placed) := tp in
           do first <- get_item di 0;
           do ts' <- overlay ts (first + start_offset)%nat pattern;
           Ok (ts', placed ++ [(first + start_offset)%nat]))
        starts (ts, placed) = Ok (ts', placed') ->
  Inv placed' ts' /\ placed' = placed ++ map (fun s => (first + s)%nat) starts.
Proof.
  intros Hfirst. induction starts as [|s starts IH];
    intros placed ts ts' placed' HP HS H; cbn [foldM map] in H.
  - injection H as <- <-. now rewrite app_nil_r.
  - rewrite (bind_Ok_eq _ _ _ Hfirst) in H.
    apply bind_Ok_inv in H as ([ts1 placed1] & Hs & H).
    apply bind_Ok_inv in Hs as (ts1' & Ho & Hs). injection Hs as <- <-.
    apply IH in H as [HP' ->].
    + split; [exact HP'|]. now rewrite <- app_assoc.
    + eapply Inv_overlay; eauto. apply HS. now left.
    + intros s' Hs'. apply HS. now right.
Qed.

End OverlaysOnly.

Section UniformInd.
Variable entropy : nat -> nat.
Variable pattern : list Q.
Variable apd : Z.
Variable Inv : list nat -> timeseries -> Prop.
Variable Pos : nat -> Prop.
Hypothesis Inv_overlay : forall placed ts a ts',
  Inv placed ts -> Pos a -> overlay ts a pattern = Ok ts' -> Inv (placed ++ [a]) ts'.
Hypothesis Pos_day : forall placed ts day c starts c' s,
  Inv placed ts ->
  activation_starts entropy (length (day_indices ts day)) (length pattern) apd c
  = Ok (starts, c') ->
  In s starts -> Pos (hd O (day_indices ts day) + s)%nat.

Lemma place_day_ind (ts : timeseries) (c : nat) (placed : list nat) (day : Z)
      (ts' : timeseries) (c' : nat) (placed' : list nat) :
  Inv placed ts ->
  place_day entropy pattern apd (ts, c, placed) day = Ok (ts', c', placed') ->
  Inv placed' ts'.
Proof.
  intros HP H. unfold place_day in H. cbv zeta in H.
  destruct (length (day_indices ts day) =? 0)%nat eqn:E.
  - now injection H as <- <- <-.
  - apply bind_Ok_inv in H as ([starts c1] & Ha & H).
    apply bind_Ok_inv in H as ([ts1 placed1] & Hf & H).
    injection H as <- <- <-.
    destruct (day_indices ts day) as [|first di] eqn:Ed; [discriminate|].
    eapply (place_starts_ind pattern Inv Pos Inv_overlay (first :: di) first starts eq_refl)
      in Hf as [HP' _]; [exact HP' | exact HP |].
    intros s Hs. pose proof (Pos_day placed ts day c starts c1 s HP) as G.
    rewrite Ed in G. apply G; assumption.
Qed.

Lemma uniform_run_ind (start_date end_date : datetime) (step : Z) (c : nat)
      (grid ts : timeseries) (c' : nat) (placed : list nat) :
  make_grid start_date end_date step = Ok grid ->
  Inv [] grid ->
  place_uniform_daily entropy pattern start_date end_date apd step c
  = Ok (ts, c', placed) ->
  Inv placed ts.
Proof.
  intros Hg HP H. unfold place_uniform_daily in H. rewrite Hg in H. cbn [bind] in H.
  revert H.
  apply (foldM_preserves
           (fun st : timeseries * nat * list nat => Inv (snd st) (fst (fst st)))
           (place_day entropy pattern apd) _) with (a := (grid, c, @nil nat))
                                                   (r := (ts, c', placed)).
  - intros [[ts0 c0] p0] day [[ts1 c1] p1] HP0 Hd. simpl in *.
    eapply place_day_ind; eauto.
  - exact HP.
Qed.

End UniformInd.

Section WeeklyInd.
Variable entropy : nat -> nat.
Variable pattern : list Q.
Variable Inv : list nat -> timeseries -> Prop.
Hypothesis Inv_overlay : forall placed ts a ts',
  Inv placed ts -> overlay ts a pattern = Ok ts' -> Inv (placed ++ [a]) ts'.

Lemma place_week_ind (end_date : datetime) (wd we : list Q) (apw : Z)
      (st st' : timeseries * nat * list (Z * list nat))
      (week : Z * list (nat * datetime)) :
  Inv (concat (map snd (snd st))) (fst (fst st)) ->
  place_week entropy pattern end_date wd we apw st week = Ok st' ->
  Inv (concat (map snd (snd st'))) (fst (fst st')).
Proof.
  destruct st as [[ts c] accepted], week as [wk items]. simpl.
  intros HP H. unfold place_week in H. cbv zeta in H.
  apply bind_Ok_inv in H as ([probs indices] & _ & H).
  destruct (length probs =? 0)%nat; [now injection H as <-|].
  apply bind_Ok_inv in H as ([sel c'] & _ & H).
  apply bind_Ok_inv in H as (ts' & Ho & H). injection H as <-. simpl.
  rewrite map_app, concat_app. simpl. rewrite app_nil_r.
  eapply (overlay_all_ind pattern Inv (fun _ => True)); eauto.
Qed.

Lemma weekly_run_ind (start_date end_date : datetime) (schedule : schedule_config)
      (step : Z) (c : nat) (grid ts : timeseries) (c' : nat)
      (accepted : list (Z * list nat)) :
  make_grid start_date end_date step = Ok grid ->
  Inv [] grid ->
  place_probabilistic_weekly entropy pattern start_date end_date schedule step c
  = Ok (ts, c', accepted) ->
  Inv (concat (map snd accepted)) ts.
Proof.
  intros Hg HP H. unfold place_probabilistic_weekly in H.
  rewrite Hg in H. cbn [bind] in H.
  apply bind_Ok_inv in H as (wd & _ & H).
  apply bind_Ok_inv in H as (we & _ & H).
  revert H.
  apply (foldM_preserves
           (fun st : timeseries * nat * list (Z * list nat) =>
              Inv (concat (map snd (snd st))) (fst (fst st))))
    with (a := (grid, c, @nil (Z * list nat))) (r := (ts, c', accepted)).
  - intros st week st'. apply place_week_ind.
  - exact HP.
Qed.

End WeeklyInd.

(** ** Values and coverage of the merged series *)

Lemma merged_cell_snd (ts : timeseries) (a : nat) (pattern : list Q) (k : nat) :
  snd (nth k ts (0%Z, 0)) <= snd (merged_cell ts a pattern k)
  /\ (snd (merged_cell ts a pattern k) = snd (nth k ts (0%Z, 0))
      \/ (covers a (length pattern) k
          /\ snd (merged_cell ts a pattern k) = nth (k - a) pattern 0))
  /\ (covers a (length pattern) k -> (k < length ts)%nat ->
      nth (k - a) pattern 0 <= snd (merged_cell ts a pattern k)).
Proof.
  unfold merged_cell, covers.
  destruct (a <=? k)%nat eqn:E1; simpl;
    [|apply Nat.leb_gt in E1; split; [apply Qle_refl|]; split; [now left | lia]].
  destruct (k <? a + length pattern)%nat eqn:E2; simpl;
    [|apply Nat.ltb_ge in E2; split; [apply Qle_refl|]; split; [now left | lia]].
  destruct (k <? length ts)%nat eqn:E3; simpl.
  - apply Nat.leb_le in E1. apply Nat.ltb_lt in E2.
    destruct (py_max_cases (snd (nth k ts (0%Z, 0))) (nth (k - a) pattern 0))
      as (M1 & M2 & [M3|M3]).
    + split; [exact M1|]. split; [now left | intros; exact M2].
    + split; [exact M1|]. split; [right; split; [lia | exact M3] | intros; exact M2].
  - apply Nat.ltb_ge in E3. split; [apply Qle_refl|]. split; [now left | lia].
Qed.

Lemma from_pattern_overlay (pattern : list Q) (ts : timeseries) (a : nat)
      (ts' : timeseries) :
  from_pattern pattern ts -> overlay ts a pattern = Ok ts' -> from_pattern pattern ts'.
Proof.
  intros HP Ho k.
  destruct (overlay_spec ts a pattern) as (ts1 & Ho1 & _ & Hn).
  rewrite Ho in Ho1. injection Ho1 as <-. rewrite Hn.
  destruct (merged_cell_snd ts a pattern k) as (_ & [M|[Hc M]] & _); rewrite M.
  - apply HP.
  - right. apply nth_In. unfold covers in Hc. lia.
Qed.

Lemma dominates_overlay (pattern : list Q) (placed : list nat) (ts : timeseries)
      (a : nat) (ts' : timeseries) :
  dominates pattern placed ts -> overlay ts a pattern = Ok ts' ->
  dominates pattern (placed ++ [a]) ts'.
Proof.
  intros HP Ho b i Hb Hi Hlen.
  destruct (overlay_spec ts a pattern) as (ts1 & Ho1 & Hl & Hn).
  rewrite Ho in Ho1. injection Ho1 as <-. rewrite Hn. rewrite Hl in Hlen.
  destruct (merged_cell_snd ts a pattern (b + i)) as (M1 & _ & M3).
  apply in_app_or in Hb as [Hb|[<-|[]]].
  - eapply Qle_trans; [|exact M1]. now apply HP.
  - replace i with (a + i - a)%nat at 1 by lia. apply M3; [unfold covers; lia | exact Hlen].
Qed.

Section Merged.
Variable entropy : nat -> nat.

(** X10.  In the series returned by either placer every power is 0 or a
    sample of the activation, and under every start position that was
    overlaid the series is at least the activation, sample by sample. *)
Theorem placed_activations_dominate (pattern : list Q) (start_date end_date : datetime)
        (step : Z) (c : nat) :
  (forall apd ts c' placed,
      place_uniform_daily entropy pattern start_date end_date apd step c
      = Ok (ts, c', placed) ->
      from_pattern pattern ts /\ dominates pattern placed ts)
  /\ (forall schedule ts c' accepted,
         place_probabilistic_weekly entropy pattern start_date end_date schedule step c
         = Ok (ts, c', accepted) ->
         from_pattern pattern ts
         /\ dominates pattern (concat (map snd accepted)) ts).
Proof.
  assert (G : forall grid, make_grid start_date end_date step = Ok grid ->
                           from_pattern pattern grid /\ dominates pattern [] grid).
  { intros grid Hg. split.
    - intros k. left.
      destruct (make_grid_cases start_date end_date step) as [(g & Hg' & Hz)|(Hg' & _)];
        [|congruence].
      rewrite Hg in Hg'. injection Hg' as <-. apply Hz.
    - intros a i []. }
  split.
  - intros apd ts c' placed H.
    assert (exists grid, make_grid start_date end_date step = Ok grid) as (grid & Hg).
    { unfold place_uniform_daily in H. apply bind_Ok_inv in H as (g & Hg & _). eauto. }
    apply (uniform_run_ind entropy pattern apd
             (fun placed ts => from_pattern pattern ts /\ dominates pattern placed ts)
             (fun _ => True)) with (grid := grid) in H; auto.
    intros p t a t' [H1 H2] _ Ho. split;
      [eapply from_pattern_overlay | eapply dominates_overlay]; eauto.
  - intros schedule ts c' accepted H.
    assert (exists grid, make_grid start_date end_date step = Ok grid) as (grid & Hg).
    { unfold place_probabilistic_weekly in H.
      apply bind_Ok_inv in H as (g & Hg & _). eauto. }
    apply (weekly_run_ind entropy pattern
             (fun placed ts => from_pattern pattern ts /\ dominates pattern placed ts))
      with (grid := grid) in H; auto.
    intros p t a t' [H1 H2] Ho. split;
      [eapply from_pattern_overlay | eapply dominates_overlay]; eauto.
Qed.

End Merged.

(** ** Where the weekly placer accepts a start *)

Lemma foldM_preserves_In {A B : Type} (P : A -> Prop) (f : A -> B -> result A)
      (l : list B) :
  (forall a b a', In b l -> P a -> f a b = Ok a' -> P a') ->
  forall a r, P a -> foldM f l a = Ok r -> P r.
Proof.
  induction l as [|x l IH]; intros Hf a r Ha H; simpl in H.
  - now injection H as <-.
  - apply bind_Ok_inv in H as (a' & Hfa & H).
    eapply IH; [| |exact H].
    + intros a0 b a1 Hb. apply Hf. now right.
    + eapply Hf; eauto. now left.
Qed.

Lemma get_item_In {A : Type} (l : list A) (i : nat) (x : A) :
  get_item l i = Ok x -> In x l.
Proof.
  unfold get_item. destruct (nth_error l i) eqn:E; [|discriminate].
  intros [= <-]. eapply nth_error_In; eauto.
Qed.

Lemma set_add_incl (x : nat) (s l : list nat) :
  In x l -> incl s l -> incl (set_add x s) l.
Proof.
  intros Hx Hs y Hy. apply set_add_In in Hy as [->|Hy]; auto.
Qed.

Lemma fallback_fill_incl (T : nat) (target : Z) (indices : list nat)
      (sorted : list nat) : forall sel out,
  incl sel indices ->
  fallback_fill sorted target indices T sel = Ok out -> incl out indices.
Proof.
  induction sorted as [|s sorted IH]; intros sel out Hs H; simpl in H.
  - now injection H as <-.
  - destruct (target <=? Z.of_nat (length sel))%Z; [now injection H as <-|].
    apply bind_Ok_inv in H as (a & Ha & H). apply get_item_In in Ha.
    eapply IH; [|exact H].
    destruct (overlaps T sel a); [exact Hs | now apply set_add_incl].
Qed.

Lemma weeks_append_In (weeks : list (Z * list (nat * datetime))) (key : Z)
      (item : nat * datetime) (wk : Z) (items : list (nat * datetime)) :
  In (wk, items) (weeks_append weeks key item) ->
  forall x, In x items ->
    (exists items0, In (wk, items0) weeks /\ In x items0) \/ (wk = key /\ x = item).
Proof.
  induction weeks as [|[k l] weeks IH]; simpl; intros H x Hx.
  - destruct H as [H|[]]. injection H as <- <-. destruct Hx as [<-|[]]. now right.
  - destruct (k =? key)%Z eqn:E.
    + apply Z.eqb_eq in E. subst k. destruct H as [H|H].
      * injection H as <- <-. apply in_app_or in Hx as [Hx|[<-|[]]].
        -- left. exists l. split; [now left | exact Hx].
        -- now right.
      * left. exists items. split; [now right | exact Hx].
    + destruct H as [H|H].
      * injection H as <- <-. left. exists l. split; [now left | exact Hx].
      * destruct (IH H x Hx) as [(items0 & Hi & Hx0)|R]; [|now right].
        left. exists items0. split; [now right | exact Hx0].
Qed.

Lemma enumerate_In {A : Type} (l : list A) (i : nat) (x : A) :
  In (i, x) (enumerate l) -> nth_error l i = Some x.
Proof.
  unfold enumerate.
  assert (G : forall base, In (i, x) (combine (seq base (length l)) l) ->
                           (base <= i)%nat /\ nth_error l (i - base) = Some x).
  { induction l as [|y l IH]; intros base H; simpl in H; [contradiction|].
    destruct H as [H|H].
    - injection H as <- <-. rewrite Nat.sub_diag. split; [lia | reflexivity].
    - apply IH in H as [H1 H2]. split; [lia|].
      replace (i - base)%nat with (S (i - S base)) by lia. exact H2. }
  intros H. apply (G 0%nat) in H as [_ H]. now rewrite Nat.sub_0_r in H.
Qed.

Lemma group_weeks_spec (ts : timeseries) (wk : Z) (items : list (nat * datetime))
      (idx : nat) (t : datetime) :
  In (wk, items) (group_weeks ts) -> In (idx, t) items -> in_week ts wk idx.
Proof.
  unfold group_weeks.
  assert (G : forall l weeks,
             (forall it, In it l -> In it (enumerate ts)) ->
             (forall wk items, In (wk, items) weeks ->
                forall x, In x items -> in_week ts wk (fst x)) ->
             forall wk items,
               In (wk, items)
                  (fold_left (fun weeks it =>
                                let '(idx, (t, _)) := it in
                                weeks_append weeks (date t - weekday t)%Z (idx, t))
                             l weeks) ->
               forall x, In x items -> in_week ts wk (fst x)).
  { induction l as [|[i [t0 p0]] l IH]; intros weeks Hl Hw wk0 items0 H x Hx; simpl in H.
    - eapply Hw; eauto.
    - eapply IH; [| |exact H|exact Hx].
      + intros it Hit. apply Hl. now right.
      + intros wk1 items1 H1 y Hy.
        destruct (weeks_append_In _ _ _ _ _ H1 y Hy) as [(items2 & Hi & Hy2)|[-> ->]].
        * eapply Hw; eauto.
        * simpl. exists t0. split; [|reflexivity].
          assert (E : In (i, (t0, p0)) (enumerate ts)) by (apply Hl; now left).
          apply enumerate_In in E. rewrite nth_error_map, E. reflexivity. }
  intros H Hx. apply (G (enumerate ts) [] (fun _ H => H)) with (x := (idx, t)) in H; auto.
  intros ? ? [].
Qed.

Lemma week_candidates_incl (wd we : list Q) (T n : nat) (items : list (nat * datetime))
      (probs : list Q) (indices : list nat) :
  week_candidates wd we T n items = Ok (probs, indices) ->
  forall a, In a indices -> (a + T <= n)%nat /\ exists t, In (a, t) items.
Proof.
  unfold week_candidates. intros H.
  revert H.
  apply (foldM_preserves_In
           (fun acc : list Q * list nat =>
              forall a, In a (snd acc) -> (a + T <= n)%nat /\ exists t, In (a, t) items))
    with (a := (@nil Q, @nil nat)) (r := (probs, indices)).
  - intros [p i] [idx t] [p' i'] Hin Hacc Hs. cbv zeta in Hs.
    apply bind_Ok_inv in Hs as (prob & _ & Hs).
    destruct (idx + T <=? n)%nat eqn:E.
    + injection Hs as <- <-. simpl in *. intros a Ha.
      apply in_app_or in Ha as [Ha|[<-|[]]]; [now apply Hacc|].
      apply Nat.leb_le in E. split; [exact E | eauto].
    + injection Hs as <- <-. exact Hacc.
  - intros a [].
Qed.

Lemma weekday_of_week_start (t : datetime) : date_weekday (date t - weekday t) = 0%Z.
Proof.
  unfold weekday, date_weekday.
  rewrite Zminus_mod, Z.mod_mod, Z.sub_diag by lia. reflexivity.
Qed.

Section WeeklyPositions.
Variable entropy : nat -> nat.

Lemma rejection_loop_incl (T : nat) (target : Z) (probs : list Q) (indices : list nat)
      (remaining : nat) : forall sel c out c',
  incl sel indices ->
  rejection_loop entropy remaining target probs indices T sel c = Ok (out, c') ->
  incl out indices.
Proof.
  induction remaining as [|remaining IH]; intros sel c out c' Hs H; simpl in H.
  - now injection H as <- <-.
  - destruct (Z.of_nat (length sel) <? target)%Z; [|now injection H as <- <-].
    apply bind_Ok_inv in H as ([i c1] & _ & H).
    apply bind_Ok_inv in H as (a & Ha & H). apply get_item_In in Ha.
    eapply IH; [|exact H].
    destruct (overlaps T sel a); [exact Hs | now apply set_add_incl].
Qed.

Lemma select_week_incl (T : nat) (target : Z) (probs : list Q) (indices : list nat)
      (c : nat) (out : list nat) (c' : nat) :
  select_week entropy target probs indices T c = Ok (out, c') -> incl out indices.
Proof.
  unfold select_week. intros H.
  apply bind_Ok_inv in H as ([sel c1] & Hr & H).
  apply rejection_loop_incl in Hr; [|intros ? []].
  destruct (Z.of_nat (length sel) <? target)%Z; [|now injection H as <- <-].
  apply bind_Ok_inv in H as (sel' & Hf & H). injection H as <- <-.
  eapply fallback_fill_incl; eauto.
Qed.

(** X11.  Every start position the weekly placer accepts leaves room for
    the whole activation before the end of the series, and it is a sample
    of the week it was accepted for: the week of its timestamp starts on
    the logged day, a Monday. *)
Theorem accepted_positions_fit (pattern : list Q) (start_date end_date : datetime)
        (schedule : schedule_config) (step : Z) (c : nat)
        (ts : timeseries) (c' : nat) (accepted : list (Z * list nat)) :
  place_probabilistic_weekly entropy pattern start_date end_date schedule step c
  = Ok (ts, c', accepted) ->
  forall wk sel a, In (wk, sel) accepted -> In a sel ->
    (a + length pattern <= length ts)%nat
    /\ in_week ts wk a
    /\ date_weekday wk = 0%Z.
Proof.
  intros H.
  destruct (place_probabilistic_weekly_inv entropy _ _ _ _ _ _ _ H)
    as (grid & Hg & _ & (Hl & Hf & _) & _).
  assert (G : forall wk sel a, In (wk, sel) accepted -> In a sel ->
                (a + length pattern <= length grid)%nat /\ in_week grid wk a).
  { unfold place_probabilistic_weekly in H. rewrite Hg in H. cbn [bind] in H.
    apply bind_Ok_inv in H as (wd & _ & H).
    apply bind_Ok_inv in H as (we & _ & H).
    pose (P := fun st : timeseries * nat * list (Z * list nat) =>
                length (fst (fst st)) = length grid
                /\ forall wk sel a, In (wk, sel) (snd st) -> In a sel ->
                     (a + length pattern <= length grid)%nat /\ in_week grid wk a).
    assert (Inv : P (ts, c', accepted)); [|exact (proj2 Inv)].
    refine (foldM_preserves_In P _ _ _ _ _ _ H);
      [|split; [reflexivity | intros ? ? ? []]].
    unfold P.
    intros [[ts0 c0] acc0] [wk items] st' Hweek [Hl0 Hacc] Hs. simpl in Hl0, Hacc.
    unfold place_week in Hs. cbv zeta in Hs.
    apply bind_Ok_inv in Hs as ([probs indices] & Hc & Hs).
    destruct (length probs =? 0)%nat; [injection Hs as <-; now split|].
    apply bind_Ok_inv in Hs as ([sel c1] & Hsel & Hs).
    apply bind_Ok_inv in Hs as (ts1 & Ho & Hs). injection Hs as <-. simpl. split.
    - rewrite <- Hl0. revert Ho.
      apply (foldM_preserves (fun t : timeseries => length t = length ts0)); [|reflexivity].
      intros t a t' Ht Hov. destruct (overlay_spec t a pattern) as (t1 & Ho1 & Hl1 & _).
      rewrite Hov in Ho1. injection Ho1 as <-. congruence.
    - intros wk' sel' a Hin Ha. apply in_app_or in Hin as [Hin|[Hin|[]]];
        [now apply (Hacc wk' sel' a)|].
      injection Hin as <- <-.
      apply select_week_incl in Hsel. apply Hsel in Ha.
      destruct (week_candidates_incl _ _ _ _ _ _ _ Hc a Ha) as [Hfit (t & Ht)].
      split; [lia|]. eapply group_weeks_spec; eauto. }
  intros wk sel a Hin Ha. destruct (G wk sel a Hin Ha) as [G1 (t & Ht & Hw)].
  split; [lia|]. split.
  - exists t. split; [now rewrite Hf | exact Hw].
  - rewrite <- Hw. apply weekday_of_week_start.
Qed.

End WeeklyPositions.

Lemma accepted_positions_fit_witness :
  exists ts,
    (18 + length [1; 1] <= length ts)%nat /\ in_week ts 0%Z 18 /\ date_weekday 0%Z = 0%Z.
Proof.
  assert (R : exists ts c',
             place_probabilistic_weekly entropy_zero [1; 1] 0%Z (7 * 86400 - 3600)%Z
               scenario 3600%Z 0%nat
             = Ok (ts, c', [(0%Z, [18; 20; 42; 44; 66; 68; 90]%nat)]))
    by (eexists; eexists; vm_compute; reflexivity).
  destruct R as (ts & c' & R). exists ts.
  exact (accepted_positions_fit entropy_zero _ _ _ _ _ _ _ _ _ R 0%Z
           [18; 20; 42; 44; 66; 68; 90]%nat 18%nat (or_introl eq_refl) (or_introl eq_refl)).
Defined.

(** ** The quota is met unless the week is full *)

















Section Quota.
Variable entropy : nat -> nat.




End Quota.


(** ** The quota of the week in which the window ends *)

Section LastWeek.
Variable entropy : nat -> nat.


End LastWeek.


(** A week before the one in which the window ends: two full weeks at 7
    activations per week.  The first week is counted with 8 days, its
    target is 8 and 8 positions are accepted; the second has the target
    7. *)
Example inner_week_eighth_day :
  days_in_week 0 (14 * 86400 - 3600)%Z = 8%Z
  /\ target_activations 7 0 (14 * 86400 - 3600)%Z = 8%Z
  /\ target_activations 7 7 (14 * 86400 - 3600)%Z = 7%Z
  /\ option_map (map (fun ws => (fst ws, length (snd ws))))
       (accepted_log (place_probabilistic_weekly entropy_zero [1; 1] 0%Z
                        (14 * 86400 - 3600)%Z scenario 3600%Z 0%nat))
     = Some [(0%Z, 8%nat); (7%Z, 7%nat)].
Proof. repeat split; vm_compute; reflexivity. Qed.

(** ** The days of the grid *)

Lemma filter_seq_convex (p : nat -> bool) (bound : nat) :
  (forall i j k, (i <= j <= k)%nat -> (k < bound)%nat ->
                 p i = true -> p k = true -> p j = true) ->
  forall n base, (base + n <= bound)%nat ->
    filter p (seq base n)
    = seq (hd O (filter p (seq base n))) (length (filter p (seq base n))).
Proof.
  intros Hc. induction n as [|n IH]; intros base Hb0; [reflexivity|].
  cbn [seq filter]. destruct (p base) eqn:E; [|apply IH; lia].
  cbn [hd length seq]. f_equal.
  specialize (IH (S base) ltac:(lia)).
  destruct (filter p (seq (S base) n)) as [|h r] eqn:F; [reflexivity|].
  assert (Hh : In h (filter p (seq (S base) n))) by (rewrite F; now left).
  apply filter_In in Hh as [Hs Hp]. apply in_seq in Hs.
  assert (Hb : p (S base) = true) by (apply (Hc base _ h); auto; lia).
  destruct n as [|n]; [simpl in F; discriminate|].
  cbn [seq filter] in F. rewrite Hb in F. injection F as <- _.
  exact IH.
Qed.

Lemma day_indices_filter (ts : timeseries) (d : Z) :
  day_indices ts d
  = filter (fun k => (date (nth k (map fst ts) 0%Z) =? d)%Z) (seq 0 (length ts)).
Proof.
  unfold day_indices, enumerate.
  assert (G : forall (l : timeseries) base,
             map fst (filter (fun it : nat * (datetime * Q) =>
                                (date (fst (snd it)) =? d)%Z)
                             (combine (seq base (length l)) l))
             = filter (fun k => (date (nth (k - base) (map fst l) 0%Z) =? d)%Z)
                      (seq base (length l))).
  { induction l as [|x l IH]; intros base; [reflexivity|].
    cbn [length seq combine filter map snd fst]. rewrite Nat.sub_diag. cbn [nth].
    assert (R : filter (fun k => (date (nth (k - base) (fst x :: map fst l) 0%Z) =? d)%Z)
                       (seq (S base) (length l))
                = filter (fun k => (date (nth (k - S base) (map fst l) 0%Z) =? d)%Z)
                         (seq (S base) (length l))).
    { apply filter_ext_in. intros k Hk. apply in_seq in Hk.
      replace (k - base)%nat with (S (k - S base)) by lia.
      reflexivity. }
    destruct (date (fst x) =? d)%Z; cbn [map fst]; rewrite IH; [f_equal|];
      symmetry; exact R. }
  rewrite (G ts 0%nat). apply filter_ext. intros k. now rewrite Nat.sub_0_r.
Qed.

Lemma day_indices_fst (ts ts' : timeseries) (d : Z) :
  map fst ts = map fst ts' -> day_indices ts d = day_indices ts' d.
Proof.
  intros H. rewrite !day_indices_filter, H.
  replace (length ts) with (length ts'); [reflexivity|].
  rewrite <- (length_map fst ts'), <- H. apply length_map.
Qed.

(** The timestamps of a grid never decrease. *)
Lemma grid_dates_monotone (start_date end_date step : Z) (grid : timeseries) :
  make_grid start_date end_date step = Ok grid ->
  forall i j, (i <= j)%nat -> (j < length grid)%nat ->
    (date (nth i (map fst grid) 0%Z) <= date (nth j (map fst grid) 0%Z))%Z.
Proof.
  intros Hg i j Hij Hj.
  destruct (Z_lt_le_dec 0 step) as [Hs|Hs].
  - rewrite make_grid_positive_step in Hg by exact Hs. injection Hg as <-.
    rewrite length_map, length_seq in Hj.
    rewrite map_map. cbn [fst].
    rewrite !(nth_map_lt _ _ _ O) by (rewrite length_seq; lia).
    rewrite !seq_nth by lia. cbn [Nat.add].
    unfold date, seconds_per_day. apply Z.div_le_mono; [lia|]. nia.
  - unfold make_grid in Hg.
    destruct (start_date <=? end_date)%Z eqn:E.
    + replace (step <=? 0)%Z with true in Hg by (symmetry; apply Z.leb_le; lia).
      discriminate.
    + apply Z.leb_gt in E. simpl in Hg.
      replace (Z.to_nat (end_date - start_date + 1)) with O in Hg by lia.
      injection Hg as <-. simpl in Hj. lia.
Qed.

Lemma day_indices_run (start_date end_date step : Z) (grid : timeseries) (d : Z) :
  make_grid start_date end_date step = Ok grid ->
  forall k, (k < length (day_indices grid d))%nat ->
    (hd O (day_indices grid d) + k < length grid)%nat
    /\ date (nth (hd O (day_indices grid d) + k)%nat (map fst grid) 0%Z) = d.
Proof.
  intros Hg k Hk. rewrite day_indices_filter in *.
  set (p := fun k => (date (nth k (map fst grid) 0%Z) =? d)%Z) in *.
  assert (Hc : forall i j k, (i <= j <= k)%nat -> (k < length grid)%nat ->
                             p i = true -> p k = true -> p j = true).
  { intros i j m Hijm Hlt Hi Hm. unfold p in *.
    apply Z.eqb_eq in Hi, Hm. apply Z.eqb_eq.
    pose proof (grid_dates_monotone _ _ _ _ Hg i j ltac:(lia) ltac:(lia)).
    pose proof (grid_dates_monotone _ _ _ _ Hg j m ltac:(lia) ltac:(lia)). lia. }
  pose proof (filter_seq_convex p (length grid) Hc (length grid) 0%nat ltac:(lia)) as R.
  assert (Hin : In (hd O (filter p (seq 0 (length grid))) + k)%nat
                   (filter p (seq 0 (length grid)))).
  { rewrite R at 2. apply in_seq. lia. }
  apply filter_In in Hin as [Hs Hp]. apply in_seq in Hs.
  split; [lia|]. unfold p in Hp. now apply Z.eqb_eq in Hp.
Qed.

(** ** The draws of a run of the uniform placer *)

Section RunDraws.
Variable entropy : nat -> nat.

Lemma place_days_draws (pattern : list Q) (apd : Z) (grid : timeseries)
      (days : list Z) : forall ts c placed,
  series_inv (length pattern) grid ts placed ->
  exists draws ts' c',
    foldM (place_day entropy pattern apd) days (ts, c, placed)
    = Ok (ts', c', placed ++ placed_of_draws grid days draws)
    /\ Forall2 (day_drawn grid (length pattern) apd) days draws.
Proof.
  induction days as [|day days IH]; intros ts c placed Hinv.
  - exists [], ts, c. split; [|constructor].
    unfold placed_of_draws. simpl. now rewrite app_nil_r.
  - destruct (place_day_spec entropy pattern apd ts c placed day)
      as (starts & c1 & ts1 & Ha & Hp & Hs).
    specialize (Hs grid Hinv).
    assert (Ed : day_indices ts day = day_indices grid day).
    { apply day_indices_fst. now destruct Hinv as (_ & Hf & _). }
    rewrite Ed in Ha, Hp, Hs.
    destruct (IH ts1 c1 _ Hs) as (draws & ts' & c' & Hf & Hd).
    exists (starts :: draws), ts', c'. split.
    + cbn [foldM]. rewrite Hp. cbn [bind]. rewrite Hf.
      unfold placed_of_draws. cbn [combine map concat fst snd].
      now rewrite <- app_assoc.
    + constructor; [|exact Hd].
      destruct (activation_starts_spec entropy (length (day_indices grid day))
                  (length pattern) apd c) as (starts' & c1' & Ha' & Hl & Hn & Hb).
      rewrite Ha in Ha'. injection Ha' as <- <-.
      unfold day_drawn. auto.
Qed.

(** C7.  For a day of [day_len] samples the uniform daily placer draws
    [min(activations_per_day, max_start)] start offsets (none when that
    number is not positive, in particular when [max_start <= 0]), distinct
    and all in [[0, max_start)], and the day's turn of the loop overlays
    the activation at exactly these offsets from the day's first sample.
    A run does so for every calendar day from the start date to the end
    date, in order: the positions it overlays are, day after day, the
    day's first sample plus the offsets drawn for that day.  A run never
    raises: it returns, unless the grid loop cannot end. *)
Theorem uniform_daily_draws :
  (forall (day_len T : nat) (apd : Z) (c : nat),
     exists starts c',
       activation_starts entropy day_len T apd c = Ok (starts, c')
       /\ length starts = Z.to_nat (Z.min apd (Z.of_nat day_len - Z.of_nat T))
       /\ NoDup starts
       /\ forall s, In s starts -> (Z.of_nat s < Z.of_nat day_len - Z.of_nat T)%Z)
  /\ (forall (pattern : list Q) (apd : Z) (ts : timeseries) (c : nat)
             (placed : list nat) (day : Z),
        exists starts c' ts',
          activation_starts entropy (length (day_indices ts day)) (length pattern) apd c
          = Ok (starts, c')
          /\ place_day entropy pattern apd (ts, c, placed) day
             = Ok (ts', c',
                   placed ++ map (fun s => (hd O (day_indices ts day) + s)%nat) starts))
  /\ (forall (pattern : list Q) (start_date end_date : datetime) (apd step : Z) (c : nat),
        match place_uniform_daily entropy pattern start_date end_date apd step c with
        | Ok (_, _, placed) =>
            exists grid draws,
              make_grid start_date end_date step = Ok grid
              /\ Forall2 (day_drawn grid (length pattern) apd)
                         (py_range (date start_date) (date end_date + 1)) draws
              /\ placed
                 = placed_of_draws grid (py_range (date start_date) (date end_date + 1))
                                   draws
        | Raise _ => False
        | NonFinite => False
        | Diverges => (start_date <= end_date)%Z /\ (step <= 0)%Z
        end).
Proof.
  split; [|split].
  - apply activation_starts_spec.
  - intros. destruct (place_day_spec entropy pattern apd ts c placed day)
      as (starts & c' & ts' & Ha & Hp & _). eauto.
  - intros. unfold place_uniform_daily.
    destruct (make_grid_cases start_date end_date step) as [(grid & Hg & _)|(Hg & H)].
    + rewrite Hg. cbn [bind].
      destruct (place_days_draws pattern apd grid
                  (py_range (date start_date) (date end_date + 1)) grid c []
                  (series_inv_refl _ _)) as (draws & ts' & c' & Hf & Hd).
      rewrite Hf. exists grid, draws. auto.
    + rewrite Hg. exact H.
Qed.

End RunDraws.

(** Two days of four samples and an activation of two: one offset is
    drawn on each day, below 2. *)
Example uniform_daily_draws_run :
  place_uniform_daily entropy_id [5; 7] 0%Z (2 * 86400 - 1)%Z 1 21600%Z 1%nat
  = Ok ([(0%Z, 0); (21600%Z, 5); (43200%Z, 7); (64800%Z, 0); (86400%Z, 5);
         (108000%Z, 7); (129600%Z, 0); (151200%Z, 0)], 3%nat,
        placed_of_draws
          [(0%Z, 0); (21600%Z, 0); (43200%Z, 0); (64800%Z, 0); (86400%Z, 0);
           (108000%Z, 0); (129600%Z, 0); (151200%Z, 0)]
          [0; 1]%Z [[1]; [0]]%nat).
Proof. vm_compute. reflexivity. Qed.

(** ** The uniform placer keeps an activation within its day *)

Lemma fst_nth_map (ts : timeseries) (k : nat) :
  fst (nth k ts (0%Z, 0)) = nth k (map fst ts) 0%Z.
Proof. symmetry. apply (map_nth fst ts (0%Z, 0) k). Qed.

Lemma within_day_fst (ts ts' : timeseries) (T a : nat) :
  map fst ts = map fst ts' -> within_day ts T a -> within_day ts' T a.
Proof.
  intros H W i Hi. destruct (W i Hi) as [W1 W2].
  rewrite !fst_nth_map in *. rewrite <- H.
  split; [|exact W2].
  rewrite <- (length_map fst ts'), <- H, length_map. exact W1.
Qed.

Section WithinDay.
Variable entropy : nat -> nat.

(** X13.  The uniform daily placer never lets an activation cross
    midnight: every start position it overlays, the samples under the
    activation and the sample after it all exist and bear one calendar
    date. *)
Theorem uniform_activation_within_day (pattern : list Q) (start_date end_date : datetime)
        (apd step : Z) (c : nat) (ts : timeseries) (c' : nat) (placed : list nat) :
  place_uniform_daily entropy pattern start_date end_date apd step c
  = Ok (ts, c', placed) ->
  forall a, In a placed -> within_day ts (length pattern) a.
Proof.
  intros H.
  pose proof (place_uniform_daily_spec entropy pattern start_date end_date apd step c) as Sp.
  rewrite H in Sp. destruct Sp as (grid & Hg & _ & Hf & _).
  assert (G : (fun placed ts =>
                 map fst ts = map fst grid
                 /\ forall a, In a placed -> within_day grid (length pattern) a)
                placed ts).
  { apply (uniform_run_ind entropy pattern apd
             (fun placed ts =>
                map fst ts = map fst grid
                /\ forall a, In a placed -> within_day grid (length pattern) a)
             (within_day grid (length pattern)))
      with (start_date := start_date) (end_date := end_date) (step := step)
           (c := c) (grid := grid) (c' := c'); auto.
    - intros placed0 ts0 a ts1 [Hf0 Hp0] Sa Ho. split.
      + destruct (overlay_spec ts0 a pattern) as (ts2 & Ho' & Hl & Hn).
        rewrite Ho in Ho'. injection Ho' as <-.
        rewrite <- Hf0. apply (nth_ext _ _ 0%Z 0%Z); [now rewrite !length_map|].
        intros k _. rewrite <- !fst_nth_map, Hn. apply merged_cell_fst.
      + intros b Hb. apply in_app_or in Hb as [Hb|[<-|[]]]; auto.
    - intros placed0 ts0 day c0 starts c1 s [Hf0 _] Ha Hs.
      rewrite (day_indices_fst ts0 grid day Hf0) in *.
      destruct (activation_starts_spec entropy (length (day_indices grid day))
                  (length pattern) apd c0) as (starts' & c1' & Ha' & _ & _ & Hlt).
      rewrite Ha in Ha'. injection Ha' as <- <-. specialize (Hlt s Hs).
      intros i Hi.
      destruct (day_indices_run _ _ _ _ day Hg (s + i)%nat ltac:(lia)) as [L1 D1].
      destruct (day_indices_run _ _ _ _ day Hg s ltac:(lia)) as [L2 D2].
      rewrite !fst_nth_map. rewrite <- Nat.add_assoc. split; [exact L1|]. congruence.
    - split; [reflexivity | intros ? []]. }
  destruct G as [_ G]. intros a Ha. apply (within_day_fst grid ts); auto.
Qed.

End WithinDay.

Lemma uniform_activation_within_day_witness :
  within_day
    [(0%Z, 0); (21600%Z, 5); (43200%Z, 7); (64800%Z, 0); (86400%Z, 5); (108000%Z, 7);
     (129600%Z, 0); (151200%Z, 0)] 2 1
  /\ within_day
    [(0%Z, 0); (21600%Z, 5); (43200%Z, 7); (64800%Z, 0); (86400%Z, 5); (108000%Z, 7);
     (129600%Z, 0); (151200%Z, 0)] 2 4.
Proof.
  assert (R : place_uniform_daily entropy_id [5; 7] 0%Z (2 * 86400 - 1)%Z 1 21600%Z 1%nat
              = Ok ([(0%Z, 0); (21600%Z, 5); (43200%Z, 7); (64800%Z, 0); (86400%Z, 5);
                     (108000%Z, 7); (129600%Z, 0); (151200%Z, 0)], 3%nat, [1; 4]%nat)).
  { vm_compute. reflexivity. }
  split.
  - apply (uniform_activation_within_day entropy_id _ _ _ _ _ _ _ _ _ R 1%nat).
    now left.
  - apply (uniform_activation_within_day entropy_id _ _ _ _ _ _ _ _ _ R 4%nat).
    right; now left.
Defined.

(** ** The series returned by the generator *)

Section Series.
Variable cubic_spline : list Q -> list Q -> Q -> Q.
Variable fastdtw : list Q -> list Q -> list (nat * nat).
Variable entropy : nat -> nat.

Lemma generator_grid (templates : list template) (nominal duration_min : Q)
      (start_date end_date : datetime) (apd : Z) (method : string)
      (baseline timestep_native : Q) (step ref_index : Z)
      (schedule : option schedule_config) (ts : timeseries) :
  generate_timeseries_with_activations cubic_spline fastdtw entropy templates nominal
    duration_min start_date end_date apd method baseline timestep_native step
    ref_index schedule = Ok ts ->
  exists grid, make_grid start_date end_date step = Ok grid
               /\ map fst ts = map fst grid.
Proof.
  unfold generate_timeseries_with_activations,
    generate_timeseries_with_probabilistic_schedule.
  destruct schedule as [schedule|]; intros H.
  - apply bind_Ok_inv in H as (pattern & _ & H).
    apply bind_Ok_inv in H as ([[ts0 c0] acc] & Hr & H). injection H as <-.
    apply place_probabilistic_weekly_inv in Hr as (grid & Hg & _ & (_ & Hf & _) & _).
    eauto.
  - apply bind_Ok_inv in H as (pattern & _ & H).
    apply bind_Ok_inv in H as ([[ts0 c0] placed] & Hr & H). injection H as <-.
    pose proof (place_uniform_daily_spec entropy pattern start_date end_date apd step 0)
      as Sp.
    rewrite Hr in Sp. destruct Sp as (grid & Hg & _ & Hf & _). eauto.
Qed.

(** X14.  A series returned by [generate_timeseries_with_activations],
    with or without a schedule, has its samples at
    [start_date + k * output_timestep] for
    [k = 0 .. (end_date - start_date) / output_timestep]; it is returned
    for a window that is not empty only when the step is positive, and it
    is empty when the window is. *)
Theorem series_timestamps (templates : list template) (nominal duration_min : Q)
        (start_date end_date : datetime) (apd : Z) (method : string)
        (baseline timestep_native : Q) (step ref_index : Z)
        (schedule : option schedule_config) (ts : timeseries) :
  generate_timeseries_with_activations cubic_spline fastdtw entropy templates nominal
    duration_min start_date end_date apd method baseline timestep_native step
    ref_index schedule = Ok ts ->
  ((start_date <= end_date)%Z -> (0 < step)%Z)
  /\ ((0 < step)%Z ->
      map fst ts
      = map (fun k => (start_date + Z.of_nat k * step)%Z)
            (seq 0 (Z.to_nat ((end_date - start_date) / step + 1))))
  /\ ((end_date < start_date)%Z -> ts = []).
Proof.
  intros H. apply generator_grid in H as (grid & Hg & Hf).
  split; [|split].
  - intros Hle. unfold make_grid in Hg.
    destruct (start_date <=? end_date)%Z eqn:E1; [|apply Z.leb_gt in E1; lia].
    destruct (step <=? 0)%Z eqn:E2; [discriminate|]. now apply Z.leb_gt in E2.
  - intros Hs. rewrite make_grid_positive_step in Hg by exact Hs.
    injection Hg as <-. rewrite Hf, map_map. reflexivity.
  - intros Hlt. unfold make_grid in Hg.
    replace (start_date <=? end_date)%Z with false in Hg
      by (symmetry; apply Z.leb_gt; lia).
    simpl in Hg. replace (Z.to_nat (end_date - start_date + 1)) with O in Hg by lia.
    injection Hg as <-. now destruct ts.
Qed.

End Series.

Lemma series_timestamps_witness :
  exists ts,
    generate_timeseries_with_activations chord_interpolant diagonal_path entropy_id
      [triangle] 2000 1 0%Z 299%Z 1 "scaling" 0 12 60%Z 0 None = Ok ts
    /\ map fst ts = [0; 60; 120; 180; 240]%Z.
Proof.
  destruct (generate_timeseries_with_activations chord_interpolant diagonal_path
              entropy_id [triangle] 2000 1 0%Z 299%Z 1 "scaling" 0 12 60%Z 0 None)
    as [ts| | |] eqn:E; try (vm_compute in E; discriminate).
  exists ts. split; [reflexivity|].
  exact (proj1 (proj2 (series_timestamps chord_interpolant diagonal_path entropy_id
                         _ _ _ _ _ _ _ _ _ _ _ _ _ E)) eq_refl).
Defined.

(** ** Nothing requested, nothing placed *)

Section ZeroQuota.
Variable entropy : nat -> nat.

Lemma place_day_nothing (pattern : list Q) (apd : Z) (st st' : timeseries * nat * list nat)
      (day : Z) :
  (apd <= 0)%Z -> place_day entropy pattern apd st day = Ok st' -> st' = st.
Proof.
  destruct st as [[ts c] placed]. intros Ha H. unfold place_day in H. cbv zeta in H.
  destruct (length (day_indices ts day) =? 0)%nat; [now injection H as <-|].
  unfold activation_starts in H.
  destruct (0 <? Z.of_nat (length (day_indices ts day)) - Z.of_nat (length pattern))%Z.
  - replace (0 <? Z.min apd (Z.of_nat (length (day_indices ts day))
                             - Z.of_nat (length pattern)))%Z with false in H
      by (symmetry; apply Z.ltb_ge; lia).
    simpl in H. now injection H as <-.
  - simpl in H. now injection H as <-.
Qed.

Lemma place_week_nothing (pattern : list Q) (end_date : datetime) (wd we : list Q)
      (ts : timeseries) (c : nat) (accepted : list (Z * list nat))
      (week : Z * list (nat * datetime)) (st' : timeseries * nat * list (Z * list nat)) :
  place_week entropy pattern end_date wd we 0 (ts, c, accepted) week = Ok st' ->
  exists accepted', st' = (ts, c, accepted')
                    /\ (accepted' = accepted \/ accepted' = accepted ++ [(fst week, [])]).
Proof.
  destruct week as [wk items]. intros H. unfold place_week in H. cbv zeta in H.
  apply bind_Ok_inv in H as ([probs indices] & _ & H).
  destruct (length probs =? 0)%nat; [injection H as <-; eauto|].
  rewrite target_activations_quot, Z.mul_0_l in H.
  change (Z.quot 0 7) with 0%Z in H.
  unfold select_week in H.
  destruct (length indices * 2)%nat; cbn [rejection_loop length Z.of_nat Z.ltb Z.compare
                                            bind foldM] in H;
    injection H as <-; eauto.
Qed.

(** X15.  With [activations_per_day <= 0], or a schedule whose
    [activations_per_week] is 0, the placers return the grid of zeros, draw
    nothing from the random source and accept no position. *)
Theorem nothing_requested_nothing_placed (pattern : list Q)
        (start_date end_date : datetime) (step : Z) (c : nat) :
  (forall apd ts c' placed,
      (apd <= 0)%Z ->
      place_uniform_daily entropy pattern start_date end_date apd step c
      = Ok (ts, c', placed) ->
      make_grid start_date end_date step = Ok ts /\ c' = c /\ placed = [])
  /\ (forall schedule ts c' accepted,
         activations_per_week schedule = Some 0%Z ->
         place_probabilistic_weekly entropy pattern start_date end_date schedule step c
         = Ok (ts, c', accepted) ->
         make_grid start_date end_date step = Ok ts /\ c' = c
         /\ forall wk sel, In (wk, sel) accepted -> sel = []).
Proof.
  split.
  - intros apd ts c' placed Ha H. unfold place_uniform_daily in H.
    apply bind_Ok_inv in H as (grid & Hg & H).
    assert (E : (ts, c', placed) = (grid, c, @nil nat)).
    { revert H. apply (foldM_preserves (fun st => st = (grid, c, @nil nat)));
        [|reflexivity].
      intros st day st' -> Hd. now apply place_day_nothing in Hd. }
    injection E as -> -> ->. auto.
  - intros schedule ts c' accepted Ha H. unfold place_probabilistic_weekly in H.
    rewrite Ha in H.
    apply bind_Ok_inv in H as (grid & Hg & H).
    apply bind_Ok_inv in H as (wd & _ & H).
    apply bind_Ok_inv in H as (we & _ & H). cbv zeta in H.
    pose (P := fun st : timeseries * nat * list (Z * list nat) =>
                 fst st = (grid, c)
                 /\ forall wk sel, In (wk, sel) (snd st) -> sel = []).
    assert (G : P (ts, c', accepted)).
    { refine (foldM_preserves P _ _ _ _ _ _ H); [|split; [reflexivity | intros ? ? []]].
      intros [[ts0 c0] acc0] week st' [E0 Hacc] Hw. simpl in E0, Hacc.
      injection E0 as -> ->.
      apply place_week_nothing in Hw as (acc' & -> & [->| ->]); split; auto.
      simpl. intros wk sel Hin. apply in_app_or in Hin as [Hin|[Hin|[]]]; eauto.
      now injection Hin as _ <-. }
    destruct G as [E G]. simpl in E, G. injection E as -> ->. auto.
Qed.

End ZeroQuota.

(** ** Merging configurations *)

Lemma json_dict_ind (P : json -> Prop) :
  (forall j, is_dict j = false -> P j) ->
  (forall items, (forall k v, In (k, v) items -> P v) -> P (JDict items)) ->
  forall j, P j.
Proof.
  intros Hleaf Hdict. fix F 1. intros j.
  destruct j as [| | | | |items]; try (apply Hleaf; reflexivity).
  apply Hdict. induction items as [|[k' v'] r IH]; intros k v Hin.
  - destruct Hin.
  - destruct Hin as [E|Hin]; [|exact (IH k v Hin)].
    injection E as _ <-. apply F.
Qed.

Lemma dict_get_set_same d k v : dict_get (dict_set d k v) k = Some v.
Proof.
  induction d as [|[k' v'] r IH]; simpl.
  - now rewrite String.eqb_refl.
  - destruct (String.eqb k' k) eqn:E; simpl; rewrite E; auto.
Qed.

Lemma dict_get_set_other d k v k' :
  k <> k' -> dict_get (dict_set d k v) k' = dict_get d k'.
Proof.
  intros Hne. induction d as [|[k0 v0] r IH]; simpl.
  - destruct (String.eqb k k') eqn:E; [apply String.eqb_eq in E; contradiction|reflexivity].
  - destruct (String.eqb k0 k) eqn:E; simpl.
    + apply String.eqb_eq in E. subst k0.
      destruct (String.eqb k k') eqn:E'; [apply String.eqb_eq in E'; contradiction|reflexivity].
    + destruct (String.eqb k0 k'); auto.
Qed.

Lemma dict_set_same d k v : dict_get d k = Some v -> dict_set d k v = d.
Proof.
  induction d as [|[k' v'] r IH]; simpl; [discriminate|].
  destruct (String.eqb k' k); [now intros [= ->]|]. intros H. now rewrite IH.
Qed.

Lemma dict_get_None d k : dict_get d k = None <-> ~ In k (map fst d).
Proof.
  induction d as [|[k' v'] r IH]; simpl; [tauto|].
  destruct (String.eqb k' k) eqn:E.
  - apply String.eqb_eq in E. split; [discriminate | intros H; exfalso; auto].
  - apply String.eqb_neq in E. rewrite IH. tauto.
Qed.

Lemma dict_get_In d k v : NoDup (map fst d) -> In (k, v) d -> dict_get d k = Some v.
Proof.
  induction d as [|[k' v'] r IH]; simpl; intros Hn Hin; [destruct Hin|].
  inversion Hn as [|? ? Hni Hn']; subst.
  destruct Hin as [E|Hin].
  - injection E as -> ->. now rewrite String.eqb_refl.
  - destruct (String.eqb k' k) eqn:E; [|auto].
    apply String.eqb_eq in E. subst k'. exfalso. apply Hni.
    change k with (fst (k, v)). now apply in_map.
Qed.

Lemma dict_set_keys d k v :
  map fst (dict_set d k v)
  = if existsb (String.eqb k) (map fst d) then map fst d else map fst d ++ [k].
Proof.
  induction d as [|[k' v'] r IH]; simpl; [reflexivity|].
  rewrite (String.eqb_sym k k').
  destruct (String.eqb k' k) eqn:E; simpl; [reflexivity|].
  rewrite IH. now destruct (existsb _ _).
Qed.

Lemma existsb_eqb_In k l : existsb (String.eqb k) l = true <-> In k l.
Proof.
  rewrite existsb_exists. split.
  - intros (x & Hx & E). apply String.eqb_eq in E. now subst.
  - intros H. exists k. split; [exact H | apply String.eqb_refl].
Qed.

Lemma distinct_NoDup l : distinct l = true -> NoDup l.
Proof.
  induction l as [|k r IH]; simpl; intros H; constructor.
  - apply andb_prop in H as [H _]. intros Hin. apply existsb_eqb_In in Hin.
    rewrite Hin in H. discriminate.
  - apply andb_prop in H as [_ H]. auto.
Qed.

Lemma deep_merge_leaf old v :
  (is_dict old && is_dict v)%bool = false -> deep_merge old v = v.
Proof. destruct old, v; simpl; intros H; try reflexivity; discriminate. Qed.

Lemma merge_items_new old v :
  match old with
  | Some old => if (is_dict old && is_dict v)%bool then deep_merge old v else v
  | None => v
  end = merged_value old v.
Proof.
  destruct old as [old|]; [|reflexivity]. simpl.
  destruct (is_dict old && is_dict v)%bool eqn:E; [reflexivity|].
  symmetry. now apply deep_merge_leaf.
Qed.

Lemma merge_items_cons k v rest result :
  merge_items (fun old v => deep_merge old v) ((k, v) :: rest) result
  = merge_items (fun old v => deep_merge old v) rest
                (dict_set result k (merged_value (dict_get result k) v)).
Proof. cbn [merge_items]. cbv zeta. now rewrite merge_items_new. Qed.

Lemma merge_items_get (items : list (string * json)) (k : string) :
  NoDup (map fst items) ->
  forall result,
    dict_get (merge_items (fun old v => deep_merge old v) items result) k
    = match dict_get items k with
      | Some v => Some (merged_value (dict_get result k) v)
      | None => dict_get result k
      end.
Proof.
  induction items as [|[k' v'] rest IH]; intros Hn result; [reflexivity|].
  inversion Hn as [|? ? Hni Hn']; subst.
  rewrite merge_items_cons, IH by exact Hn'. cbn [dict_get].
  destruct (String.eqb k' k) eqn:E.
  - apply String.eqb_eq in E. subst k'.
    apply dict_get_None in Hni. rewrite Hni. apply dict_get_set_same.
  - apply String.eqb_neq in E. now rewrite dict_get_set_other.
Qed.

Lemma merge_items_keys (items : list (string * json)) :
  NoDup (map fst items) ->
  forall result,
    map fst (merge_items (fun old v => deep_merge old v) items result)
    = map fst result
      ++ filter (fun k => negb (existsb (String.eqb k) (map fst result)))
                (map fst items).
Proof.
  induction items as [|[k v] rest IH]; intros Hn result;
    [simpl; now rewrite app_nil_r|].
  inversion Hn as [|? ? Hni Hn']; subst.
  rewrite merge_items_cons, IH by exact Hn'. rewrite dict_set_keys.
  cbn [map fst filter].
  destruct (existsb (String.eqb k) (map fst result)) eqn:E; cbn [negb]; [reflexivity|].
  rewrite <- app_assoc. cbn [app]. do 2 f_equal.
  apply filter_ext_in. intros k' Hk'. f_equal.
  rewrite existsb_app. cbn [existsb]. rewrite orb_false_r.
  destruct (String.eqb k' k) eqn:E'; [|now rewrite orb_false_r].
  apply String.eqb_eq in E'. subst k'. contradiction.
Qed.

Lemma merge_items_fixed (items result : list (string * json)) :
  (forall k v, In (k, v) items ->
               dict_get result k = Some (merged_value (dict_get result k) v)) ->
  merge_items (fun old v => deep_merge old v) items result = result.
Proof.
  induction items as [|[k v] rest IH]; intros H; [reflexivity|].
  rewrite merge_items_cons.
  rewrite dict_set_same by (apply H; now left).
  apply IH. intros k' v' Hin. apply H. now right.
Qed.

(** X16.  What [deep_merge] of two dicts holds under each key: under a
    key of [overrides] the merge of the base's value with the new one (the
    new value itself when the key is new or either value is not a dict),
    under any other key the value of [base]. *)
Theorem deep_merge_lookup (b o : list (string * json)) :
  NoDup (map fst o) ->
  exists m,
    deep_merge (JDict b) (JDict o) = JDict m
    /\ (forall k,
          dict_get m k
          = match dict_get o k with
            | Some v => Some (merged_value (dict_get b k) v)
            | None => dict_get b k
            end)
    /\ (forall old v, (is_dict old && is_dict v)%bool = false ->
                      merged_value (Some old) v = v).
Proof.
  intros Hn. eexists. split; [reflexivity|]. split.
  - intros k. now apply merge_items_get.
  - intros old v. apply deep_merge_leaf.
Qed.

(** X17.  [deep_merge] of two dicts keeps every key of [base], in the
    order of [base], and appends the new keys of [overrides] in the order
    of [overrides]. *)
Theorem deep_merge_keys (b o : list (string * json)) :
  NoDup (map fst o) ->
  exists m,
    deep_merge (JDict b) (JDict o) = JDict m
    /\ map fst m
       = map fst b
         ++ filter (fun k => negb (existsb (String.eqb k) (map fst b))) (map fst o).
Proof.
  intros Hn. eexists. split; [reflexivity|]. now apply merge_items_keys.
Qed.

Lemma unique_keys_dict items :
  unique_keys (JDict items) = true ->
  NoDup (map fst items) /\ forall k v, In (k, v) items -> unique_keys v = true.
Proof.
  cbn [unique_keys]. intros H. apply andb_prop in H as [H1 H2].
  split; [now apply distinct_NoDup|].
  rewrite forallb_forall in H2. intros k v Hin. exact (H2 (k, v) Hin).
Qed.

Lemma deep_merge_self (o : json) : unique_keys o = true -> deep_merge o o = o.
Proof.
  induction o as [j Hj|items IH] using json_dict_ind.
  - intros _. apply deep_merge_leaf. now rewrite Hj.
  - intros U. apply unique_keys_dict in U as [Hn Hu].
    cbn [deep_merge]. f_equal. apply merge_items_fixed.
    intros k v Hin. rewrite (dict_get_In _ _ _ Hn Hin). cbn [merged_value].
    f_equal. symmetry. apply (IH k v Hin). eauto.
Qed.

(** X18.  Merging the same overrides a second time changes nothing. *)
Theorem deep_merge_idempotent (o : json) :
  unique_keys o = true ->
  forall b, deep_merge (deep_merge b o) o = deep_merge b o.
Proof.
  induction o as [j Hj|items IH] using json_dict_ind; intros U b.
  - rewrite !deep_merge_leaf; auto; rewrite Hj; apply andb_false_r.
  - destruct (is_dict b) eqn:Eb.
    2:{ rewrite (deep_merge_leaf b) by (now rewrite Eb). now apply deep_merge_self. }
    destruct b as [| | | | |bi]; try discriminate.
    pose proof (unique_keys_dict _ U) as [Hn Hu].
    cbn [deep_merge]. f_equal. apply merge_items_fixed.
    intros k v Hin.
    rewrite merge_items_get by exact Hn.
    rewrite (dict_get_In _ _ _ Hn Hin). f_equal.
    cbn [merged_value].
    destruct (dict_get bi k) as [old|]; cbn [merged_value].
    + symmetry. apply (IH k v Hin). eauto.
    + symmetry. apply deep_merge_self. eauto.
Qed.

Lemma merge_items_fresh (items : list (string * json)) :
  NoDup (map fst items) ->
  forall result,
    (forall k, In k (map fst items) -> ~ In k (map fst result)) ->
    merge_items (fun old v => deep_merge old v) items result = result ++ items.
Proof.
  induction items as [|[k v] rest IH]; intros Hn result Hd;
    [simpl; now rewrite app_nil_r|].
  inversion Hn as [|? ? Hni Hn']; subst.
  rewrite merge_items_cons.
  assert (G : dict_get result k = None) by (apply dict_get_None, Hd; now left).
  rewrite G. cbn [merged_value].
  assert (S : dict_set result k v = result ++ [(k, v)]).
  { clear -G. induction result as [|[k' v'] r IHr]; [reflexivity|].
    simpl in *. destruct (String.eqb k' k); [discriminate|]. now rewrite IHr. }
  rewrite S, IH; [now rewrite <- app_assoc | exact Hn' |].
  intros k' Hk'. rewrite map_app, in_app_iff. simpl. intros [H|[<-|[]]].
  - apply (Hd k'); [now right | exact H].
  - contradiction.
Qed.

(** X19.  The empty dict is neutral for [deep_merge] on both sides, and
    [merge_overrides] is [deep_merge] with a missing base read as the empty
    dict. *)
Theorem merge_overrides_is_deep_merge (extra : list (string * json)) :
  NoDup (map fst extra) ->
  deep_merge (JDict []) (JDict extra) = JDict extra
  /\ (forall b, deep_merge (JDict b) (JDict []) = JDict b)
  /\ forall base,
       merge_overrides base extra
       = deep_merge (JDict (match base with Some b => b | None => [] end)) (JDict extra).
Proof.
  intros Hn.
  assert (E : deep_merge (JDict []) (JDict extra) = JDict extra).
  { cbn [deep_merge]. f_equal. rewrite merge_items_fresh; auto. }
  split; [exact E|]. split; [reflexivity|].
  intros base. unfold merge_overrides.
  destruct (match base with Some b => b | None => [] end) as [|x b'] eqn:Eb; cbn [truthy].
  - destruct extra as [|y e']; cbn [truthy negb andb]; [reflexivity|].
    symmetry. exact E.
  - destruct extra as [|y e']; cbn [truthy negb andb]; reflexivity.
Qed.

Lemma deep_merge_lookup_witness :
  exists m,
    deep_merge (JDict base_config) (JDict config_patch) = JDict m
    /\ (forall k,
          dict_get m k
          = match dict_get config_patch k with
            | Some v => Some (merged_value (dict_get base_config k) v)
            | None => dict_get base_config k
            end)
    /\ (forall old v, (is_dict old && is_dict v)%bool = false ->
                      merged_value (Some old) v = v).
Proof.
  exact (deep_merge_lookup base_config config_patch (distinct_NoDup (map fst config_patch) eq_refl)).
Defined.

Lemma deep_merge_keys_witness :
  exists m,
    deep_merge (JDict base_config) (JDict config_patch) = JDict m
    /\ map fst m = ["name"; "heating"; "floor_area"]%string.
Proof.
  exact (deep_merge_keys base_config config_patch (distinct_NoDup (map fst config_patch) eq_refl)).
Defined.

Lemma deep_merge_idempotent_witness :
  deep_merge (deep_merge (JDict base_config) (JDict config_patch)) (JDict config_patch)
  = deep_merge (JDict base_config) (JDict config_patch).
Proof.
  exact (deep_merge_idempotent (JDict config_patch) eq_refl (JDict base_config)).
Defined.

Lemma merge_overrides_is_deep_merge_witness :
  deep_merge (JDict []) (JDict config_patch) = JDict config_patch
  /\ (forall b, deep_merge (JDict b) (JDict []) = JDict b)
  /\ forall base,
       merge_overrides base config_patch
       = deep_merge (JDict (match base with Some b => b | None => [] end))
                    (JDict config_patch).
Proof.
  exact (merge_overrides_is_deep_merge config_patch (distinct_NoDup (map fst config_patch) eq_refl)).
Defined.
